(** * google-sheets-writer: the reconciliation core, embedded and verified

    The TypeScript sources are embedded shallowly, one module per source file:
    - [Retry]  : sheets/retry.ts   (retryOperation, calculateRetryDelay, shouldRetry)
    - [Mapper] : sheets/mapper.ts  (class RecordMapper)
    - [Writer] : the writer script (class GoogleSheetsWriter: lock file,
                 full refresh, incremental update, dry run)

    JavaScript numbers that hold counts, row positions and millisecond clock
    readings are integers ([nat], [Z]); retry delays are exact rationals
    ([Q]).  Strings are byte strings (UTF-8); [trim] and the case
    conversions act on the ASCII range.  Definitions come first, the
    theorems about them follow. *)

From Stdlib Require Import List String Ascii Bool ZArith QArith Qminmax Lia Lqa.
From Stdlib Require Import Permutation Sorted DecimalString.
Import ListNotations.

Set Implicit Arguments.

Infix "+++" := String.append (right associativity, at level 60).

(** ** Vocabulary shared by the modules *)

(** [Subseq l1 l2]: [l1] is obtained from [l2] by erasing elements, the
    remaining ones keeping their relative order. *)
Inductive Subseq {A : Type} : list A -> list A -> Prop :=
| Subseq_nil : Subseq [] []
| Subseq_skip : forall x l1 l2, Subseq l1 l2 -> Subseq l1 (x :: l2)
| Subseq_take : forall x l1 l2, Subseq l1 l2 -> Subseq (x :: l1) (x :: l2).

(** [Array.prototype.includes] on an array of strings. *)
Definition includes (l : list string) (s : string) : bool :=
  existsb (String.eqb s) l.

(** [String(n)] for an integer [n]. *)
Definition string_of_Z (z : Z) : string := NilZero.string_of_int (Z.to_int z).
Definition string_of_nat (n : nat) : string := NilZero.string_of_uint (Nat.to_uint n).

(** [String.prototype.includes]. *)
Fixpoint containsSubstring (needle haystack : string) : bool :=
  String.prefix needle haystack
  || match haystack with
     | EmptyString => false
     | String _ rest => containsSubstring needle rest
     end.

Definition upperChar (c : ascii) : ascii :=
  let n := N_of_ascii c in
  if ((97 <=? n) && (n <=? 122))%N then ascii_of_N (n - 32) else c.

Definition lowerChar (c : ascii) : ascii :=
  let n := N_of_ascii c in
  if ((65 <=? n) && (n <=? 90))%N then ascii_of_N (n + 32) else c.

Fixpoint mapString (f : ascii -> ascii) (s : string) : string :=
  match s with
  | EmptyString => EmptyString
  | String c rest => String (f c) (mapString f rest)
  end.

Definition toUpperCase : string -> string := mapString upperChar.
Definition toLowerCase : string -> string := mapString lowerChar.

(** A property read off an error object: a number or a string. *)
Inductive JsScalar : Type :=
| SNum (n : Z)
| SStr (s : string).

(** What the code reads from a thrown value: [code], [status], [message];
    [None] is [undefined]. *)
Record JsError : Type := mkError {
  code : option JsScalar;
  status : option JsScalar;
  message : option string
}.

(** [new Error(msg)]. *)
Definition newError (msg : string) : JsError :=
  {| code := None; status := None; message := Some msg |}.

(** A value inside a template literal: [undefined] prints as such. *)
Definition templateString (s : option string) : string :=
  match s with
  | Some s => s
  | None => "undefined"
  end.

(** * The retry executor (sheets/retry.ts) *)
Module Retry.

Record RetryConfig : Type := mkConfig {
  maxRetries : nat;
  baseDelay : Q;
  maxDelay : Q
}.

Definition DEFAULT_RETRY_CONFIG : RetryConfig :=
  {| maxRetries := 3; baseDelay := 1000; maxDelay := 10000 |}.

(** [Math.pow(2, attempt)]. *)
Definition pow2 (attempt : nat) : Q := inject_Z (2 ^ Z.of_nat attempt).

(** [random] is the value [Math.random()] returned, in [0, 1). *)
Definition calculateRetryDelay (attempt : nat) (config : RetryConfig) (random : Q) : Q :=
  let exponentialDelay := Qmin (baseDelay config * pow2 attempt) (maxDelay config) in
  let jitter := exponentialDelay * (1 # 4) * (random * 2 - 1) in
  Qmax (baseDelay config) (exponentialDelay + jitter).

Definition retryableErrors : list string :=
  ["RATE_LIMIT_EXCEEDED"; "QUOTA_EXCEEDED"; "INTERNAL_ERROR"; "BACKEND_ERROR";
   "SERVICE_UNAVAILABLE"; "TIMEOUT"]%string.

Definition retryableHttpCodes : list Z := [429; 500; 502; 503; 504]%Z.

Definition networkCodes : list string :=
  ["ECONNRESET"; "ETIMEDOUT"; "ENOTFOUND"; "EAI_AGAIN"]%string.

(** [x && retryableHttpCodes.includes(x)]: strict equality, so only a number
    can be included (and every listed number is truthy). *)
Definition isRetryableHttpCode (x : option JsScalar) : bool :=
  match x with
  | Some (SNum n) => existsb (Z.eqb n) retryableHttpCodes
  | _ => false
  end.

Definition isNetworkCode (x : option JsScalar) : bool :=
  match x with
  | Some (SStr s) => includes networkCodes s
  | _ => false
  end.

Definition shouldRetry (error : JsError) : bool :=
  if isRetryableHttpCode (code error) then true
  else if isRetryableHttpCode (status error) then true
  else
    match message error with
    | Some (String c m) =>
        let message := toUpperCase (String c m) in
        existsb (fun retryable => containsSubstring retryable message) retryableErrors
    | _ =>
        (* no message, or the empty one: falsy *)
        if isNetworkCode (code error) then true else false
    end.

Section RetryOperation.

Variable T : Type.

(** The world as [retryOperation] sees it: what the n-th call of
    [operation] does (0-based; [inl] is a rejection) and what the n-th
    call of [Math.random] returns. *)
Record Env : Type := mkEnv {
  operation : nat -> JsError + T;
  random : nat -> Q
}.

(** What a run leaves behind: the value returned or the error thrown, the
    number of times [operation] was called, and the delays slept. *)
Record Outcome : Type := mkOutcome {
  result : JsError + T;
  invocations : nat;
  sleeps : list Q
}.

(** The [throw] after the loop. [lastError] is [undefined] only when the
    loop body never ran, and reading [message] off it is a TypeError. *)
Definition failure (config : RetryConfig) (lastError : option JsError) : JsError :=
  match lastError with
  | Some e =>
      newError ("Operation failed after " +++ string_of_nat (maxRetries config + 1)
                +++ " attempts. Last error: " +++ templateString (message e))
  | None => newError "Cannot read properties of undefined (reading 'message')"
  end.

(** The [for (attempt = 0; attempt <= maxRetries; attempt++)] loop;
    [remaining] counts the turns left, [maxRetries + 1 - attempt]. *)
Fixpoint retryLoop (config : RetryConfig) (env : Env)
    (remaining attempt : nat) (slept : list Q) (lastError : option JsError) : Outcome :=
  match remaining with
  | O => {| result := inl (failure config lastError);
            invocations := attempt; sleeps := slept |}
  | S remaining' =>
      let slept' :=
        if (0 <? attempt)%nat
        then slept ++ [calculateRetryDelay (attempt - 1) config (random env (attempt - 1))]
        else slept in
      match operation env attempt with
      | inr value =>
          {| result := inr value; invocations := attempt + 1; sleeps := slept' |}
      | inl error =>
          if negb (shouldRetry error) || (maxRetries config <=? attempt)%nat
          then {| result := inl (failure config (Some error));
                  invocations := attempt + 1; sleeps := slept' |}
          else retryLoop config env remaining' (attempt + 1) slept' (Some error)
      end
  end.

Definition retryOperation (env : Env) (config : RetryConfig) : Outcome :=
  retryLoop config env (maxRetries config + 1) 0 [] None.

(** The attempts before [k] all rejected with an error that is retried. *)
Definition retriedBefore (env : Env) (k : nat) : Prop :=
  forall i, (i < k)%nat -> exists e, operation env i = inl e /\ shouldRetry e = true.

End RetryOperation.

(** ** Operations to evaluate examples with *)

Definition notFound : JsError :=
  {| code := Some (SNum 404); status := None;
     message := Some "Requested entity was not found."%string |}.

Definition unavailable : JsError :=
  {| code := Some (SNum 503); status := None;
     message := Some "The service is currently unavailable."%string |}.

(** An operation that rejects with [e] on every call. *)
Definition alwaysRejects (e : JsError) : Env unit :=
  {| operation := fun _ => inl e; random := fun _ => 1 # 2 |}.

(** A socket reset as Node reports it. *)
Definition connectionReset : JsError :=
  {| code := Some (SStr "ECONNRESET"); status := None;
     message := Some "read ECONNRESET"%string |}.

(** An operation that rejects with [e] on its first [n] calls and then
    resolves. *)
Definition rejectsThenResolves (n : nat) (e : JsError) : Env unit :=
  {| operation := fun i => if (i <? n)%nat then inl e else inr tt;
     random := fun _ => 1 # 2 |}.

End Retry.

(** * The record mapper (sheets/mapper.ts) *)
Module Mapper.

(** ** Values *)

(** A parsed JSON value, the [any] of [Record<string, any>]. *)
#[local] Unset Elimination Schemes.
Inductive JsonValue : Type :=
| JNull
| JBool (b : bool)
| JNumber (n : Q)
| JString (s : string)
| JArray (items : list JsonValue)
| JObject (members : list (string * JsonValue)).
#[local] Set Elimination Schemes.

(** An object, as the list of its own keys in [Object.keys] order with
    their values; keys are distinct. *)
Definition JsRecord : Type := list (string * JsonValue).

(** [record[key]]; [None] is [undefined]. *)
Fixpoint getField (record : JsRecord) (key : string) : option JsonValue :=
  match record with
  | [] => None
  | (k, v) :: rest => if String.eqb k key then Some v else getField rest key
  end.

(** An array index: the canonical decimal numeral of an integer from 0 to
    2^32 - 2.  The own keys of an object list these first, in ascending
    numeric order, and after them the other strings in the order of their
    creation. *)
Definition arrayIndex (key : string) : option Z :=
  match NilZero.uint_of_string key with
  | Some d =>
      let n := Z.of_uint d in
      if (n <=? 4294967294)%Z && String.eqb (string_of_Z n) key then Some n else None
  | None => None
  end.

Definition isArrayIndex (key : string) : bool :=
  match arrayIndex key with
  | Some _ => true
  | None => false
  end.

(** A new key that is the array index [n]: it goes after the smaller
    indices and before every other key. *)
Fixpoint defineIndex (record : JsRecord) (n : Z) (key : string) (v : JsonValue)
  : JsRecord :=
  match record with
  | [] => [(key, v)]
  | (k, old) :: rest =>
      match arrayIndex k with
      | Some m =>
          if (m <? n)%Z then (k, old) :: defineIndex rest n key v
          else (key, v) :: record
      | None => (key, v) :: record
      end
  end.

(** A new value for a key the object has: the key keeps its place. *)
Fixpoint replaceField (record : JsRecord) (key : string) (v : JsonValue) : JsRecord :=
  match record with
  | [] => []
  | (k, old) :: rest =>
      if String.eqb k key then (k, v) :: rest else (k, old) :: replaceField rest key v
  end.

(** [record[key] = v] on a plain object.  Assigning to [__proto__] reaches
    the setter of [Object.prototype] and creates no own key. *)
Definition setField (record : JsRecord) (key : string) (v : JsonValue) : JsRecord :=
  if String.eqb key "__proto__" then record
  else
    match getField record key with
    | Some _ => replaceField record key v
    | None =>
        match arrayIndex key with
        | Some n => defineIndex record n key v
        | None => record ++ [(key, v)]
        end
    end.

(** A cell handed to the store: text, number or boolean. *)
Inductive Cell : Type :=
| CText (s : string)
| CNumber (n : Q)
| CBool (b : bool).

(** The calendar fields of a valid [Date] in the local time zone, as
    [getFullYear()], [getMonth()] (0-based) and [getDate()] return them. *)
Record JSDate : Type := mkDate {
  getFullYear : Z;
  getMonth : Z;
  getDate : Z
}.

(** The parts of the JavaScript runtime the mapper calls.  [newDate s] is
    [new Date(s)], [None] standing for an Invalid Date (the one whose
    [getTime()] is NaN); [numberToString] is [String(n)] on a number;
    [JSON_stringify] is [JSON.stringify]. *)
Class JsRuntime : Type := mkRuntime {
  newDate : string -> option JSDate;
  numberToString : Q -> string;
  JSON_stringify : JsonValue -> string
}.

Definition joinWith (sep : string) (parts : list string) : string :=
  match parts with
  | [] => ""%string
  | p :: rest => fold_left (fun acc x => acc +++ sep +++ x) rest p
  end.

(** The truthiness tested by [if (v)]. *)
Definition truthy (v : JsonValue) : bool :=
  match v with
  | JNull => false
  | JBool b => b
  | JNumber n => negb (Qeq_bool n 0)
  | JString s => negb (String.eqb s "")
  | JArray _ | JObject _ => true
  end.

Section WithRuntime.

Context {rt : JsRuntime}.

(** [String(v)]. *)
Fixpoint jsString (v : JsonValue) : string :=
  match v with
  | JNull => "null"
  | JBool true => "true"
  | JBool false => "false"
  | JNumber n => numberToString n
  | JString s => s
  | JArray items =>
      joinWith ","
        (map (fun item => match item with JNull => ""%string | _ => jsString item end) items)
  | JObject _ => "[object Object]"
  end.

(** ** Dates *)

Definition isWhiteSpace (c : ascii) : bool :=
  existsb (N.eqb (N_of_ascii c)) [9; 10; 11; 12; 13; 32]%N.

Fixpoint trimStart (s : string) : string :=
  match s with
  | EmptyString => EmptyString
  | String c rest => if isWhiteSpace c then trimStart rest else s
  end.

Fixpoint trimEnd (s : string) : string :=
  match s with
  | EmptyString => EmptyString
  | String c rest =>
      let t := trimEnd rest in
      if isWhiteSpace c && String.eqb t "" then EmptyString else String c t
  end.

Definition trim (s : string) : string := trimEnd (trimStart s).

Definition isDigit (c : ascii) : bool :=
  ((48 <=? N_of_ascii c) && (N_of_ascii c <=? 57))%N.

Definition isHyphen (c : ascii) : bool := Ascii.eqb c "-".

(** [/^\d{4}-\d{2}-\d{2}$/.test(s)]. *)
Definition isCanonicalShape (s : string) : bool :=
  match list_ascii_of_string s with
  | [y1; y2; y3; y4; h1; m1; m2; h2; d1; d2] =>
      isDigit y1 && isDigit y2 && isDigit y3 && isDigit y4 && isHyphen h1
      && isDigit m1 && isDigit m2 && isHyphen h2 && isDigit d1 && isDigit d2
  | _ => false
  end.

(** [s.padStart(2, '0')]. *)
Definition padStart2 (s : string) : string :=
  match String.length s with
  | 0%nat => "00" +++ s
  | 1%nat => "0" +++ s
  | _ => s
  end.

Definition isSome {A : Type} (o : option A) : bool :=
  match o with Some _ => true | None => false end.

(** None of the calls inside the [try] throws on a string, so the [catch]
    is never entered. *)
Definition normalizeDate (dateString : string) : string :=
  if String.eqb dateString "" then ""%string
  else
    let cleaned := trim dateString in
    if isCanonicalShape cleaned && isSome (newDate (cleaned +++ "T00:00:00.000Z"))
    then cleaned
    else
      match newDate cleaned with
      | None => ""%string
      | Some date =>
          let year := getFullYear date in
          let month := padStart2 (string_of_Z (getMonth date + 1)) in
          let day := padStart2 (string_of_Z (getDate date)) in
          string_of_Z year +++ "-" +++ month +++ "-" +++ day
      end.

(** ** The mapper proper; [dateFields] is the field [this.dateFields] *)

Variable dateFields : list string.

Definition isDateField (columnName : string) : bool :=
  includes dateFields (toLowerCase columnName).

(** [Set.prototype.add] on a set kept in insertion order. *)
Definition setAdd (set : list string) (x : string) : list string :=
  if includes set x then set else set ++ [x].

Definition collectAllFields (records : list JsRecord) : list string :=
  fold_left
    (fun fields record =>
       fold_left
         (fun fields key =>
            if negb (String.eqb key "__rowNumber") then setAdd fields key else fields)
         (map fst record) fields)
    records [].

(** One turn of the [for (const field of newFields)] loop. *)
Definition mergeStep (result : list string) (field : string) : list string :=
  if includes result field then result else result ++ [field].

Definition mergeColumns (existingColumns newFields : list string) : list string :=
  fold_left mergeStep newFields existingColumns.

(** [value] is [record[column]], [None] when the record lacks the field. *)
Definition processFieldValue (value : option JsonValue) (columnName : string) : Cell :=
  match value with
  | None | Some JNull | Some (JString EmptyString) => CText ""
  | Some v =>
      if isDateField columnName then
        let normalized := normalizeDate (jsString v) in
        if String.eqb normalized "" then CText (jsString v) else CText normalized
      else
        match v with
        | JArray _ | JObject _ => CText (JSON_stringify v)
        | JNumber n => CNumber n
        | JBool b => CBool b
        | _ => CText (jsString v)
        end
  end.

Definition recordsToRows (records : list JsRecord) (columns : list string)
  : list (list Cell) :=
  map (fun record =>
         map (fun column => processFieldValue (getField record column) column) columns)
      records.

Definition getRecordDate (record : JsRecord) : string :=
  match
    find (fun field =>
            match getField record field with
            | Some v => truthy v
            | None => false
            end) dateFields
  with
  | Some field =>
      match getField record field with
      | Some v => jsString v
      | None => ""%string
      end
  | None => ""%string
  end.

(** [Array.prototype.sort()] without a comparator, on distinct strings:
    ascending by code units. *)
Fixpoint insertString (x : string) (l : list string) : list string :=
  match l with
  | [] => [x]
  | y :: l' => if String.leb x y then x :: l else y :: insertString x l'
  end.

Definition sortStrings (l : list string) : list string :=
  fold_right insertString [] l.

Definition extractDatesFromRecords (records : list JsRecord) : list string :=
  let dates :=
    fold_left
      (fun dates record =>
         let date := getRecordDate record in
         if String.eqb date "" then dates
         else
           let normalizedDate := normalizeDate date in
           if String.eqb normalizedDate "" then dates else setAdd dates normalizedDate)
      records [] in
  sortStrings dates.

(** A stored row read back: its fields and its 1-based row position. *)
Record ProcessedRecord : Type := mkProcessed {
  data : JsRecord;
  rowNumber : option Z
}.

(** [row.every(cell => !cell || cell.toString().trim() === '')]. *)
Definition isBlankRow (row : list string) : bool :=
  forallb (fun cell => String.eqb cell "" || String.eqb (trim cell) "") row.

(** [row[index] || ''], with one leading apostrophe removed. *)
Definition readCell (row : list string) (index : nat) : string :=
  match nth index row ""%string with
  | String "'" rest => rest
  | cellValue => cellValue
  end.

Definition rowToRecord (row : list string) (headers : list string) : JsRecord :=
  fst (fold_left
         (fun (acc : JsRecord * nat) header =>
            let (record, index) := acc in
            (setField record header (JString (readCell row index)), S index))
         headers ([], 0%nat)).

(** The [for (let i = 1; i < rows.length; i++)] loop, [rest] being
    [rows.slice(i)]. *)
Fixpoint rowsLoop (rest : list (list string)) (i : Z) (headers : list string)
  : list ProcessedRecord :=
  match rest with
  | [] => []
  | row :: rest' =>
      if isBlankRow row then rowsLoop rest' (i + 1) headers
      else {| data := rowToRecord row headers; rowNumber := Some (i + 1)%Z |}
             :: rowsLoop rest' (i + 1) headers
  end.

Definition rowsToRecords (rows : list (list string)) (headers : list string)
  : list ProcessedRecord :=
  rowsLoop (skipn 1 rows) 1 headers.

Definition findDateColumnIndices (columns : list string) : list nat :=
  map fst (filter (fun p => isDateField (snd p))
                  (combine (seq 0 (List.length columns)) columns)).

End WithRuntime.

(** ** What the mapper relies on from [new Date]

    ECMAScript fixes how [Date] reads the Date Time String Format
    ([YYYY-MM-DD], [YYYY-MM-DDTHH:mm:ss.sssZ]): a string of that format
    naming a calendar day is accepted, one with an out-of-bounds month or
    day is an Invalid Date.  Any other string is read by
    implementation-specific rules. *)

Definition digitValue (c : ascii) : Z := (Z.of_N (N_of_ascii c) - 48)%Z.

Definition number2 (a b : ascii) : Z := (10 * digitValue a + digitValue b)%Z.

Definition number4 (a b c d : ascii) : Z :=
  (1000 * digitValue a + 100 * digitValue b + 10 * digitValue c + digitValue d)%Z.

(** Year, month and day written in a string of the canonical shape. *)
Definition canonicalFields (s : string) : Z * Z * Z :=
  match list_ascii_of_string s with
  | [y1; y2; y3; y4; _; m1; m2; _; d1; d2] =>
      (number4 y1 y2 y3 y4, number2 m1 m2, number2 d1 d2)
  | _ => (0, 0, 0)%Z
  end.

Definition isLeapYear (y : Z) : bool :=
  ((y mod 4 =? 0) && negb (y mod 100 =? 0) || (y mod 400 =? 0))%Z.

Definition daysInMonth (y m : Z) : Z :=
  (if (m =? 2) then (if isLeapYear y then 29 else 28)
   else if (m =? 4) || (m =? 6) || (m =? 9) || (m =? 11) then 30
   else 31)%Z.

Definition validCalendarDate (y m d : Z) : bool :=
  ((1 <=? m) && (m <=? 12) && (1 <=? d) && (d <=? daysInMonth y m))%Z.

(** [s] has the canonical shape and names a day of the calendar. *)
Definition isCalendarDate (s : string) : bool :=
  isCanonicalShape s
  && (let '(y, m, d) := canonicalFields s in validCalendarDate y m d).

(** [s] has the canonical shape, but its month is not one of 01..12 or its
    day not one of 01..31. *)
Definition isOutOfBounds (s : string) : bool :=
  isCanonicalShape s
  && (let '(_, m, d) := canonicalFields s in
      negb ((1 <=? m) && (m <=? 12) && (1 <=? d) && (d <=? 31))%Z).

Definition AcceptsCalendarDates (rt : JsRuntime) : Prop :=
  forall s, isCalendarDate s = true -> newDate (s +++ "T00:00:00.000Z") <> None.

Definition RejectsOutOfBounds (rt : JsRuntime) : Prop :=
  forall s, isOutOfBounds s = true ->
    newDate (s +++ "T00:00:00.000Z") = None /\ newDate s = None.

(** *** A runtime to evaluate examples with

    Its [Date] reads the Date Time String Format in its date-only and UTC
    date-time forms and nothing else, and its local time zone is UTC.  It
    prints integers in decimal (the examples print no other number) and
    serialises JSON without escapes inside strings. *)

(** [""], or [THH:mm:ss.sssZ] within bounds. *)
Definition isUtcTimeSuffix (s : string) : bool :=
  match list_ascii_of_string s with
  | [] => true
  | [t; h1; h2; c1; m1; m2; c2; s1; s2; dot; f1; f2; f3; z] =>
      Ascii.eqb t "T" && isDigit h1 && isDigit h2 && Ascii.eqb c1 ":"
      && isDigit m1 && isDigit m2 && Ascii.eqb c2 ":" && isDigit s1 && isDigit s2
      && Ascii.eqb dot "." && isDigit f1 && isDigit f2 && isDigit f3 && Ascii.eqb z "Z"
      && (number2 h1 h2 <=? 23)%Z && (number2 m1 m2 <=? 59)%Z
      && (number2 s1 s2 <=? 59)%Z
  | _ => false
  end.

Definition isoDate (s : string) : option JSDate :=
  let day := String.substring 0 10 s in
  let time := String.substring 10 (String.length s - 10) s in
  if isCalendarDate day && isUtcTimeSuffix time then
    let '(y, m, d) := canonicalFields day in
    Some {| getFullYear := y; getMonth := (m - 1)%Z; getDate := d |}
  else None.

Definition integerToString (n : Q) : string :=
  if (Z.pos (Qden n) =? 1)%Z then string_of_Z (Qnum n) else "NaN"%string.

Definition quote : string := String (ascii_of_N 34) EmptyString.

Fixpoint plainJson (v : JsonValue) : string :=
  match v with
  | JNull => "null"
  | JBool true => "true"
  | JBool false => "false"
  | JNumber n => integerToString n
  | JString s => quote +++ s +++ quote
  | JArray items => "[" +++ joinWith "," (map plainJson items) +++ "]"
  | JObject members =>
      "{" +++ joinWith ","
                (map (fun kv => quote +++ fst kv +++ quote +++ ":" +++ plainJson (snd kv))
                     members)
          +++ "}"
  end.

Definition isoRuntime : JsRuntime :=
  {| newDate := isoDate; numberToString := integerToString; JSON_stringify := plainJson |}.

(** The string has an ASCII capital letter in it. *)
Fixpoint hasUpperCase (s : string) : bool :=
  match s with
  | EmptyString => false
  | String c rest =>
      ((65 <=? N_of_ascii c) && (N_of_ascii c <=? 90))%N || hasUpperCase rest
  end.

(** ** groupConsecutiveRanges *)

(** [{start: number, end: number}]; [end] is reserved in Rocq. *)
Record SheetRange : Type := mkRange { start : Z; end_ : Z }.

(** [[...numbers].sort((a, b) => b - a)]: insertion into a descending list. *)
Fixpoint insert_desc (x : Z) (l : list Z) : list Z :=
  match l with
  | [] => [x]
  | y :: l' => if (y <? x)%Z then x :: l else y :: insert_desc x l'
  end.

Definition sort_desc (numbers : list Z) : list Z :=
  fold_right insert_desc [] numbers.

(** The [for (let i = 1; ...)] loop. The locals keep the source's names:
    [start] is the first (largest) position of the current run, [end] the
    last one seen, and a finished run is pushed as [{start: end, end: start}]. *)
Fixpoint groupLoop (start end' : Z) (rest : list Z) (ranges : list SheetRange)
  : list SheetRange :=
  match rest with
  | [] => ranges ++ [mkRange end' start]
  | x :: rest' =>
      if (x =? end' - 1)%Z
      then groupLoop start x rest' ranges
      else groupLoop x x rest' (ranges ++ [mkRange end' start])
  end.

Definition groupConsecutiveRanges (numbers : list Z) : list SheetRange :=
  if (List.length numbers =? 0)%nat then []
  else
    let sorted := sort_desc numbers in
    let first := nth 0 sorted 0%Z in
    groupLoop first first (skipn 1 sorted) [].

(** A position lies in a range (inclusive on both sides). *)
Definition inRange (z : Z) (r : SheetRange) : Prop :=
  (start r <= z <= end_ r)%Z.

(** The union of the ranges, as a predicate on positions. *)
Definition covered (ranges : list SheetRange) (z : Z) : Prop :=
  exists r, In r ranges /\ inRange z r.

(** Two ranges share no position. *)
Definition disjoint (a b : SheetRange) : Prop :=
  forall z, ~ (inRange z a /\ inRange z b).

(** Ranges at different indices of the list are disjoint. *)
Definition pairwiseDisjoint (ranges : list SheetRange) : Prop :=
  forall i j a b, i <> j ->
    nth_error ranges i = Some a -> nth_error ranges j = Some b -> disjoint a b.

(** [b] lies wholly below [a]. *)
Definition below (a b : SheetRange) : Prop := (end_ b < start a)%Z.

(** Emitted in descending order: every later range lies below every
    earlier one. *)
Definition descendingRanges (ranges : list SheetRange) : Prop :=
  StronglySorted below ranges.

End Mapper.

(** * The writer (class GoogleSheetsWriter) *)
Module Writer.

Import Mapper.

Record WriteStats : Type := mkStats {
  totalRecords : Z;
  newRecords : Z;
  updatedRecords : Z;
  deletedRecords : Z;
  newColumns : list string
}.

Inductive ValueInputOption : Type := RAW | USER_ENTERED.

(** The methods of [SheetService] the writer can call, with their arguments. *)
Inductive StoreCall : Type :=
| GetAllData
| DeleteRows (rowRanges : list SheetRange)
| AppendRows (rows : list (list Cell)) (valueInputOption : ValueInputOption)
| ReplaceAllData (rows : list (list Cell)) (columnCount : nat)
| AddColumns (columns : list string) (startColumn : nat)
| FormatDateColumns (dateColumnIndices : list nat)
| GetAvailableRows
| AddRowsToSheet (rowsToAdd : Z)
| WriteMessage (text : string).


(** The JSON written into the lock file. *)
Record LockData : Type := mkLockData {
  pid : Z;
  timestamp : Z;
  sheet : string
}.

Record LockFile : Type := mkLockFile {
  mtime : Z;
  contents : LockData
}.

(** The [fs] calls made on the lock file's path. *)
Inductive FsCall : Type :=
| FsAccess
| FsStat
| FsUnlink
| FsWriteFile (lockData : LockData).

(** Everything outside the process that a run reads or changes.  The
    remote sheet answers the reads from [snapshot] and [rowCount] (0 when
    the count cannot be read); [rejects c] is the error with which the
    call [c] fails after its retries, if it does.  The lock file's
    operations fail only through the file's absence.  [storeCalls] and
    [fsCalls] record the calls made, oldest first. *)
Record World : Type := mkWorld {
  now : Z;
  processPid : Z;
  lockFile : option LockFile;
  batch : JsError + list JsRecord;
  snapshot : JsError + list (list string);
  rowCount : Z;
  rejects : StoreCall -> option JsError;
  storeCalls : list StoreCall;
  fsCalls : list FsCall
}.

Definition withLockFile (f : option LockFile) (w : World) : World :=
  {| now := now w; processPid := processPid w; lockFile := f; batch := batch w;
     snapshot := snapshot w; rowCount := rowCount w; rejects := rejects w;
     storeCalls := storeCalls w; fsCalls := fsCalls w |}.

Definition logStore (c : StoreCall) (w : World) : World :=
  {| now := now w; processPid := processPid w; lockFile := lockFile w; batch := batch w;
     snapshot := snapshot w; rowCount := rowCount w; rejects := rejects w;
     storeCalls := storeCalls w ++ [c]; fsCalls := fsCalls w |}.

Definition logFs (c : FsCall) (w : World) : World :=
  {| now := now w; processPid := processPid w; lockFile := lockFile w; batch := batch w;
     snapshot := snapshot w; rowCount := rowCount w; rejects := rejects w;
     storeCalls := storeCalls w; fsCalls := fsCalls w ++ [c] |}.

(** ** Asynchronous code as state passing with exceptions *)

Definition M (A : Type) : Type := World -> World * (JsError + A).

Definition ret {A : Type} (a : A) : M A := fun w => (w, inr a).

Definition throw {A : Type} (e : JsError) : M A := fun w => (w, inl e).

Definition bind {A B : Type} (m : M A) (k : A -> M B) : M B :=
  fun w =>
    match m w with
    | (w', inl e) => (w', inl e)
    | (w', inr a) => k a w'
    end.

(** [try { body } finally { cleanup }]: the cleanup runs on both exits, and
    an error it raises replaces the body's outcome. *)
Definition tryFinally {A : Type} (body : M A) (cleanup : M unit) : M A :=
  fun w =>
    match body w with
    | (w1, r) =>
        match cleanup w1 with
        | (w2, inl e) => (w2, inl e)
        | (w2, inr _) => (w2, r)
        end
    end.

Notation "x <- m ;; k" := (bind m (fun x => k))
  (at level 61, m at next level, right associativity).
Notation "m ;; k" := (bind m (fun _ => k))
  (at level 61, right associativity).

(** A store method whose failure reaches the caller. *)
Definition call (c : StoreCall) : M unit :=
  fun w =>
    match rejects w c with
    | Some e => (logStore c w, inl e)
    | None => (logStore c w, inr tt)
    end.

(** A store method that catches and logs its own failures
    ([deleteRows], [formatDateColumns], [addRowsToSheet]). *)
Definition callQuiet (c : StoreCall) : M unit :=
  fun w => (logStore c w, inr tt).

Definition getAllData : M (list (list string)) :=
  fun w => (logStore GetAllData w, snapshot w).

Definition getAvailableRows : M Z :=
  fun w => (logStore GetAvailableRows w, inr (rowCount w)).

(** [Math.round(ms / 1000)] on an integer: halves round up. *)
Definition roundSeconds (ms : Z) : Z := ((ms + 500) / 1000)%Z.

Section WithConfig.

Context {rt : JsRuntime}.

(** The fields of [this]; [dateFields] is the mapper's. *)
Variable fullRefresh : bool.
Variable dryRun : bool.
Variable lockFilePath : string.
Variable sheetName : string.
Variable dateFields : list string.

Definition contention (lockAge : Z) : JsError :=
  newError ("Another writer process is running (lock age: "
            +++ string_of_Z (roundSeconds lockAge)
            +++ "s). Please wait or remove " +++ lockFilePath).

(** [fs.writeFile(this.lockFile, JSON.stringify(lockData, null, 2))]. *)
Definition writeLock : M unit :=
  fun w =>
    let lockData := {| pid := processPid w; timestamp := now w; sheet := sheetName |} in
    (withLockFile (Some {| mtime := now w; contents := lockData |})
                  (logFs (FsWriteFile lockData) w),
     inr tt).

(** When the file is absent [fs.access] rejects with ENOENT, which the
    [catch] swallows; the contention error has no [code] and is thrown on. *)
Definition acquireLock : M unit :=
  fun w =>
    let w1 := logFs FsAccess w in
    match lockFile w1 with
    | None => writeLock w1
    | Some file =>
        let w2 := logFs FsStat w1 in
        let lockAge := (now w2 - mtime file)%Z in
        if (lockAge >? 30 * 60 * 1000)%Z
        then writeLock (withLockFile None (logFs FsUnlink w2))
        else (w2, inl (contention lockAge))
    end.

(** A failing [unlink] is logged, not raised. *)
Definition releaseLock : M unit :=
  fun w => (withLockFile None (logFs FsUnlink w), inr tt).

Definition loadData : M (list JsRecord) := fun w => (w, batch w).

Definition whenM (b : bool) (m : M unit) : M unit := if b then m else ret tt.

Definition performFullRefresh (newRecords : list JsRecord) : M WriteStats :=
  let allColumns := collectAllFields newRecords in
  let dataRows := recordsToRows dateFields newRecords allColumns in
  let allData := map CText allColumns :: dataRows in
  whenM (negb dryRun)
    (call (ReplaceAllData allData (List.length allColumns)) ;;
     let dateColumnIndices := findDateColumnIndices dateFields allColumns in
     whenM (0 <? List.length dateColumnIndices)%nat
           (callQuiet (FormatDateColumns dateColumnIndices))) ;;
  ret {| totalRecords := Z.of_nat (List.length newRecords);
         newRecords := Z.of_nat (List.length newRecords);
         updatedRecords := 0;
         deletedRecords := 0;
         newColumns := allColumns |}.

Definition findRowsToDelete (existingRecords : list ProcessedRecord)
    (datesToUpdate : list string) : list Z :=
  sort_desc
    (flat_map
       (fun record =>
          let rawDate := getRecordDate dateFields (data record) in
          let normalizedDate := normalizeDate rawDate in
          match rowNumber record with
          | Some n =>
              if includes datesToUpdate normalizedDate && negb (n =? 0)%Z
              then [n] else []
          | None => []
          end)
       existingRecords).

Definition performIncrementalUpdate (newRecords : list JsRecord) : M WriteStats :=
  existingData <- getAllData ;;
  if (List.length existingData =? 0)%nat then performFullRefresh newRecords
  else
    let existingHeaders := nth 0%nat existingData [] in
    let existingRecords := rowsToRecords existingData existingHeaders in
    let datesToUpdate := extractDatesFromRecords dateFields newRecords in
    let rowsToDelete := findRowsToDelete existingRecords datesToUpdate in
    whenM ((0 <? List.length rowsToDelete)%nat && negb dryRun)
          (callQuiet (DeleteRows (groupConsecutiveRanges rowsToDelete))) ;;
    let deletedCount := Z.of_nat (List.length rowsToDelete) in
    let newFields := collectAllFields newRecords in
    let finalColumns := mergeColumns existingHeaders newFields in
    let newColumns :=
      filter (fun col => negb (includes existingHeaders col)) finalColumns in
    whenM ((0 <? List.length newColumns)%nat && negb dryRun)
          (call (AddColumns newColumns (List.length existingHeaders))) ;;
    let currentDataRows := (Z.of_nat (List.length existingRecords) - deletedCount)%Z in
    let requiredRows := (currentDataRows + Z.of_nat (List.length newRecords) + 1)%Z in
    whenM (negb dryRun)
          (availableRows <- getAvailableRows ;;
           whenM ((requiredRows >? availableRows)%Z || (availableRows =? 0)%Z)
                 (callQuiet (AddRowsToSheet 5000))) ;;
    whenM ((0 <? List.length newRecords)%nat && negb dryRun)
          (call (AppendRows (recordsToRows dateFields newRecords finalColumns)
                            USER_ENTERED) ;;
           let dateColumnIndices := findDateColumnIndices dateFields finalColumns in
           whenM (0 <? List.length dateColumnIndices)%nat
                 (callQuiet (FormatDateColumns dateColumnIndices))) ;;
    ret {| totalRecords := currentDataRows + Z.of_nat (List.length newRecords);
           newRecords := Z.of_nat (List.length newRecords);
           updatedRecords := 0;
           deletedRecords := deletedCount;
           newColumns := newColumns |}.

Definition noData : JsError := newError "❌ No data to write".

Definition writeData : M WriteStats :=
  whenM (negb dryRun) acquireLock ;;
  tryFinally
    (newRecords <- loadData ;;
     if (List.length newRecords =? 0)%nat then throw noData
     else if fullRefresh then performFullRefresh newRecords
     else performIncrementalUpdate newRecords)
    (whenM (negb dryRun) releaseLock).

End WithConfig.

(** [m] run from [w] returns the value [a]. *)
Definition returns {A : Type} (m : M A) (w : World) (a : A) : Prop :=
  exists w', m w = (w', inr a).


(** The test [findRowsToDelete] makes on the stored row at position [p]
    of the grid. *)
Definition staleAt {rt : JsRuntime} (dateFields : list string)
    (grid : list (list string)) (headers dates : list string) (p : Z) : bool :=
  includes dates
    (normalizeDate
       (getRecordDate dateFields
          (rowToRecord (nth (Z.to_nat (p - 1)) grid []) headers)))
  && negb (p =? 0)%Z.

(** The store calls an incremental update of a non-empty sheet can make
    after its snapshot read, in the order of the source. *)
Definition incrementalPlan {rt : JsRuntime} (dateFields : list string)
    (records : list JsRecord) (grid : list (list string)) : list StoreCall :=
  let existingHeaders := nth 0%nat grid [] in
  let rowsToDelete :=
    findRowsToDelete dateFields (rowsToRecords grid existingHeaders)
      (extractDatesFromRecords dateFields records) in
  let finalColumns := mergeColumns existingHeaders (collectAllFields records) in
  [DeleteRows (groupConsecutiveRanges rowsToDelete);
   AddColumns (filter (fun col => negb (includes existingHeaders col)) finalColumns)
              (List.length existingHeaders);
   GetAvailableRows;
   AddRowsToSheet 5000;
   AppendRows (recordsToRows dateFields records finalColumns) USER_ENTERED;
   FormatDateColumns (findDateColumnIndices dateFields finalColumns)].

(** ** Worlds to evaluate examples in *)

Definition exampleRecord : JsRecord :=
  [("date"%string, JString "2024-01-01"); ("clicks"%string, JNumber 7)].

Definition exampleGrid : list (list string) :=
  [["date"; "clicks"]; ["2023-12-31"; "2"]; []; ["2024-01-01"; "3"];
   ["'2024-01-01"; "4"]; ["2024-01-02"; "5"]]%string.

(** A world whose clock reads [1000000000] ms, with the given batch,
    sheet contents and lock file, in which no store call fails. *)
Definition exampleWorld (records : list JsRecord) (grid : list (list string))
    (lock : option LockFile) : World :=
  {| now := 1000000000; processPid := 4242; lockFile := lock;
     batch := inr records; snapshot := inr grid; rowCount := 1000;
     rejects := fun _ => None; storeCalls := []; fsCalls := [] |}.

(** A lock file written [minutes] minutes before the example clock. *)
Definition lockAgedMinutes (minutes : Z) : LockFile :=
  {| mtime := 1000000000 - minutes * 60 * 1000;
     contents := {| pid := 17; timestamp := 1000000000 - minutes * 60 * 1000;
                    sheet := "Sheet1" |} |}.

End Writer.

(** * The sheet service (sheets/service.ts): its pure parts *)
Module Service.

Import Mapper.

(** ** numberToColumnLetter *)

(** The [while (columnNumber > 0)] loop; [fuel] bounds the number of
    turns, and [columnNumber] turns are always enough. *)
Fixpoint columnLetterLoop (fuel : nat) (columnNumber : Z) (result : string) : string :=
  match fuel with
  | O => result
  | S fuel' =>
      if (columnNumber >? 0)%Z then
        let columnNumber := (columnNumber - 1)%Z in
        columnLetterLoop fuel' (columnNumber / 26)%Z
          (String (ascii_of_N (Z.to_N (65 + columnNumber mod 26))) result)
      else result
  end.

Definition numberToColumnLetter (columnNumber : Z) : string :=
  columnLetterLoop (Z.to_nat columnNumber) columnNumber "".

Definition isColumnLetter (c : ascii) : bool :=
  ((65 <=? N_of_ascii c) && (N_of_ascii c <=? 90))%N.

Fixpoint allColumnLetters (s : string) : bool :=
  match s with
  | EmptyString => true
  | String c rest => isColumnLetter c && allColumnLetters rest
  end.

(** How a spreadsheet reads a column label back: [A] is 1, [Z] is 26 and
    each further letter to the right counts 26 times less. *)
Fixpoint columnLetterValue (acc : Z) (label : string) : Z :=
  match label with
  | EmptyString => acc
  | String c rest =>
      columnLetterValue (acc * 26 + (Z.of_N (N_of_ascii c) - 64))%Z rest
  end.

Definition columnLetterToNumber (label : string) : Z := columnLetterValue 0 label.

(** ** deleteRows *)

(** The [range] of a [deleteDimension] request on rows: 0-based, the end
    not included. *)
Record DeleteDimension : Type := mkDelete {
  startIndex : Z;
  endIndex : Z
}.

(** [[...rowRanges].sort((a, b) => b.start - a.start)]: a stable insertion
    by descending [start]. *)
Fixpoint insertRange (r : SheetRange) (sorted : list SheetRange) : list SheetRange :=
  match sorted with
  | [] => [r]
  | y :: rest => if (start r <? start y)%Z then y :: insertRange r rest else r :: sorted
  end.

Definition sortRanges (rowRanges : list SheetRange) : list SheetRange :=
  fold_right insertRange [] rowRanges.

Definition deleteRequest (range : SheetRange) : DeleteDimension :=
  {| startIndex := start range - 1; endIndex := end_ range |}.

(** The requests [deleteRows] sends, in the order it sends them, one per
    range and each awaited before the next. *)
Definition deleteRowsRequests (rowRanges : list SheetRange) : list DeleteDimension :=
  map deleteRequest (sortRanges rowRanges).

(** What the Sheets API does with a [deleteDimension] request on rows: the
    rows of index [startIndex] up to, not including, [endIndex] go and the
    rows below move up. *)
Definition deleteDimension {A : Type} (request : DeleteDimension) (rows : list A)
  : list A :=
  firstn (Z.to_nat (startIndex request)) rows ++ skipn (Z.to_nat (endIndex request)) rows.

(** The sheet after [deleteRows]: a request that fails after its retries
    is logged and the loop goes on with the next range. *)
Definition deleteRows {A : Type} (fails : DeleteDimension -> bool)
    (rowRanges : list SheetRange) (rows : list A) : list A :=
  fold_left
    (fun rows request => if fails request then rows else deleteDimension request rows)
    (deleteRowsRequests rowRanges) rows.

Definition inRangeb (position : Z) (r : SheetRange) : bool :=
  ((start r <=? position) && (position <=? end_ r))%Z.

(** [rows] without the rows whose 1-based position is marked, [position]
    being the position of the first of them. *)
Fixpoint dropRows {A : Type} (marked : Z -> bool) (position : Z) (rows : list A)
  : list A :=
  match rows with
  | [] => []
  | row :: rest =>
      if marked position then dropRows marked (position + 1) rest
      else row :: dropRows marked (position + 1) rest
  end.

Definition rowsWithout {A : Type} (positions : list Z) (rows : list A) : list A :=
  dropRows (fun position => existsb (Z.eqb position) positions) 1 rows.

End Service.

(** * The first version of the writer (src/index.ts) *)
Module Legacy.

Import Mapper.

(** The calls of [sheets.spreadsheets.values] the script makes, with the
    range, the input option and the values they carry. *)
Inductive ApiCall : Type :=
| ValuesUpdate (range : string) (valueInputOption : Writer.ValueInputOption)
    (values : list (list string))
| ValuesClear (range : string)
| ValuesGet (range : string)
| ValuesAppend (range : string) (valueInputOption : Writer.ValueInputOption)
    (values : list (list string)).

(** [Array.prototype.indexOf]; [None] is -1. *)
Fixpoint indexOf (l : list string) (x : string) : option nat :=
  match l with
  | [] => None
  | y :: rest => if String.eqb y x then Some 0%nat else option_map S (indexOf rest x)
  end.

Section WithEnvironment.

Context {rt : JsRuntime}.

(** [process.env.SHEET_NAME], [process.env.FULL_REFRESH === 'true'], and
    [new Date().toISOString().slice(0, 10)]. *)
Variable sheetName : string.
Variable full : bool.
Variable today : string.

(** Whether the call rejects. *)
Variable fails : ApiCall -> bool.

(** [await call; rest]: the calls issued. *)
Definition await (c : ApiCall) (rest : list ApiCall) : list ApiCall :=
  c :: (if fails c then [] else rest).

Definition headersOf (records : list JsRecord) : list string :=
  map fst (hd [] records).

(** [r[h] === undefined ? '' : String(r[h])]. *)
Definition cellOf (r : JsRecord) (h : string) : string :=
  match getField r h with
  | None => ""%string
  | Some v => jsString v
  end.

Definition valuesOf (records : list JsRecord) : list (list string) :=
  map (fun r => map (cellOf r) (headersOf records)) records.

Definition dateColumn (headers : list string) : nat :=
  match indexOf headers "date" with
  | Some i => i
  | None => 0%nat
  end.

Definition rowRange (rowNumber : nat) : string :=
  sheetName +++ "!A" +++ string_of_nat rowNumber +++ ":Z" +++ string_of_nat rowNumber.

(** [rows[i][dateCol] === today]. *)
Definition isToday (dateCol : nat) (row : list string) : bool :=
  match nth_error row dateCol with
  | Some cell => String.eqb cell today
  | None => false
  end.

(** The loop [for (let i = ...; i < rows.length; i++)], on the rows from
    index [i] on: the row numbers whose clear it pushes. *)
Fixpoint clearLoop (dateCol : nat) (i : nat) (rows : list (list string)) : list nat :=
  match rows with
  | [] => []
  | row :: rest =>
      (if isToday dateCol row then [(i + 1)%nat] else [])
      ++ clearLoop dateCol (S i) rest
  end.

(** The calls [main] issues, in order, on the parsed [records] when the
    sheet reads as [existing]; the clears are all issued before
    [Promise.all] awaits them. *)
Definition main (records : list JsRecord) (existing : list (list string))
    : list ApiCall :=
  if (List.length records =? 0)%nat
  then [ValuesUpdate (sheetName +++ "!A1") Writer.RAW [["there is no data"%string]]]
  else
    let headers := headersOf records in
    let values := valuesOf records in
    if full
    then
      await (ValuesClear (sheetName +++ "!A:Z"))
        [ValuesUpdate (sheetName +++ "!A1") Writer.RAW (headers :: values)]
    else
      let dateCol := dateColumn headers in
      await (ValuesGet sheetName)
        (let clears :=
           map (fun rowNumber => ValuesClear (rowRange rowNumber))
               (clearLoop dateCol 1 (skipn 1 existing)) in
         clears
         ++ (if existsb fails clears then []
             else [ValuesAppend sheetName Writer.RAW values])).

End WithEnvironment.

End Legacy.

(** * Theorems *)

#[local] Hint Constructors Subseq : core.

Lemma includes_In (l : list string) (s : string) :
  includes l s = true <-> In s l.
Proof.
  unfold includes. rewrite existsb_exists. split.
  - intros [x [Hin Heq]]. apply String.eqb_eq in Heq. now subst.
  - intros Hin. exists s. split; [assumption | apply String.eqb_refl].
Qed.

Lemma includes_not_In (l : list string) (s : string) :
  includes l s = false <-> ~ In s l.
Proof.
  rewrite <- includes_In. destruct (includes l s); split; intuition congruence.
Qed.

Lemma NoDup_append {A : Type} (l1 l2 : list A) :
  NoDup l1 -> NoDup l2 -> (forall x, In x l1 -> ~ In x l2) -> NoDup (l1 ++ l2).
Proof.
  induction l1 as [| a l1 IH]; simpl; intros H1 H2 Hd; [assumption |].
  inversion H1 as [| ? ? Ha Hl1]; subst. constructor.
  - rewrite in_app_iff. intros [Hin | Hin]; [contradiction |].
    apply (Hd a); [now left | assumption].
  - apply IH; auto.
Qed.

(** ** mergeColumns *)

Section MergeColumns.

Import Mapper.

(** The loop only ever pushes: whatever it starts from stays in front, and
    the part pushed is the sequence of fresh fields, each once. *)
Lemma mergeColumns_appends (newFields existing : list string) :
  exists appended,
    mergeColumns existing newFields = existing ++ appended
    /\ Subseq appended newFields
    /\ NoDup appended
    /\ (forall f, In f appended <-> In f newFields /\ ~ In f existing).
Proof.
  unfold mergeColumns.
  revert existing. induction newFields as [| field rest IH]; intros existing; simpl.
  - exists []. rewrite app_nil_r.
    split; [reflexivity |]. split; [constructor |]. split; [constructor |].
    simpl. tauto.
  - unfold mergeStep at 2. destruct (includes existing field) eqn:Hinc.
    + apply includes_In in Hinc.
      destruct (IH existing) as (app & Heq & Hsub & Hnd & Hin).
      exists app.
      split; [assumption |]. split; [auto |]. split; [assumption |].
      intros f. rewrite Hin. split.
      * tauto.
      * intros [[-> | Hf] Hn]; [contradiction | tauto].
    + apply includes_not_In in Hinc.
      destruct (IH (existing ++ [field])) as (app & Heq & Hsub & Hnd & Hin).
      exists (field :: app). rewrite Heq, <- app_assoc. simpl.
      split; [reflexivity |]. split; [auto |]. split.
      * constructor; [| assumption].
        rewrite Hin. intros [_ Hf]. apply Hf. apply in_or_app. right. now left.
      * intros f. rewrite Hin, in_app_iff. simpl. split.
        -- intros [-> | [Hf Hn]]; [tauto |]. tauto.
        -- intros [[-> | Hf] Hn]; [now left |].
           destruct (string_dec field f) as [-> | Hne]; [now left |].
           right. split; [assumption |]. intros [Hf' | [Hf' | []]]; auto.
Qed.

(** The example of the specification. *)
Lemma mergeColumns_example :
  mergeColumns ["a"; "b"]%string ["b"; "c"]%string = ["a"; "b"; "c"]%string.
Proof. reflexivity. Qed.

(** C5, as stated, fails: duplicates already among the existing columns
    are kept. *)
Lemma mergeColumns_keeps_existing_duplicates :
  mergeColumns ["a"; "a"]%string [] = ["a"; "a"]%string
  /\ ~ NoDup (mergeColumns ["a"; "a"]%string []).
Proof.
  split; [reflexivity |].
  simpl. intros H. inversion H as [| x l Hnin _]; subst. apply Hnin. now left.
Qed.

(** C5 (amended): [mergeColumns ["a","b"] ["b","c"]] is [["a","b","c"]],
    and for every pair the result is [existing] followed by the incoming
    fields that [existing] lacks, in their order of first appearance and
    each once: every existing column keeps its position and none is
    removed.  The result has no duplicates whenever [existing] has none. *)
Theorem mergeColumns_spec :
  mergeColumns ["a"; "b"]%string ["b"; "c"]%string = ["a"; "b"; "c"]%string
  /\ forall existing incoming,
       exists appended,
         mergeColumns existing incoming = existing ++ appended
         /\ (forall i column, nth_error existing i = Some column ->
               nth_error (mergeColumns existing incoming) i = Some column)
         /\ Subseq appended incoming
         /\ (forall f, In f appended <-> In f incoming /\ ~ In f existing)
         /\ NoDup appended
         /\ (NoDup existing -> NoDup (mergeColumns existing incoming)).
Proof.
  split; [reflexivity |]. intros existing incoming.
  destruct (mergeColumns_appends incoming existing) as (app & Heq & Hsub & Hnd & Hin).
  exists app. rewrite Heq.
  split; [reflexivity |]. split.
  { intros i column Hi. rewrite nth_error_app1; [assumption |].
    apply nth_error_Some. congruence. }
  split; [assumption |]. split; [assumption |]. split; [assumption |].
  intros Hexisting. apply NoDup_append; try assumption.
  intros x Hx Happ. apply Hin in Happ. tauto.
Qed.

(** C5 at the specification's example. *)
Lemma mergeColumns_spec_witness :
  NoDup ["a"; "b"]%string
  /\ mergeColumns ["a"; "b"]%string ["b"; "c"]%string
     = ["a"; "b"]%string ++ ["c"]%string
  /\ NoDup (mergeColumns ["a"; "b"]%string ["b"; "c"]%string).
Proof.
  assert (Hnd : NoDup ["a"; "b"]%string).
  { constructor.
    - simpl. intros [H | []]. discriminate H.
    - constructor; [simpl; tauto | constructor]. }
  split; [exact Hnd |]. split; [reflexivity |].
  destruct (proj2 mergeColumns_spec ["a"; "b"]%string ["b"; "c"]%string)
    as (appended & _ & _ & _ & _ & _ & Hres).
  exact (Hres Hnd).
Defined.

End MergeColumns.
(** ** groupConsecutiveRanges *)

Section GroupConsecutiveRanges.

Import Mapper.

Open Scope Z_scope.

(** *** The descending sort *)

Lemma insert_desc_perm (x : Z) (l : list Z) :
  Permutation (x :: l) (insert_desc x l).
Proof.
  induction l as [| y l IH]; simpl; [reflexivity |].
  destruct (y <? x); [reflexivity |].
  rewrite perm_swap. now constructor.
Qed.

Lemma sort_desc_perm (l : list Z) : Permutation l (sort_desc l).
Proof.
  induction l as [| x l IH]; simpl; [constructor |].
  rewrite <- insert_desc_perm. now constructor.
Qed.

Lemma insert_desc_sorted (x : Z) (l : list Z) :
  StronglySorted Z.ge l -> StronglySorted Z.ge (insert_desc x l).
Proof.
  induction 1 as [| y l Hs IH Hall]; simpl.
  - repeat constructor.
  - destruct (y <? x) eqn:Hlt.
    + apply Z.ltb_lt in Hlt. constructor; [now constructor |].
      constructor; [lia |].
      eapply Forall_impl; [| exact Hall]. simpl. intros; lia.
    + apply Z.ltb_ge in Hlt. constructor; [assumption |].
      apply (Permutation_Forall (insert_desc_perm x l)).
      constructor; [lia | assumption].
Qed.

Lemma sort_desc_sorted (l : list Z) : StronglySorted Z.ge (sort_desc l).
Proof.
  induction l as [| x l IH]; simpl; [constructor | now apply insert_desc_sorted].
Qed.

(** A comparator sort has one possible outcome on integers: the descending
    arrangement of the input, whatever algorithm the engine runs. *)
Lemma descending_unique (l1 l2 : list Z) :
  StronglySorted Z.ge l1 -> StronglySorted Z.ge l2 -> Permutation l1 l2 -> l1 = l2.
Proof.
  intros H1. revert l2. induction H1 as [| a l1 Hs1 IH Ha]; intros l2 H2 Hp.
  - apply Permutation_nil in Hp. now subst.
  - destruct H2 as [| b l2 Hs2 Hb].
    + apply Permutation_sym, Permutation_nil in Hp. discriminate.
    + assert (a = b) as ->.
      { assert (Hab : In a (b :: l2)) by (apply (Permutation_in _ Hp); now left).
        assert (Hba : In b (a :: l1))
          by (apply (Permutation_in _ (Permutation_sym Hp)); now left).
        rewrite Forall_forall in Ha, Hb.
        destruct Hab as [-> | Hab]; [reflexivity |].
        destruct Hba as [-> | Hba]; [reflexivity |].
        specialize (Ha _ Hba). specialize (Hb _ Hab). lia. }
      f_equal. apply IH; [assumption |]. now apply Permutation_cons_inv in Hp.
Qed.

Lemma sort_desc_unique (l sorted : list Z) :
  Permutation l sorted -> StronglySorted Z.ge sorted -> sorted = sort_desc l.
Proof.
  intros Hp Hs. apply descending_unique; [assumption | apply sort_desc_sorted |].
  rewrite <- Hp. apply sort_desc_perm.
Qed.

Lemma descending_NoDup_strict (l : list Z) :
  StronglySorted Z.ge l -> NoDup l -> StronglySorted Z.gt l.
Proof.
  induction 1 as [| a l Hs IH Ha]; intros Hnd; [constructor |].
  inversion Hnd as [| ? ? Hnin Hnd']; subst.
  constructor; [auto |].
  rewrite Forall_forall in *. intros x Hx. specialize (Ha x Hx).
  assert (x <> a) by (intros ->; contradiction). lia.
Qed.

(** *** The grouping loop *)

Lemma groupLoop_acc (rest : list Z) (s e : Z) (acc : list SheetRange) :
  groupLoop s e rest acc = acc ++ groupLoop s e rest [].
Proof.
  revert s e acc. induction rest as [| x rest IH]; intros s e acc; simpl.
  - reflexivity.
  - destruct (x =? e - 1).
    + apply IH.
    + rewrite (IH x x (acc ++ _)), (IH x x [_]), <- app_assoc. reflexivity.
Qed.

Lemma covered_cons (r : SheetRange) (rs : list SheetRange) (z : Z) :
  covered (r :: rs) z <-> inRange z r \/ covered rs z.
Proof.
  unfold covered. simpl. split.
  - intros (r' & [<- | Hin] & Hz); [now left | right; eauto].
  - intros [Hz | (r' & Hin & Hz)]; eauto.
Qed.

Lemma covered_nil (z : Z) : covered [] z <-> False.
Proof. unfold covered. simpl. split; [intros (r & [] & _) | tauto]. Qed.

(** Whatever the order of [rest], the ranges cover the open run and the
    positions still to come, and nothing else. *)
Lemma groupLoop_covered (rest : list Z) (s e z : Z) :
  e <= s ->
  covered (groupLoop s e rest []) z <-> (e <= z <= s) \/ In z rest.
Proof.
  revert s e. induction rest as [| x rest IH]; intros s e Hes; simpl.
  - rewrite covered_cons, covered_nil. unfold inRange. simpl. tauto.
  - destruct (x =? e - 1) eqn:Hx.
    + apply Z.eqb_eq in Hx. rewrite IH by lia.
      assert (x <= z <= s <-> e <= z <= s \/ x = z) by lia. tauto.
    + rewrite groupLoop_acc. simpl. rewrite covered_cons, IH by lia.
      unfold inRange. simpl.
      assert (x <= z <= x <-> x = z) by lia. tauto.
Qed.

(** On a strictly descending input every range is well formed and lies
    below the ones emitted before it. *)
Lemma groupLoop_descending (rest : list Z) (s e : Z) :
  e <= s -> StronglySorted Z.gt (e :: rest) ->
  descendingRanges (groupLoop s e rest [])
  /\ Forall (fun r => start r <= end_ r /\ end_ r <= s) (groupLoop s e rest []).
Proof.
  unfold descendingRanges.
  revert s e. induction rest as [| x rest IH]; intros s e Hes Hs; simpl.
  - split; repeat constructor; simpl; lia.
  - inversion Hs as [| ? ? Hs' Hall]; subst.
    inversion Hall as [| ? ? Hxe Hall']; subst.
    destruct (x =? e - 1) eqn:Hx.
    + apply IH; [lia |].
      inversion Hs' as [| ? ? Hs'' Hall'']; subst. now constructor.
    + rewrite groupLoop_acc. simpl.
      destruct (IH x x (Z.le_refl x) Hs') as [Hd Hw].
      split.
      * constructor; [assumption |].
        eapply Forall_impl; [| exact Hw]. unfold below. simpl. intros r Hr. lia.
      * constructor; [simpl; lia |].
        eapply Forall_impl; [| exact Hw]. simpl. intros r Hr. lia.
Qed.

Lemma descending_pairwiseDisjoint (rs : list SheetRange) :
  descendingRanges rs -> Forall (fun r => start r <= end_ r) rs ->
  pairwiseDisjoint rs.
Proof.
  unfold descendingRanges, pairwiseDisjoint.
  induction 1 as [| r rs Hs IH Hall]; intros Hw i j a b Hij Ha Hb.
  - destruct i; discriminate.
  - inversion Hw as [| ? ? Hr Hw']; subst.
    rewrite Forall_forall in Hall.
    destruct i as [| i], j as [| j]; simpl in Ha, Hb.
    + contradiction.
    + injection Ha as <-. apply nth_error_In in Hb. specialize (Hall _ Hb).
      unfold below, disjoint, inRange in *. intros z. lia.
    + injection Hb as <-. apply nth_error_In in Ha. specialize (Hall _ Ha).
      unfold below, disjoint, inRange in *. intros z. lia.
    + eapply (IH Hw' i j); eauto.
Qed.

(** *** The function *)

Lemma groupConsecutiveRanges_unfold (numbers : list Z) :
  numbers <> [] ->
  exists first rest,
    sort_desc numbers = first :: rest
    /\ groupConsecutiveRanges numbers = groupLoop first first rest [].
Proof.
  intros Hne. unfold groupConsecutiveRanges.
  destruct numbers as [| n numbers]; [contradiction |].
  change (List.length (n :: numbers) =? 0)%nat with false. cbv iota zeta.
  destruct (sort_desc (n :: numbers)) as [| first rest] eqn:Hsort.
  - pose proof (sort_desc_perm (n :: numbers)) as Hp. rewrite Hsort in Hp.
    apply Permutation_sym, Permutation_nil in Hp. discriminate.
  - exists first, rest. split; reflexivity.
Qed.

(** The union of the ranges is the set of input positions, for every input. *)
Lemma groupConsecutiveRanges_covered (numbers : list Z) (z : Z) :
  covered (groupConsecutiveRanges numbers) z <-> In z numbers.
Proof.
  destruct numbers as [| n numbers].
  - unfold groupConsecutiveRanges. simpl. apply covered_nil.
  - destruct (@groupConsecutiveRanges_unfold (n :: numbers)) as (f & r & Hs & ->);
      [discriminate |].
    rewrite groupLoop_covered by lia.
    assert (Hin : In z (n :: numbers) <-> In z (f :: r)).
    { rewrite <- Hs. split; apply Permutation_in;
        [| apply Permutation_sym]; apply sort_desc_perm. }
    rewrite Hin. simpl.
    assert (f <= z <= f <-> f = z) by lia. tauto.
Qed.

(** The examples of the specification. *)
Lemma groupConsecutiveRanges_examples :
  groupConsecutiveRanges [5; 6; 7; 10] = [mkRange 10 10; mkRange 5 7]
  /\ groupConsecutiveRanges [] = [].
Proof. split; reflexivity. Qed.

(** C2, as stated, fails: a position given twice comes out as two equal
    ranges, which overlap. *)
Lemma groupConsecutiveRanges_repeated_position :
  groupConsecutiveRanges [5; 5] = [mkRange 5 5; mkRange 5 5]
  /\ ~ pairwiseDisjoint (groupConsecutiveRanges [5; 5]).
Proof.
  split; [reflexivity |].
  intros H.
  apply (H 0%nat 1%nat (mkRange 5 5) (mkRange 5 5) ltac:(discriminate)
           eq_refl eq_refl 5).
  unfold inRange. simpl. lia.
Qed.

(** C2 (amended): [groupConsecutiveRanges [5,6,7,10]] is
    [[{10,10},{5,7}]], [groupConsecutiveRanges []] is [[]], and for every
    input list the union of the returned ranges is exactly the set of
    input positions; when the positions of the list are pairwise distinct
    the ranges are pairwise disjoint and emitted in descending order. *)
Theorem groupConsecutiveRanges_spec :
  groupConsecutiveRanges [5; 6; 7; 10] = [mkRange 10 10; mkRange 5 7]
  /\ groupConsecutiveRanges [] = []
  /\ forall positions,
       (forall z, covered (groupConsecutiveRanges positions) z <-> In z positions)
       /\ (NoDup positions ->
           pairwiseDisjoint (groupConsecutiveRanges positions)
           /\ descendingRanges (groupConsecutiveRanges positions)).
Proof.
  split; [reflexivity |]. split; [reflexivity |]. intros positions.
  split; [intros z; apply groupConsecutiveRanges_covered |].
  intros Hdistinct.
  destruct positions as [| n numbers].
  - unfold groupConsecutiveRanges, descendingRanges, pairwiseDisjoint. simpl.
    split; [intros [| i] j a b _ Ha; discriminate | constructor].
  - destruct (@groupConsecutiveRanges_unfold (n :: numbers)) as (f & r & Hs & ->);
      [discriminate |].
    assert (Hstrict : StronglySorted Z.gt (f :: r)).
    { rewrite <- Hs. apply descending_NoDup_strict; [apply sort_desc_sorted |].
      apply (Permutation_NoDup (sort_desc_perm _) Hdistinct). }
    destruct (@groupLoop_descending r f f (Z.le_refl f) Hstrict) as [Hd Hw].
    split; [| assumption].
    apply descending_pairwiseDisjoint; [assumption |].
    eapply Forall_impl; [| exact Hw]. simpl. tauto.
Qed.

(** C2 at the specification's example. *)
Lemma groupConsecutiveRanges_spec_witness :
  NoDup [5; 6; 7; 10]
  /\ pairwiseDisjoint (groupConsecutiveRanges [5; 6; 7; 10])
  /\ descendingRanges (groupConsecutiveRanges [5; 6; 7; 10]).
Proof.
  assert (Hnd : NoDup [5; 6; 7; 10]).
  { repeat constructor; simpl; lia. }
  split; [exact Hnd |].
  destruct groupConsecutiveRanges_spec as (_ & _ & Hall).
  exact (proj2 (Hall [5; 6; 7; 10]) Hnd).
Defined.

End GroupConsecutiveRanges.

(** ** The retry executor *)

Section RetryDelay.

Import Retry.

Open Scope Q_scope.

Lemma pow2_ge_1 (attempt : nat) : 1 <= pow2 attempt.
Proof.
  unfold pow2, Qle. simpl.
  assert (0 < 2 ^ Z.of_nat attempt)%Z by (apply Z.pow_pos_nonneg; lia).
  lia.
Qed.

(** The capped exponential term lies between the base and the maximum. *)
Lemma exponentialDelay_bounds (config : RetryConfig) (attempt : nat) :
  0 <= baseDelay config -> baseDelay config <= maxDelay config ->
  baseDelay config <= Qmin (baseDelay config * pow2 attempt) (maxDelay config)
  /\ Qmin (baseDelay config * pow2 attempt) (maxDelay config) <= maxDelay config
  /\ Qmin (baseDelay config * pow2 attempt) (maxDelay config)
     <= baseDelay config * pow2 attempt.
Proof.
  intros Hb Hbm. pose proof (pow2_ge_1 attempt) as Hp.
  split; [| split; [apply Q.le_min_r | apply Q.le_min_l]].
  apply Q.min_glb; [| assumption].
  nra.
Qed.

(** The floor holds after the jitter, the cap before it: the delay is at
    least the base and at most five quarters of the capped term. *)
Lemma calculateRetryDelay_range (config : RetryConfig) (k : nat) (random : Q) :
  0 <= baseDelay config -> baseDelay config <= maxDelay config ->
  0 <= random /\ random < 1 ->
  baseDelay config <= calculateRetryDelay k config random
  /\ calculateRetryDelay k config random
     <= (5 # 4) * Qmin (baseDelay config * pow2 k) (maxDelay config).
Proof.
  intros Hbase Hconfig [Hr0 Hr1]. unfold calculateRetryDelay.
  destruct (exponentialDelay_bounds config k Hbase Hconfig) as (H1 & H2 & H3).
  set (e := Qmin (baseDelay config * pow2 k) (maxDelay config)) in *.
  split; [apply Q.le_max_l |]. apply Q.max_lub; nra.
Qed.

(** C1, as stated, fails: once the exponential term has reached the
    maximum, a positive jitter carries the delay beyond it.  Here five
    retries from 1000 ms capped at 10000 ms, fifth delay ([k = 4]),
    [Math.random()] returning 0.75. *)
Lemma calculateRetryDelay_exceeds_maxDelay :
  (4 <= maxRetries (mkConfig 5 1000 10000))%nat
  /\ baseDelay (mkConfig 5 1000 10000) <= maxDelay (mkConfig 5 1000 10000)
  /\ calculateRetryDelay 4 (mkConfig 5 1000 10000) (3 # 4) == 11250
  /\ ~ calculateRetryDelay 4 (mkConfig 5 1000 10000) (3 # 4)
       <= maxDelay (mkConfig 5 1000 10000).
Proof.
  split; [simpl; lia |]. split; [vm_compute; discriminate |].
  split; [reflexivity |].
  intros H. vm_compute in H. apply H. reflexivity.
Qed.

(** C1 (amended): for every configuration with
    [0 <= baseDelay <= maxDelay], every attempt index [k] and every outcome
    [random] of [Math.random] in [0, 1), the delay lies in
    [[baseDelay, 1.25 * maxDelay]]; it lies in [[baseDelay, maxDelay]]
    whenever the jitter is not positive ([random <= 1/2]) or
    [1.25 * baseDelay * 2^k <= maxDelay]. *)
Theorem calculateRetryDelay_bounds (config : RetryConfig) (k : nat) (random : Q)
    (Hbase : 0 <= baseDelay config)
    (Hconfig : baseDelay config <= maxDelay config)
    (Hrandom : 0 <= random /\ random < 1) :
  baseDelay config <= calculateRetryDelay k config random
  /\ calculateRetryDelay k config random <= (5 # 4) * maxDelay config
  /\ (random <= 1 # 2 -> calculateRetryDelay k config random <= maxDelay config)
  /\ ((5 # 4) * baseDelay config * pow2 k <= maxDelay config ->
      calculateRetryDelay k config random <= maxDelay config).
Proof.
  unfold calculateRetryDelay.
  destruct (exponentialDelay_bounds config k Hbase Hconfig) as (H1 & H2 & H3).
  set (e := Qmin (baseDelay config * pow2 k) (maxDelay config)) in *.
  destruct Hrandom as [Hr0 Hr1].
  split; [apply Q.le_max_l |].
  split; [| split]; intros; apply Q.max_lub; nra.
Qed.

(** C1 at the default configuration, second delay, [Math.random()]
    returning 0.75. *)
Lemma calculateRetryDelay_bounds_witness :
  (0 <= baseDelay DEFAULT_RETRY_CONFIG
   /\ baseDelay DEFAULT_RETRY_CONFIG <= maxDelay DEFAULT_RETRY_CONFIG
   /\ (0 <= 3 # 4 /\ 3 # 4 < 1))
  /\ (baseDelay DEFAULT_RETRY_CONFIG <= calculateRetryDelay 1 DEFAULT_RETRY_CONFIG (3 # 4)
      /\ calculateRetryDelay 1 DEFAULT_RETRY_CONFIG (3 # 4)
         <= (5 # 4) * maxDelay DEFAULT_RETRY_CONFIG
      /\ (3 # 4 <= 1 # 2 ->
          calculateRetryDelay 1 DEFAULT_RETRY_CONFIG (3 # 4)
          <= maxDelay DEFAULT_RETRY_CONFIG)
      /\ ((5 # 4) * baseDelay DEFAULT_RETRY_CONFIG * pow2 1
          <= maxDelay DEFAULT_RETRY_CONFIG ->
          calculateRetryDelay 1 DEFAULT_RETRY_CONFIG (3 # 4)
          <= maxDelay DEFAULT_RETRY_CONFIG)).
Proof.
  assert (Hb : 0 <= baseDelay DEFAULT_RETRY_CONFIG) by (vm_compute; discriminate).
  assert (Hc : baseDelay DEFAULT_RETRY_CONFIG <= maxDelay DEFAULT_RETRY_CONFIG)
    by (vm_compute; discriminate).
  assert (Hr : 0 <= 3 # 4 /\ 3 # 4 < 1) by (split; [vm_compute; discriminate | reflexivity]).
  split; [auto |].
  exact (calculateRetryDelay_bounds DEFAULT_RETRY_CONFIG 1 Hb Hc Hr).
Defined.

(** With the defaults every attempt index up to [maxRetries] keeps the
    delay within [[baseDelay, maxDelay]]. *)
Lemma calculateRetryDelay_default (k : nat) (random : Q) :
  (k <= maxRetries DEFAULT_RETRY_CONFIG)%nat -> 0 <= random /\ random < 1 ->
  baseDelay DEFAULT_RETRY_CONFIG <= calculateRetryDelay k DEFAULT_RETRY_CONFIG random
  /\ calculateRetryDelay k DEFAULT_RETRY_CONFIG random <= maxDelay DEFAULT_RETRY_CONFIG.
Proof.
  intros Hk Hr.
  assert (Hb : 0 <= baseDelay DEFAULT_RETRY_CONFIG) by (vm_compute; discriminate).
  assert (Hc : baseDelay DEFAULT_RETRY_CONFIG <= maxDelay DEFAULT_RETRY_CONFIG)
    by (vm_compute; discriminate).
  destruct (calculateRetryDelay_range DEFAULT_RETRY_CONFIG k Hb Hc Hr) as [Hlo Hhi].
  split; [assumption |].
  eapply Qle_trans; [exact Hhi |].
  assert (Hcap : Qmin (baseDelay DEFAULT_RETRY_CONFIG * pow2 k)
                      (maxDelay DEFAULT_RETRY_CONFIG) <= 8000).
  { eapply Qle_trans; [apply Q.le_min_l |].
    simpl in Hk.
    destruct k as [| [| [| [| k]]]]; try (vm_compute; discriminate). lia. }
  set (e := Qmin _ _) in *.
  change (maxDelay DEFAULT_RETRY_CONFIG) with 10000.
  clearbody e. clear - Hcap. lra.
Qed.

End RetryDelay.

Section RetryFailure.

Import Retry.

Variable T : Type.
Variable env : Env T.
Variable config : RetryConfig.

(** From any attempt [a] at or before [k], the loop reaches attempt [k] and
    stops there. *)
Lemma retryLoop_fails_at (k : nat) (e : JsError) :
  (k <= maxRetries config)%nat ->
  retriedBefore env k ->
  operation env k = inl e ->
  shouldRetry e = false \/ k = maxRetries config ->
  forall d a slept lastError, (a + d = k)%nat ->
    let out := retryLoop config env (maxRetries config + 1 - a) a slept lastError in
    result out = inl (failure config (Some e)) /\ invocations out = (k + 1)%nat.
Proof.
  intros Hk Hbefore Hop Hstop.
  induction d as [| d IH]; intros a slept lastError Had.
  - assert (a = k) by lia. subst a.
    replace (maxRetries config + 1 - k)%nat with (S (maxRetries config - k)) by lia.
    simpl. rewrite Hop.
    assert (Hcond : negb (shouldRetry e) || (maxRetries config <=? k)%nat = true).
    { destruct Hstop as [-> | ->]; [reflexivity |].
      rewrite Nat.leb_refl. apply orb_true_r. }
    rewrite Hcond. simpl. split; reflexivity.
  - assert (Ha : (a < k)%nat) by lia.
    destruct (Hbefore a Ha) as (ea & Hopa & Hretry).
    replace (maxRetries config + 1 - a)%nat with (S (maxRetries config + 1 - (a + 1))) by lia.
    simpl. rewrite Hopa, Hretry.
    assert (Hle : (maxRetries config <=? a)%nat = false) by (apply Nat.leb_gt; lia).
    rewrite Hle. simpl. apply IH. lia.
Qed.

(** C4 (amended): if attempt [k] (within the budget) rejects with an
    error that [shouldRetry] refuses, or [k] is the last attempt of the
    budget, the earlier attempts having been retried, then [operation] is
    not called again and [retryOperation] throws a new error: its message
    is the fixed text with the attempt budget followed by the message of
    the error of that last attempt (or by "undefined" when it has none),
    and it has neither [code] nor [status]; nothing else of the last
    error is carried. *)
Theorem retryOperation_propagates_last_error (k : nat) (e : JsError)
    (Hbudget : (k <= maxRetries config)%nat)
    (Hbefore : retriedBefore env k)
    (Hrejects : operation env k = inl e)
    (Hstop : shouldRetry e = false \/ k = maxRetries config) :
  result (retryOperation env config)
  = inl (newError ("Operation failed after " +++ string_of_nat (maxRetries config + 1)
                   +++ " attempts. Last error: " +++ templateString (message e)))
  /\ invocations (retryOperation env config) = (k + 1)%nat
  /\ forall thrown,
       result (retryOperation env config) = inl thrown ->
       code thrown = None
       /\ status thrown = None
       /\ message thrown
          = Some ("Operation failed after " +++ string_of_nat (maxRetries config + 1)
                  +++ " attempts. Last error: "
                  +++ match message e with
                      | Some text => text
                      | None => "undefined"
                      end).
Proof.
  assert (Hrun : result (retryOperation env config) = inl (failure config (Some e))
                 /\ invocations (retryOperation env config) = (k + 1)%nat).
  { unfold retryOperation.
    replace (retryLoop config env (maxRetries config + 1) 0 [] None)
      with (retryLoop config env (maxRetries config + 1 - 0) 0 [] None)
      by (f_equal; lia).
    apply (@retryLoop_fails_at k e Hbudget Hbefore Hrejects Hstop k 0%nat [] None).
    reflexivity. }
  destruct Hrun as [Hresult Hcalls].
  split; [exact Hresult |]. split; [exact Hcalls |].
  intros thrown Hthrown. rewrite Hresult in Hthrown. injection Hthrown as <-.
  split; [reflexivity |]. split; reflexivity.
Qed.

End RetryFailure.

(** C4, as stated, fails: what is thrown is a new error that quotes the
    message of the last rejection and carries nothing else of it.  A 404
    with its [code] and a plain error with the same message end in the
    same failure, which has no [code]: the cause cannot be read back from
    it. *)
Lemma retryOperation_drops_cause :
  Retry.notFound <> newError "Requested entity was not found."
  /\ Retry.shouldRetry Retry.notFound = false
  /\ Retry.shouldRetry (newError "Requested entity was not found.") = false
  /\ Retry.result
       (Retry.retryOperation (Retry.alwaysRejects Retry.notFound)
          Retry.DEFAULT_RETRY_CONFIG)
     = inl (newError
              "Operation failed after 4 attempts. Last error: Requested entity was not found.")
  /\ Retry.result
       (Retry.retryOperation
          (Retry.alwaysRejects (newError "Requested entity was not found."))
          Retry.DEFAULT_RETRY_CONFIG)
     = Retry.result
         (Retry.retryOperation (Retry.alwaysRejects Retry.notFound)
            Retry.DEFAULT_RETRY_CONFIG)
  /\ code Retry.notFound = Some (SNum 404)
  /\ code (newError
             "Operation failed after 4 attempts. Last error: Requested entity was not found.")
     = None.
Proof.
  split; [discriminate |]. repeat split; reflexivity.
Qed.

(** C4 on a 404, which is not retried, and on a 503 at every call, which
    uses up the budget of four attempts. *)
Lemma retryOperation_propagates_last_error_witness :
  (((0 <= Retry.maxRetries Retry.DEFAULT_RETRY_CONFIG)%nat
    /\ Retry.retriedBefore (Retry.alwaysRejects Retry.notFound) 0
    /\ Retry.operation (Retry.alwaysRejects Retry.notFound) 0 = inl Retry.notFound
    /\ (Retry.shouldRetry Retry.notFound = false
        \/ 0%nat = Retry.maxRetries Retry.DEFAULT_RETRY_CONFIG))
   /\ Retry.result
        (Retry.retryOperation (Retry.alwaysRejects Retry.notFound)
           Retry.DEFAULT_RETRY_CONFIG)
      = inl (newError
               "Operation failed after 4 attempts. Last error: Requested entity was not found.")
   /\ Retry.invocations
        (Retry.retryOperation (Retry.alwaysRejects Retry.notFound)
           Retry.DEFAULT_RETRY_CONFIG)
      = 1%nat)
  /\ ((3 <= Retry.maxRetries Retry.DEFAULT_RETRY_CONFIG)%nat
      /\ Retry.retriedBefore (Retry.alwaysRejects Retry.unavailable) 3
      /\ Retry.operation (Retry.alwaysRejects Retry.unavailable) 3
         = inl Retry.unavailable
      /\ (Retry.shouldRetry Retry.unavailable = false
          \/ 3%nat = Retry.maxRetries Retry.DEFAULT_RETRY_CONFIG))
  /\ Retry.result
       (Retry.retryOperation (Retry.alwaysRejects Retry.unavailable)
          Retry.DEFAULT_RETRY_CONFIG)
     = inl (newError
              "Operation failed after 4 attempts. Last error: The service is currently unavailable.")
  /\ Retry.invocations
       (Retry.retryOperation (Retry.alwaysRejects Retry.unavailable)
          Retry.DEFAULT_RETRY_CONFIG)
     = 4%nat.
Proof.
  assert (Hbudget : (0 <= Retry.maxRetries Retry.DEFAULT_RETRY_CONFIG)%nat)
    by apply Nat.le_0_l.
  assert (Hbefore : Retry.retriedBefore (Retry.alwaysRejects Retry.notFound) 0).
  { intros i Hi. exfalso. exact (Nat.nlt_0_r i Hi). }
  assert (Hstop : Retry.shouldRetry Retry.notFound = false
                  \/ 0%nat = Retry.maxRetries Retry.DEFAULT_RETRY_CONFIG)
    by (left; reflexivity).
  assert (Hbudget' : (3 <= Retry.maxRetries Retry.DEFAULT_RETRY_CONFIG)%nat)
    by apply Nat.le_refl.
  assert (Hbefore' : Retry.retriedBefore (Retry.alwaysRejects Retry.unavailable) 3).
  { intros i Hi. exists Retry.unavailable. split; reflexivity. }
  assert (Hstop' : Retry.shouldRetry Retry.unavailable = false
                   \/ 3%nat = Retry.maxRetries Retry.DEFAULT_RETRY_CONFIG)
    by (right; reflexivity).
  destruct (@retryOperation_propagates_last_error unit
              (Retry.alwaysRejects Retry.notFound) Retry.DEFAULT_RETRY_CONFIG
              0%nat Retry.notFound Hbudget Hbefore eq_refl Hstop)
    as (Hresult & Hcalls & _).
  destruct (@retryOperation_propagates_last_error unit
              (Retry.alwaysRejects Retry.unavailable) Retry.DEFAULT_RETRY_CONFIG
              3%nat Retry.unavailable Hbudget' Hbefore' eq_refl Hstop')
    as (Hresult' & Hcalls' & _).
  split; [split; [repeat split; assumption | split; assumption] |].
  split; [repeat split; assumption |].
  split; assumption.
Defined.

(** A 503 on every call: the budget of four attempts is used up, three
    delays are slept, and the last error is the one reported. *)
Lemma retryOperation_exhausted_example :
  Retry.result
    (Retry.retryOperation (Retry.alwaysRejects Retry.unavailable)
       Retry.DEFAULT_RETRY_CONFIG)
  = inl (newError
           "Operation failed after 4 attempts. Last error: The service is currently unavailable.")
  /\ Retry.invocations
       (Retry.retryOperation (Retry.alwaysRejects Retry.unavailable)
          Retry.DEFAULT_RETRY_CONFIG)
     = 4%nat
  /\ List.length
       (Retry.sleeps
          (Retry.retryOperation (Retry.alwaysRejects Retry.unavailable)
             Retry.DEFAULT_RETRY_CONFIG))
     = 3%nat.
Proof.
  split; [reflexivity |]. split; reflexivity.
Qed.

(** ** normalizeDate *)

Section NormalizeDate.

Import Mapper.

Lemma isDigit_not_whitespace (c : ascii) : isDigit c = true -> isWhiteSpace c = false.
Proof.
  unfold isDigit, isWhiteSpace. intros H.
  apply andb_true_iff in H. destruct H as [H1 H2].
  apply N.leb_le in H1. apply N.leb_le in H2.
  simpl. repeat rewrite orb_false_iff.
  repeat split; apply N.eqb_neq; lia.
Qed.

(** A string of the canonical shape is ten characters, the first and the
    last of them digits. *)
Lemma isCanonicalShape_inv (s : string) :
  isCanonicalShape s = true ->
  exists y1 y2 y3 y4 h1 m1 m2 h2 d1 d2,
    s = string_of_list_ascii [y1; y2; y3; y4; h1; m1; m2; h2; d1; d2]
    /\ isDigit y1 = true /\ isDigit d2 = true.
Proof.
  unfold isCanonicalShape. intros H.
  rewrite <- (string_of_list_ascii_of_string s).
  destruct (list_ascii_of_string s)
    as [| y1 [| y2 [| y3 [| y4 [| h1 [| m1 [| m2 [| h2 [| d1 [| d2 [| x l]]]]]]]]]]];
    try discriminate H.
  exists y1, y2, y3, y4, h1, m1, m2, h2, d1, d2.
  split; [reflexivity |].
  cbv beta iota in H.
  do 9 (apply andb_true_iff in H; destruct H as [H ?]).
  split; assumption.
Qed.

Lemma trim_canonical (s : string) : isCanonicalShape s = true -> trim s = s.
Proof.
  intros H. destruct (isCanonicalShape_inv s H)
    as (y1 & y2 & y3 & y4 & h1 & m1 & m2 & h2 & d1 & d2 & -> & Hy & Hd).
  apply isDigit_not_whitespace in Hy, Hd.
  unfold trim. simpl. rewrite Hy. simpl. rewrite Hd. simpl.
  repeat rewrite andb_false_r. reflexivity.
Qed.

Lemma canonical_nonempty (s : string) :
  isCanonicalShape s = true -> String.eqb s "" = false.
Proof.
  intros H. destruct s; [discriminate H | reflexivity].
Qed.

Context {rt : JsRuntime}.

(** A string that [Date] accepts in the canonical shape comes back as it is. *)
Lemma normalizeDate_canonical (s : string) :
  isCanonicalShape s = true -> newDate (s +++ "T00:00:00.000Z") <> None ->
  normalizeDate s = s.
Proof.
  intros Hshape Hdate. unfold normalizeDate.
  rewrite (canonical_nonempty s Hshape), (trim_canonical s Hshape), Hshape.
  destruct (newDate (s +++ "T00:00:00.000Z")); [reflexivity | contradiction].
Qed.

(** The second half of C3: a valid calendar date in the canonical shape is
    a fixed point, so a result of that kind normalises to itself. *)
Lemma normalizeDate_calendar_date_fixpoint (x : string) :
  AcceptsCalendarDates rt -> isCalendarDate x = true ->
  normalizeDate x = x /\ normalizeDate (normalizeDate x) = normalizeDate x.
Proof.
  intros Hrt Hx.
  assert (Hfix : normalizeDate x = x).
  { apply normalizeDate_canonical; [| now apply Hrt].
    unfold isCalendarDate in Hx. apply andb_true_iff in Hx. tauto. }
  split; [assumption | now rewrite Hfix].
Qed.

(** What a string outside the canonical shape normalises to is decided by
    [new Date] alone: the year is printed as it is, month and day padded. *)
Lemma normalizeDate_general_parse (s : string) (date : JSDate) :
  String.eqb s "" = false -> isCanonicalShape (trim s) = false ->
  newDate (trim s) = Some date ->
  normalizeDate s
  = string_of_Z (getFullYear date) +++ "-"
    +++ padStart2 (string_of_Z (getMonth date + 1)) +++ "-"
    +++ padStart2 (string_of_Z (getDate date)).
Proof.
  intros Hne Hshape Hdate. unfold normalizeDate.
  rewrite Hne, Hshape, Hdate. reflexivity.
Qed.

(** C6: [normalizeDate("2024-13-40")] is the empty string, [new Date]
    answering Invalid Date to a month 13, as ECMAScript requires for
    out-of-bounds elements. *)
Theorem normalizeDate_invalid_calendar_date
    (Hutc : newDate "2024-13-40T00:00:00.000Z" = None)
    (Hplain : newDate "2024-13-40" = None) :
  normalizeDate "2024-13-40" = ""%string.
Proof.
  unfold normalizeDate.
  change (trim "2024-13-40") with "2024-13-40"%string.
  change ("2024-13-40" +++ "T00:00:00.000Z") with "2024-13-40T00:00:00.000Z"%string.
  rewrite Hutc, Hplain. reflexivity.
Qed.

End NormalizeDate.

(** C6 with the example runtime. *)
Lemma normalizeDate_invalid_calendar_date_witness :
  (@Mapper.newDate Mapper.isoRuntime "2024-13-40T00:00:00.000Z" = None
   /\ @Mapper.newDate Mapper.isoRuntime "2024-13-40" = None)
  /\ @Mapper.normalizeDate Mapper.isoRuntime "2024-13-40" = ""%string.
Proof.
  split; [split; reflexivity |].
  exact (@normalizeDate_invalid_calendar_date Mapper.isoRuntime eq_refl eq_refl).
Defined.

(** The example runtime accepts every calendar date, as ECMAScript asks. *)
Lemma isoRuntime_accepts : Mapper.AcceptsCalendarDates Mapper.isoRuntime.
Proof.
  intros s Hs. simpl. unfold Mapper.isoDate.
  assert (Hshape : Mapper.isCanonicalShape s = true).
  { unfold Mapper.isCalendarDate in Hs. apply andb_true_iff in Hs. tauto. }
  destruct (isCanonicalShape_inv s Hshape)
    as (y1 & y2 & y3 & y4 & h1 & m1 & m2 & h2 & d1 & d2 & -> & _ & _).
  cbn [string_of_list_ascii String.append String.substring String.length Nat.sub].
  cbn [string_of_list_ascii] in Hs. rewrite Hs.
  simpl. discriminate.
Qed.

(** The example runtime rejects out-of-bounds months and days. *)
Lemma isoRuntime_rejects : Mapper.RejectsOutOfBounds Mapper.isoRuntime.
Proof.
  intros s Hs. simpl. unfold Mapper.isoDate.
  assert (Hshape : Mapper.isCanonicalShape s = true).
  { unfold Mapper.isOutOfBounds in Hs. apply andb_true_iff in Hs. tauto. }
  assert (Hcal : Mapper.isCalendarDate s = false).
  { unfold Mapper.isOutOfBounds in Hs. unfold Mapper.isCalendarDate.
    rewrite Hshape in *. simpl in *.
    destruct (Mapper.canonicalFields s) as [[y m] d].
    unfold Mapper.validCalendarDate.
    apply negb_true_iff in Hs. apply not_true_iff_false. intros Hv.
    apply not_true_iff_false in Hs. apply Hs.
    repeat (apply andb_true_iff in Hv; destruct Hv as [Hv ?]).
    repeat (apply andb_true_iff; split); try assumption.
    apply Z.leb_le. apply Z.leb_le in H.
    assert (Mapper.daysInMonth y m <= 31)%Z; [| lia].
    unfold Mapper.daysInMonth.
    repeat match goal with |- context [if ?b then _ else _] => destruct b end; lia. }
  destruct (isCanonicalShape_inv s Hshape)
    as (y1 & y2 & y3 & y4 & h1 & m1 & m2 & h2 & d1 & d2 & -> & _ & _).
  cbn [string_of_list_ascii String.append String.substring String.length Nat.sub].
  cbn [string_of_list_ascii] in Hcal. rewrite Hcal. split; reflexivity.
Qed.

(** C3 fails on the code: the year is printed without padding, so a date
    of the year 99 comes out as [99-06-15], which is not of the canonical
    shape and does not normalise to itself. *)
Theorem normalizeDate_unpadded_year :
  @Mapper.normalizeDate Mapper.isoRuntime "0099-06-15T12:00:00.000Z" = "99-06-15"%string
  /\ Mapper.isCanonicalShape "99-06-15" = false
  /\ @Mapper.normalizeDate Mapper.isoRuntime
       (@Mapper.normalizeDate Mapper.isoRuntime "0099-06-15T12:00:00.000Z")
     <> @Mapper.normalizeDate Mapper.isoRuntime "0099-06-15T12:00:00.000Z".
Proof.
  split; [reflexivity |]. split; [reflexivity |].
  vm_compute. discriminate.
Qed.

Section UnpaddedYear.

Import Mapper.

Context {rt : JsRuntime}.

(** The same first step under any runtime whose [Date] reads the ISO
    date-time as 15 June of the year 99. *)
Lemma normalizeDate_year_99 :
  newDate "0099-06-15T12:00:00.000Z" = Some (mkDate 99 5 15) ->
  normalizeDate "0099-06-15T12:00:00.000Z" = "99-06-15"%string.
Proof.
  intros H.
  rewrite (@normalizeDate_general_parse rt _ (mkDate 99 5 15));
    [reflexivity | reflexivity | reflexivity | exact H].
Qed.

(** The second step is up to how the runtime reads [99-06-15], which is
    outside the ISO format: an Invalid Date gives the empty string, the
    two-digit-year reading 1999 gives another day altogether. *)
Lemma normalizeDate_year_99_again :
  newDate "0099-06-15T12:00:00.000Z" = Some (mkDate 99 5 15) ->
  (newDate "99-06-15" = None ->
   normalizeDate (normalizeDate "0099-06-15T12:00:00.000Z") = ""%string)
  /\ (newDate "99-06-15" = Some (mkDate 1999 5 15) ->
      normalizeDate (normalizeDate "0099-06-15T12:00:00.000Z") = "1999-06-15"%string).
Proof.
  intros H. rewrite (normalizeDate_year_99 H). split; intros H2.
  - unfold normalizeDate. change (trim "99-06-15") with "99-06-15"%string.
    rewrite H2. reflexivity.
  - rewrite (@normalizeDate_general_parse rt _ (mkDate 1999 5 15));
      [reflexivity | reflexivity | reflexivity | exact H2].
Qed.

End UnpaddedYear.

(** ** The lock file *)

Section AcquireLock.

Import Writer.

Open Scope Z_scope.

Variable lockFilePath : string.
Variable sheetName : string.

(** C7: when a lock file exists, an age above 30 minutes has it unlinked
    and a new lock record written, the acquisition succeeding; an age of at
    most 30 minutes makes the acquisition fail with the contention error,
    whose message names the age (in seconds), the file staying as it is. *)
Theorem acquireLock_existing_lock (w : World) (file : LockFile)
    (Hexists : lockFile w = Some file) :
  (now w - mtime file > 30 * 60 * 1000 ->
   exists w',
     acquireLock lockFilePath sheetName w = (w', inr tt)
     /\ lockFile w'
        = Some {| mtime := now w;
                  contents := {| pid := processPid w; timestamp := now w;
                                 sheet := sheetName |} |}
     /\ fsCalls w'
        = fsCalls w
          ++ [FsAccess; FsStat; FsUnlink;
              FsWriteFile {| pid := processPid w; timestamp := now w;
                             sheet := sheetName |}])
  /\ (now w - mtime file <= 30 * 60 * 1000 ->
      exists w',
        acquireLock lockFilePath sheetName w
        = (w', inl (newError
                      ("Another writer process is running (lock age: "
                       +++ string_of_Z (roundSeconds (now w - mtime file))
                       +++ "s). Please wait or remove " +++ lockFilePath)))
        /\ lockFile w' = Some file
        /\ fsCalls w' = fsCalls w ++ [FsAccess; FsStat]).
Proof.
  unfold acquireLock. simpl. rewrite Hexists. split; intros Hage.
  - assert (Hgt : (now w - mtime file >? 1800000) = true)
      by (apply Z.gtb_lt; lia).
    rewrite Hgt. eexists. split; [reflexivity |]. simpl.
    split; [reflexivity |]. repeat rewrite <- app_assoc. reflexivity.
  - assert (Hle : (now w - mtime file >? 1800000) = false).
    { rewrite Z.gtb_ltb. apply Z.ltb_ge. lia. }
    rewrite Hle. eexists. split; [reflexivity |]. simpl.
    split; [assumption |]. rewrite <- app_assoc. reflexivity.
Qed.

(** Without a lock file the lock is simply written. *)
Lemma acquireLock_no_lock (w : World) :
  lockFile w = None ->
  exists w',
    acquireLock lockFilePath sheetName w = (w', inr tt)
    /\ storeCalls w' = storeCalls w
    /\ lockFile w'
       = Some {| mtime := now w;
                 contents := {| pid := processPid w; timestamp := now w;
                                sheet := sheetName |} |}.
Proof.
  intros Hnone. unfold acquireLock. simpl. rewrite Hnone.
  eexists. split; [reflexivity |]. split; reflexivity.
Qed.

(** Acquiring the lock never calls the store. *)
Lemma acquireLock_storeCalls (w w' : World) (r : JsError + unit) :
  acquireLock lockFilePath sheetName w = (w', r) -> storeCalls w' = storeCalls w.
Proof.
  unfold acquireLock. simpl. destruct (lockFile w) as [file |].
  - destruct (_ >? _); intros H; injection H as <- _; reflexivity.
  - intros H; injection H as <- _; reflexivity.
Qed.

End AcquireLock.

(** C7 at the specification's two examples: a lock 40 minutes old and one
    10 minutes old. *)
Lemma acquireLock_existing_lock_witness :
  Writer.lockFile (Writer.exampleWorld [] [] (Some (Writer.lockAgedMinutes 40)))
  = Some (Writer.lockAgedMinutes 40)
  /\ (exists w',
        Writer.acquireLock "lock" "Sheet1"
          (Writer.exampleWorld [] [] (Some (Writer.lockAgedMinutes 40)))
        = (w', inr tt)
        /\ Writer.lockFile w'
           = Some (Writer.mkLockFile 1000000000
                     (Writer.mkLockData 4242 1000000000 "Sheet1")))
  /\ (exists w',
        Writer.acquireLock "lock" "Sheet1"
          (Writer.exampleWorld [] [] (Some (Writer.lockAgedMinutes 10)))
        = (w', inl (newError "Another writer process is running (lock age: 600s). Please wait or remove lock"))
        /\ Writer.lockFile w' = Some (Writer.lockAgedMinutes 10)).
Proof.
  split; [reflexivity |]. split.
  - destruct (@acquireLock_existing_lock "lock" "Sheet1"
                (Writer.exampleWorld [] [] (Some (Writer.lockAgedMinutes 40)))
                (Writer.lockAgedMinutes 40) eq_refl) as [Hstale _].
    destruct (Hstale eq_refl) as (w' & Hrun & Hlock & _).
    exists w'. split; [exact Hrun | exact Hlock].
  - destruct (@acquireLock_existing_lock "lock" "Sheet1"
                (Writer.exampleWorld [] [] (Some (Writer.lockAgedMinutes 10)))
                (Writer.lockAgedMinutes 10) eq_refl) as [_ Hfresh].
    destruct (Hfresh ltac:(discriminate)) as (w' & Hrun & Hlock & _).
    exists w'. split; [exact Hrun | exact Hlock].
Defined.

(** ** Full refresh, incremental update and dry run *)

Section WriterRuns.

Import Mapper Writer.

Context {rt : JsRuntime}.

Variable lockFilePath : string.
Variable sheetName : string.
Variable dateFields : list string.

(** *** The monad *)

Lemma bind_ret {A B : Type} (a : A) (k : A -> M B) (w : World) :
  bind (ret a) k w = k a w.
Proof. reflexivity. Qed.

Lemma whenM_false (m : M unit) : whenM false m = ret tt.
Proof. reflexivity. Qed.

Lemma returns_ret {A : Type} (a b : A) (w : World) : returns (ret a) w b -> b = a.
Proof. intros [w' H]. unfold ret in H. congruence. Qed.

Lemma returns_bind {A B : Type} (m : M A) (k : A -> M B) (w : World) (b : B) :
  returns (bind m k) w b -> exists a w', m w = (w', inr a) /\ returns (k a) w' b.
Proof.
  intros [w2 H]. unfold bind in H.
  destruct (m w) as [w1 [e | a]] eqn:Hm; [discriminate |].
  exists a, w1. split; [reflexivity |]. now exists w2.
Qed.

(** A step whose value the continuation ignores. *)
Lemma returns_then {A B : Type} (m : M A) (k : M B) (w : World) (b : B) :
  returns (bind m (fun _ => k)) w b -> exists w', returns k w' b.
Proof.
  intros H. apply returns_bind in H. destruct H as (_ & w' & _ & H). now exists w'.
Qed.

(** *** Full refresh *)

(** The statistics a full refresh reports. *)
Lemma performFullRefresh_stats (dryRun : bool) (records : list JsRecord)
    (w : World) (stats : WriteStats) :
  returns (performFullRefresh dryRun dateFields records) w stats ->
  stats = {| totalRecords := Z.of_nat (List.length records);
             newRecords := Z.of_nat (List.length records);
             updatedRecords := 0;
             deletedRecords := 0;
             newColumns := collectAllFields records |}.
Proof.
  unfold performFullRefresh. cbv zeta. intros H.
  apply returns_then in H. destruct H as [w' H]. now apply returns_ret in H.
Qed.

Lemma performFullRefresh_dry (records : list JsRecord) (w : World) :
  performFullRefresh true dateFields records w
  = (w, inr {| totalRecords := Z.of_nat (List.length records);
               newRecords := Z.of_nat (List.length records);
               updatedRecords := 0;
               deletedRecords := 0;
               newColumns := collectAllFields records |}).
Proof. reflexivity. Qed.

(** A real full refresh returns as soon as [replaceAllData] goes through. *)
Lemma performFullRefresh_returns (records : list JsRecord) (w : World) :
  rejects w (ReplaceAllData
               (map CText (collectAllFields records)
                :: recordsToRows dateFields records (collectAllFields records))
               (List.length (collectAllFields records))) = None ->
  exists stats, returns (performFullRefresh false dateFields records) w stats.
Proof.
  intros Hok. unfold performFullRefresh, returns. cbv zeta.
  unfold whenM at 1. simpl negb. cbv iota.
  unfold bind at 1. unfold bind at 1. unfold call at 1. rewrite Hok.
  unfold whenM, callQuiet, ret.
  destruct (0 <? List.length _)%nat; eexists; eexists; reflexivity.
Qed.

(** *** Incremental update *)

(** C8: when the snapshot read is the empty grid, the incremental update
    is the full refresh of the same batch (run after that one read); the
    statistics it returns have [newRecords = totalRecords], both the size
    of the batch, and [deletedRecords = 0]; and it does return them, in a
    dry run always and otherwise once [replaceAllData] goes through. *)
Theorem incremental_update_on_empty_store (dryRun : bool)
    (records : list JsRecord) (w : World)
    (Hempty : snapshot w = inr []) :
  performIncrementalUpdate dryRun dateFields records w
  = performFullRefresh dryRun dateFields records (logStore GetAllData w)
  /\ (forall stats,
        returns (performIncrementalUpdate dryRun dateFields records) w stats ->
        newRecords stats = totalRecords stats
        /\ totalRecords stats = Z.of_nat (List.length records)
        /\ deletedRecords stats = 0%Z)
  /\ (dryRun = true
      \/ rejects w (ReplaceAllData
                      (map CText (collectAllFields records)
                       :: recordsToRows dateFields records (collectAllFields records))
                      (List.length (collectAllFields records))) = None ->
      exists stats,
        returns (performIncrementalUpdate dryRun dateFields records) w stats).
Proof.
  assert (Heq : performIncrementalUpdate dryRun dateFields records w
                = performFullRefresh dryRun dateFields records (logStore GetAllData w)).
  { unfold performIncrementalUpdate. unfold bind at 1. unfold getAllData.
    rewrite Hempty. reflexivity. }
  split; [exact Heq |]. split.
  - intros stats [w' H]. rewrite Heq in H.
    assert (Hs : returns (performFullRefresh dryRun dateFields records)
                         (logStore GetAllData w) stats) by (now exists w').
    apply performFullRefresh_stats in Hs. subst stats. simpl. auto.
  - intros [-> | Hok].
    + eexists. eexists. rewrite Heq, performFullRefresh_dry. reflexivity.
    + destruct dryRun.
      * eexists. eexists. rewrite Heq, performFullRefresh_dry. reflexivity.
      * destruct (@performFullRefresh_returns records (logStore GetAllData w) Hok)
          as [stats [w' H]].
        exists stats, w'. now rewrite Heq.
Qed.

(** In a dry run the incremental update makes one call, the snapshot read,
    and returns statistics whenever that read succeeds. *)
Lemma performIncrementalUpdate_dry (records : list JsRecord) (w : World) :
  exists r,
    performIncrementalUpdate true dateFields records w = (logStore GetAllData w, r)
    /\ (forall grid, snapshot w = inr grid -> exists stats, r = inr stats).
Proof.
  unfold performIncrementalUpdate. unfold bind at 1. unfold getAllData.
  destruct (snapshot w) as [e | grid].
  - eexists. split; [reflexivity | intros g Hg; discriminate Hg].
  - destruct (List.length grid =? 0)%nat.
    + rewrite performFullRefresh_dry. eexists. split; [reflexivity |].
      intros; eexists; reflexivity.
    + cbv zeta. simpl negb. rewrite !andb_false_r, !whenM_false.
      eexists. split; [reflexivity |]. intros; eexists; reflexivity.
Qed.


(** *** writeData *)

(** Taking the lock touches the lock file only. *)
Lemma acquireLock_frame (w w' : World) (r : JsError + unit) :
  acquireLock lockFilePath sheetName w = (w', r) ->
  batch w' = batch w /\ snapshot w' = snapshot w /\ storeCalls w' = storeCalls w.
Proof.
  unfold acquireLock. simpl. destruct (lockFile w) as [file |].
  - destruct (_ >? _)%Z; intros H; injection H as <- _; auto.
  - intros H; injection H as <- _; auto.
Qed.

(** A dry run, spelled out: no lock, the batch, then the plan. *)
Lemma writeData_dry (fullRefresh : bool) (w : World) :
  writeData fullRefresh true lockFilePath sheetName dateFields w
  = match batch w with
    | inl e => (w, inl e)
    | inr records =>
        if (List.length records =? 0)%nat then (w, inl noData)
        else if fullRefresh then performFullRefresh true dateFields records w
        else performIncrementalUpdate true dateFields records w
    end.
Proof.
  unfold writeData. simpl negb. rewrite !whenM_false, bind_ret.
  unfold tryFinally, ret, bind at 1, loadData.
  destruct (batch w) as [e | records]; [reflexivity |].
  destruct (List.length records =? 0)%nat; [reflexivity |].
  destruct fullRefresh.
  - reflexivity.
  - destruct (performIncrementalUpdate true dateFields records w). reflexivity.
Qed.



(** C10: on an empty batch [writeData] throws the "No data to write"
    error without calling the store: a dry run leaves the world as it is,
    and a real run that took the lock has unlinked the lock file again. *)
Theorem writeData_empty_batch (fullRefresh : bool) (w : World)
    (Hempty : batch w = inr []) :
  writeData fullRefresh true lockFilePath sheetName dateFields w
  = (w, inl (newError "❌ No data to write"))
  /\ (forall w1,
        acquireLock lockFilePath sheetName w = (w1, inr tt) ->
        writeData fullRefresh false lockFilePath sheetName dateFields w
        = (withLockFile None (logFs FsUnlink w1),
           inl (newError "❌ No data to write"))
        /\ storeCalls (withLockFile None (logFs FsUnlink w1)) = storeCalls w
        /\ lockFile (withLockFile None (logFs FsUnlink w1)) = None).
Proof.
  split.
  - rewrite writeData_dry, Hempty. reflexivity.
  - intros w1 Hacq.
    pose proof (acquireLock_frame _ Hacq) as (Hb & _ & Hcalls).
    split; [| split; [exact Hcalls | reflexivity]].
    unfold writeData. simpl negb. unfold whenM.
    unfold bind at 1. rewrite Hacq.
    unfold tryFinally, bind, loadData. rewrite Hb, Hempty. reflexivity.
Qed.

End WriterRuns.

(** C10 in a world without a lock file. *)
Lemma writeData_empty_batch_witness :
  Writer.batch (Writer.exampleWorld [] Writer.exampleGrid None) = inr []
  /\ @Writer.writeData Mapper.isoRuntime false true "lock" "Sheet1" ["date"%string]
       (Writer.exampleWorld [] Writer.exampleGrid None)
     = (Writer.exampleWorld [] Writer.exampleGrid None,
        inl (newError "❌ No data to write"))
  /\ exists w',
       @Writer.writeData Mapper.isoRuntime false false "lock" "Sheet1" ["date"%string]
         (Writer.exampleWorld [] Writer.exampleGrid None)
       = (w', inl (newError "❌ No data to write"))
       /\ Writer.storeCalls w' = []
       /\ Writer.lockFile w' = None
       /\ Writer.fsCalls w'
          = [Writer.FsAccess;
             Writer.FsWriteFile (Writer.mkLockData 4242 1000000000 "Sheet1");
             Writer.FsUnlink].
Proof.
  split; [reflexivity |].
  destruct (@writeData_empty_batch Mapper.isoRuntime "lock" "Sheet1" ["date"%string]
              false (Writer.exampleWorld [] Writer.exampleGrid None) eq_refl)
    as [Hdry Hreal].
  split; [exact Hdry |].
  destruct (Hreal _ eq_refl) as (Hrun & Hcalls & Hlock).
  eexists. split; [exact Hrun |].
  split; [reflexivity | split; reflexivity].
Defined.

(** C8 on a one-record batch, really written. *)
Lemma incremental_update_on_empty_store_witness :
  Writer.snapshot (Writer.exampleWorld [Writer.exampleRecord] [] None) = inr []
  /\ exists w',
       @Writer.performIncrementalUpdate Mapper.isoRuntime false ["date"%string]
         [Writer.exampleRecord] (Writer.exampleWorld [Writer.exampleRecord] [] None)
       = (w', inr (Writer.mkStats 1 1 0 0 ["date"; "clicks"]%string))
       /\ Writer.storeCalls w'
          = [Writer.GetAllData;
             Writer.ReplaceAllData
               [[Mapper.CText "date"; Mapper.CText "clicks"];
                [Mapper.CText "2024-01-01"; Mapper.CNumber 7]] 2;
             Writer.FormatDateColumns [0%nat]].
Proof.
  split; [reflexivity |].
  destruct (@incremental_update_on_empty_store Mapper.isoRuntime ["date"%string] false
              [Writer.exampleRecord]
              (Writer.exampleWorld [Writer.exampleRecord] [] None) eq_refl)
    as (Heq & _ & _).
  eexists. split; [rewrite Heq; reflexivity | reflexivity].
Defined.




(** The incremental update of the example sheet: the two rows dated
    2024-01-01 (positions 4 and 5) go in one range, then the batch is
    appended. *)
Lemma incremental_update_example :
  exists w',
    @Writer.writeData Mapper.isoRuntime false false "lock" "Sheet1" ["date"%string]
      (Writer.exampleWorld [Writer.exampleRecord] Writer.exampleGrid None)
    = (w', inr (Writer.mkStats 3 1 0 2 []))
    /\ Writer.storeCalls w'
       = [Writer.GetAllData;
          Writer.DeleteRows [Mapper.mkRange 4 5];
          Writer.GetAvailableRows;
          Writer.AppendRows [[Mapper.CText "2024-01-01"; Mapper.CNumber 7]]
            Writer.USER_ENTERED;
          Writer.FormatDateColumns [0%nat]]
    /\ Writer.lockFile w' = None.
Proof.
  eexists. split; [reflexivity |]. split; reflexivity.
Qed.
(** ** The sheet service: column labels *)

Section ColumnLetters.

Import Service.

Open Scope Z_scope.

Lemma columnLetterLoop_result (fuel : nat) (n : Z) (result : string) :
  columnLetterLoop fuel n result = columnLetterLoop fuel n "" +++ result.
Proof.
  revert n result. induction fuel as [| fuel IH]; intros n result; simpl.
  - reflexivity.
  - destruct (n >? 0); [| reflexivity].
    rewrite (IH _ (String _ result)), (IH _ (String _ "")).
    set (digits := columnLetterLoop fuel _ "").
    clearbody digits. induction digits as [| c digits IHd]; simpl; [reflexivity |].
    now rewrite IHd.
Qed.

Lemma columnLetterValue_app (s1 s2 : string) (acc : Z) :
  columnLetterValue acc (s1 +++ s2) = columnLetterValue (columnLetterValue acc s1) s2.
Proof.
  revert acc. induction s1 as [| c s1 IH]; intros acc; simpl; [reflexivity | apply IH].
Qed.

Lemma allColumnLetters_app (s1 s2 : string) :
  allColumnLetters (s1 +++ s2) = allColumnLetters s1 && allColumnLetters s2.
Proof.
  induction s1 as [| c s1 IH]; simpl; [reflexivity |].
  now rewrite IH, andb_assoc.
Qed.

Lemma letter_code (k : Z) :
  0 <= k < 26 -> N_of_ascii (ascii_of_N (Z.to_N (65 + k))) = Z.to_N (65 + k).
Proof.
  intros Hk. apply N_ascii_embedding. lia.
Qed.

(** Reading back what the loop wrote gives the number it started from. *)
Lemma columnLetterLoop_value (fuel : nat) (n : Z) :
  0 <= n -> (Z.to_nat n <= fuel)%nat ->
  columnLetterValue 0 (columnLetterLoop fuel n "") = n
  /\ allColumnLetters (columnLetterLoop fuel n "") = true.
Proof.
  revert n. induction fuel as [| fuel IH]; intros n Hn Hfuel;
    cbn [columnLetterLoop]; cbv zeta.
  - split; [simpl; lia | reflexivity].
  - destruct (n >? 0) eqn:Hpos; [| simpl; split; [lia | reflexivity]].
    apply Z.gtb_lt in Hpos.
    assert (Hmod : 0 <= (n - 1) mod 26 < 26) by (apply Z.mod_pos_bound; lia).
    assert (Hdiv : 0 <= (n - 1) / 26 <= n - 1).
    { split; [apply Z.div_pos; lia |]. apply Z.div_le_upper_bound; lia. }
    destruct (IH ((n - 1) / 26)) as [Hval Hall]; [lia | lia |].
    rewrite columnLetterLoop_result, columnLetterValue_app, allColumnLetters_app.
    rewrite Hval, Hall. cbn [columnLetterValue allColumnLetters andb].
    unfold isColumnLetter. rewrite (letter_code Hmod).
    split.
    + rewrite Z2N.id by lia.
      pose proof (Z.div_mod (n - 1) 26 ltac:(lia)). lia.
    + rewrite andb_true_r. apply andb_true_iff.
      split; apply N.leb_le; lia.
Qed.

(** Turns beyond the [columnNumber]-th are never taken. *)
Lemma columnLetterLoop_fuel (fuel1 fuel2 : nat) (n : Z) (result : string) :
  (Z.to_nat n <= fuel1)%nat -> (Z.to_nat n <= fuel2)%nat ->
  columnLetterLoop fuel1 n result = columnLetterLoop fuel2 n result.
Proof.
  revert fuel2 n result.
  induction fuel1 as [| fuel1 IH]; intros fuel2 n result H1 H2.
  - destruct fuel2 as [| fuel2]; [reflexivity |]. simpl.
    destruct (n >? 0) eqn:Hpos; [apply Z.gtb_lt in Hpos; lia | reflexivity].
  - destruct fuel2 as [| fuel2]; simpl.
    + destruct (n >? 0) eqn:Hpos; [apply Z.gtb_lt in Hpos; lia | reflexivity].
    + destruct (n >? 0) eqn:Hpos; [| reflexivity].
      apply Z.gtb_lt in Hpos.
      assert (Hdiv : 0 <= (n - 1) / 26 <= n - 1).
      { split; [apply Z.div_pos; lia |]. apply Z.div_le_upper_bound; lia. }
      apply IH; lia.
Qed.

(** X1: for every column number [n >= 0] the label consists of the
    letters A to Z and reads back as [n] (A = 1, ..., Z = 26, AA = 27), and
    the loop needs no more than [n] turns: more fuel changes nothing. *)
Theorem numberToColumnLetter_round_trip (columnNumber : Z)
    (Hnumber : 0 <= columnNumber) :
  columnLetterToNumber (numberToColumnLetter columnNumber) = columnNumber
  /\ allColumnLetters (numberToColumnLetter columnNumber) = true
  /\ forall fuel, (Z.to_nat columnNumber <= fuel)%nat ->
       columnLetterLoop fuel columnNumber "" = numberToColumnLetter columnNumber.
Proof.
  unfold columnLetterToNumber, numberToColumnLetter.
  destruct (@columnLetterLoop_value (Z.to_nat columnNumber) columnNumber Hnumber
              (Nat.le_refl _)) as [Hval Hall].
  split; [exact Hval |]. split; [exact Hall |].
  intros fuel Hfuel. apply columnLetterLoop_fuel; [assumption | apply Nat.le_refl].
Qed.

(** Distinct columns get distinct labels. *)
Lemma numberToColumnLetter_injective (a b : Z) :
  0 <= a -> 0 <= b -> numberToColumnLetter a = numberToColumnLetter b -> a = b.
Proof.
  intros Ha Hb Heq.
  destruct (@columnLetterLoop_value (Z.to_nat a) a Ha (Nat.le_refl _)) as [Hva _].
  destruct (@columnLetterLoop_value (Z.to_nat b) b Hb (Nat.le_refl _)) as [Hvb _].
  unfold numberToColumnLetter in Heq. rewrite Heq in Hva. congruence.
Qed.

(** Zero and negative numbers give the empty label. *)
Lemma numberToColumnLetter_nonpositive (n : Z) : n <= 0 -> numberToColumnLetter n = ""%string.
Proof.
  intros Hn. unfold numberToColumnLetter.
  destruct (Z.to_nat n) eqn:Hfuel; [reflexivity | lia].
Qed.

End ColumnLetters.

(** X1 at column 703, the first with three letters. *)
Lemma numberToColumnLetter_round_trip_witness :
  (0 <= 703)%Z
  /\ Service.numberToColumnLetter 703 = "AAA"%string
  /\ Service.columnLetterToNumber (Service.numberToColumnLetter 703) = 703%Z.
Proof.
  assert (H : (0 <= 703)%Z) by discriminate.
  split; [exact H |]. split; [reflexivity |].
  exact (proj1 (@numberToColumnLetter_round_trip 703 H)).
Defined.

(** ** The sheet service: deleting rows *)

Section DeleteRows.

Import Mapper Service.

Open Scope Z_scope.

Variable A : Type.

(** *** Rows without the marked ones *)

Lemma dropRows_app (marked : Z -> bool) (p : Z) (l1 l2 : list A) :
  dropRows marked p (l1 ++ l2)
  = dropRows marked p l1 ++ dropRows marked (p + Z.of_nat (List.length l1)) l2.
Proof.
  revert p. induction l1 as [| x l1 IH]; intros p.
  - simpl. now rewrite Z.add_0_r.
  - cbn [app dropRows List.length]. rewrite IH.
    replace (p + 1 + Z.of_nat (List.length l1))
      with (p + Z.of_nat (S (List.length l1))) by lia.
    destruct (marked p); reflexivity.
Qed.

Lemma dropRows_ext (m1 m2 : Z -> bool) (p : Z) (rows : list A) :
  (forall i, p <= i < p + Z.of_nat (List.length rows) -> m1 i = m2 i) ->
  dropRows m1 p rows = dropRows m2 p rows.
Proof.
  revert p. induction rows as [| x rows IH]; intros p Hext; [reflexivity |].
  cbn [dropRows]. cbn [List.length] in Hext.
  rewrite (Hext p) by lia. rewrite (IH (p + 1)); [reflexivity |].
  intros i Hi. apply Hext. lia.
Qed.

Lemma dropRows_none (marked : Z -> bool) (p : Z) (rows : list A) :
  (forall i, p <= i < p + Z.of_nat (List.length rows) -> marked i = false) ->
  dropRows marked p rows = rows.
Proof.
  revert p. induction rows as [| x rows IH]; intros p Hnone; [reflexivity |].
  cbn [dropRows]. cbn [List.length] in Hnone.
  rewrite (Hnone p) by lia. f_equal. apply IH. intros i Hi. apply Hnone. lia.
Qed.

Lemma dropRows_all (marked : Z -> bool) (p : Z) (rows : list A) :
  (forall i, p <= i < p + Z.of_nat (List.length rows) -> marked i = true) ->
  dropRows marked p rows = [].
Proof.
  revert p. induction rows as [| x rows IH]; intros p Hall; [reflexivity |].
  cbn [dropRows]. cbn [List.length] in Hall.
  rewrite (Hall p) by lia. apply IH. intros i Hi. apply Hall. lia.
Qed.

(** *** One request *)

(** Deleting a well-formed range that lies above every marked position
    amounts to marking the range too. *)
Lemma deleteDimension_marks (r : SheetRange) (marked : Z -> bool) (rows : list A) :
  1 <= start r <= end_ r ->
  (forall i, start r <= i -> marked i = false) ->
  dropRows marked 1 (deleteDimension (deleteRequest r) rows)
  = dropRows (fun i => inRangeb i r || marked i) 1 rows.
Proof.
  intros Hr Habove. unfold deleteDimension, deleteRequest. cbn [startIndex endIndex].
  set (a := Z.to_nat (start r - 1)). set (b := Z.to_nat (end_ r)).
  assert (Hab : (a <= b)%nat) by lia.
  set (front := firstn a rows).
  set (middle := firstn (b - a) (skipn a rows)).
  set (back := skipn b rows).
  assert (Hrows : rows = front ++ middle ++ back).
  { unfold front, middle, back.
    replace b with ((b - a) + a)%nat at 2 by lia.
    rewrite <- skipn_skipn, firstn_skipn, firstn_skipn. reflexivity. }
  assert (Hfront : (List.length front <= a)%nat)
    by (unfold front; rewrite length_firstn; lia).
  assert (Hmiddle : (List.length middle <= b - a)%nat
                    /\ (0 < List.length middle -> List.length front = a)%nat).
  { unfold middle, front. rewrite !length_firstn, length_skipn. lia. }
  assert (Hback : (0 < List.length back ->
                   List.length front = a /\ List.length middle = b - a)%nat).
  { unfold back, middle, front. rewrite !length_firstn, !length_skipn. lia. }
  clearbody front middle back. subst rows. rewrite !dropRows_app.
  rewrite (@dropRows_all _ _ middle).
  2:{ intros i Hi. unfold inRangeb.
      assert (0 < List.length middle)%nat by lia.
      destruct Hmiddle as [Hm1 Hm2]. specialize (Hm2 H).
      replace (start r <=? i) with true by (symmetry; apply Z.leb_le; lia).
      replace (i <=? end_ r) with true by (symmetry; apply Z.leb_le; lia).
      reflexivity. }
  rewrite (@dropRows_none (fun i => inRangeb i r || marked i) _ back).
  2:{ intros i Hi.
      assert (0 < List.length back)%nat by lia.
      destruct (Hback H) as [Hb1 Hb2].
      rewrite Habove by lia. unfold inRangeb.
      replace (i <=? end_ r) with false by (symmetry; apply Z.leb_gt; lia).
      now rewrite andb_false_r. }
  rewrite (@dropRows_none marked _ back).
  2:{ intros i Hi.
      assert (0 < List.length back)%nat by lia.
      destruct (Hback H) as [Hb1 Hb2]. apply Habove. lia. }
  cbn [app]. f_equal. apply dropRows_ext.
  intros i Hi. unfold inRangeb.
  replace (start r <=? i) with false by (symmetry; apply Z.leb_gt; lia).
  reflexivity.
Qed.

(** *** The loop over descending ranges *)

Variable fails : DeleteDimension -> bool.

Lemma deleteLoop_descending (ranges : list SheetRange) :
  descendingRanges ranges ->
  Forall (fun r => 1 <= start r <= end_ r) ranges ->
  forall rows : list A,
    fold_left
      (fun rows request => if fails request then rows else deleteDimension request rows)
      (map deleteRequest ranges) rows
    = dropRows
        (fun i => existsb (inRangeb i)
                    (filter (fun r => negb (fails (deleteRequest r))) ranges))
        1 rows.
Proof.
  unfold descendingRanges.
  induction 1 as [| r ranges Hsorted IH Hbelow]; intros Hwf rows.
  - simpl. symmetry. apply dropRows_none. reflexivity.
  - inversion Hwf as [| ? ? Hr Hwf']; subst.
    cbn [map fold_left filter].
    destruct (fails (deleteRequest r)); cbn [negb].
    + apply IH. assumption.
    + rewrite (IH Hwf'). cbn [existsb].
      apply deleteDimension_marks; [assumption |].
      intros i Hi. apply not_true_iff_false. intros Hex.
      apply existsb_exists in Hex. destruct Hex as (r' & Hin & Hrange).
      apply filter_In in Hin. destruct Hin as [Hin _].
      rewrite Forall_forall in Hbelow. specialize (Hbelow _ Hin).
      unfold below in Hbelow. unfold inRangeb in Hrange.
      apply andb_true_iff in Hrange. destruct Hrange as [H1 H2].
      apply Z.leb_le in H1, H2.
      rewrite Forall_forall in Hwf'. specialize (Hwf' _ Hin). lia.
Qed.

(** Sorting again what is already in descending order changes nothing. *)
Lemma sortRanges_descending (ranges : list SheetRange) :
  descendingRanges ranges -> Forall (fun r => start r <= end_ r) ranges ->
  sortRanges ranges = ranges.
Proof.
  unfold descendingRanges.
  induction 1 as [| r ranges Hsorted IH Hbelow]; intros Hwf; [reflexivity |].
  inversion Hwf as [| ? ? Hr Hwf']; subst.
  cbn [sortRanges fold_right]. fold (sortRanges ranges). rewrite (IH Hwf').
  destruct ranges as [| y ranges]; [reflexivity |].
  cbn [insertRange].
  inversion Hbelow as [| ? ? Hy _]; subst. unfold below in Hy.
  inversion Hwf' as [| ? ? Hyw _]; subst.
  replace (start r <? start y) with false by (symmetry; apply Z.ltb_ge; lia).
  reflexivity.
Qed.

End DeleteRows.

Section DeleteMarkedRows.

Import Mapper Service.

Open Scope Z_scope.

(** On distinct positions the grouped ranges are in descending order and
    well formed, and they start at a position of the input. *)
Lemma groupConsecutiveRanges_wellformed (positions : list Z) :
  NoDup positions -> Forall (fun p => 1 <= p) positions ->
  descendingRanges (groupConsecutiveRanges positions)
  /\ Forall (fun r => 1 <= start r <= end_ r) (groupConsecutiveRanges positions).
Proof.
  intros Hdistinct Hpos.
  assert (Hboth : descendingRanges (groupConsecutiveRanges positions)
                  /\ Forall (fun r => start r <= end_ r)
                            (groupConsecutiveRanges positions)).
  { destruct positions as [| n numbers].
    - unfold groupConsecutiveRanges, descendingRanges. simpl. split; constructor.
    - destruct (@groupConsecutiveRanges_unfold (n :: numbers)) as (f & r & Hs & ->);
        [discriminate |].
      assert (Hstrict : StronglySorted Z.gt (f :: r)).
      { rewrite <- Hs. apply descending_NoDup_strict; [apply sort_desc_sorted |].
        apply (Permutation_NoDup (sort_desc_perm _) Hdistinct). }
      destruct (@groupLoop_descending r f f (Z.le_refl f) Hstrict) as [Hd Hw].
      split; [assumption |]. eapply Forall_impl; [| exact Hw]. simpl. tauto. }
  destruct Hboth as [Hd Hw]. split; [assumption |].
  rewrite Forall_forall in *. intros r Hr. specialize (Hw r Hr).
  split; [| assumption].
  assert (Hin : In (start r) positions).
  { apply groupConsecutiveRanges_covered. exists r. split; [assumption |].
    unfold inRange. lia. }
  exact (Hpos _ Hin).
Qed.

(** Being in one of the grouped ranges is being one of the positions. *)
Lemma groupConsecutiveRanges_inRangeb (positions : list Z) (i : Z) :
  existsb (inRangeb i) (groupConsecutiveRanges positions)
  = existsb (Z.eqb i) positions.
Proof.
  apply eq_true_iff_eq. rewrite !existsb_exists.
  pose proof (groupConsecutiveRanges_covered positions i) as Hcov.
  unfold covered, inRange in Hcov. split.
  - intros (r & Hr & Hi). unfold inRangeb in Hi.
    apply andb_true_iff in Hi. destruct Hi as [H1 H2].
    apply Z.leb_le in H1, H2.
    exists i. split; [| apply Z.eqb_refl]. apply Hcov. exists r. split; [assumption | lia].
  - intros (x & Hx & Heq). apply Z.eqb_eq in Heq. subst x.
    apply Hcov in Hx. destruct Hx as (r & Hr & Hi).
    exists r. split; [assumption |]. unfold inRangeb.
    apply andb_true_iff. split; apply Z.leb_le; lia.
Qed.

(** What [deleteRows] leaves of the sheet when it is given the grouped
    ranges of distinct positions. *)
Lemma deleteRows_grouped (A : Type) (fails : DeleteDimension -> bool)
    (positions : list Z) (rows : list A) :
  NoDup positions -> Forall (fun p => 1 <= p) positions ->
  deleteRows fails (groupConsecutiveRanges positions) rows
  = dropRows
      (fun i => existsb (inRangeb i)
                  (filter (fun r => negb (fails (deleteRequest r)))
                          (groupConsecutiveRanges positions)))
      1 rows.
Proof.
  intros Hdistinct Hpos.
  destruct (groupConsecutiveRanges_wellformed Hdistinct Hpos) as [Hd Hw].
  unfold deleteRows, deleteRowsRequests.
  rewrite sortRanges_descending; [| assumption |].
  - now apply deleteLoop_descending.
  - eapply Forall_impl; [| exact Hw]. simpl. intros; lia.
Qed.

(** As many rows go as there are distinct positions inside the sheet. *)
Lemma dropRows_length (A : Type) (marked : Z -> bool) (p : Z) (rows : list A) :
  (List.length (dropRows marked p rows)
   + List.length (filter marked (map (fun k => (p + Z.of_nat k)%Z)
                                     (seq 0 (List.length rows)))))%nat
  = List.length rows.
Proof.
  revert p. induction rows as [| x rows IH]; intros p; [reflexivity |].
  cbn [dropRows List.length seq map filter].
  rewrite Z.add_0_r.
  specialize (IH (p + 1)).
  rewrite <- seq_shift, map_map.
  rewrite (map_ext (fun k => p + Z.of_nat (S k)) (fun k => p + 1 + Z.of_nat k))
    by (intros; lia).
  destruct (marked p); cbn [List.length]; lia.
Qed.

Lemma rowsWithout_length (A : Type) (positions : list Z) (rows : list A) :
  NoDup positions ->
  Forall (fun p => 1 <= p <= Z.of_nat (List.length rows)) positions ->
  (List.length (rowsWithout positions rows) + List.length positions)%nat
  = List.length rows.
Proof.
  intros Hdistinct Hpos. unfold rowsWithout.
  rewrite <- (dropRows_length (fun i => existsb (Z.eqb i) positions) 1 rows) at 1.
  f_equal. apply Permutation_length. apply NoDup_Permutation.
  - assumption.
  - apply NoDup_filter. apply Finite.Injective_map_NoDup; [| apply seq_NoDup].
    intros x y Hxy. lia.
  - intros p. rewrite filter_In, in_map_iff, existsb_exists. split.
    + intros Hp. split.
      * rewrite Forall_forall in Hpos. specialize (Hpos _ Hp).
        exists (Z.to_nat (p - 1)). split; [lia |]. apply in_seq. lia.
      * exists p. split; [assumption | apply Z.eqb_refl].
    + intros [_ (x & Hx & Heq)]. apply Z.eqb_eq in Heq. now subst.
Qed.

(** With every request going through, the marked rows go and no other. *)
Lemma deleteRows_all_succeed (A : Type) (positions : list Z) (rows : list A) :
  NoDup positions -> Forall (fun p => 1 <= p) positions ->
  deleteRows (fun _ => false) (groupConsecutiveRanges positions) rows
  = rowsWithout positions rows.
Proof.
  intros Hdistinct Hpos.
  rewrite (deleteRows_grouped _ rows Hdistinct Hpos). unfold rowsWithout.
  apply dropRows_ext. intros i _.
  rewrite <- groupConsecutiveRanges_inRangeb. f_equal.
  clear. induction (groupConsecutiveRanges positions) as [| r l IH];
    [reflexivity | simpl; now f_equal].
Qed.

(** X2: given the grouped ranges of pairwise distinct positions of the
    sheet, [deleteRows], when every request goes through, leaves exactly
    the rows at the other positions, in their order: one row fewer per
    position. *)
Theorem deleteRows_removes_marked_rows (A : Type) (positions : list Z)
    (rows : list A)
    (Hdistinct : NoDup positions)
    (Hinside : Forall (fun p => 1 <= p <= Z.of_nat (List.length rows)) positions) :
  deleteRows (fun _ => false) (groupConsecutiveRanges positions) rows
  = rowsWithout positions rows
  /\ (List.length (deleteRows (fun _ => false) (groupConsecutiveRanges positions) rows)
      + List.length positions)%nat
     = List.length rows.
Proof.
  assert (Hpos : Forall (fun p => 1 <= p) positions).
  { eapply Forall_impl; [| exact Hinside]. simpl. intros; lia. }
  pose proof (deleteRows_all_succeed rows Hdistinct Hpos) as Heq.
  split; [exact Heq |]. rewrite Heq. now apply rowsWithout_length.
Qed.

(** X3: when some requests fail, the rows of the ranges whose request
    failed stay, the rows of the other ranges go, and no row outside the
    ranges is touched. *)
Theorem deleteRows_partial_failure (A : Type) (fails : DeleteDimension -> bool)
    (positions : list Z) (rows : list A)
    (Hdistinct : NoDup positions)
    (Hinside : Forall (fun p => 1 <= p <= Z.of_nat (List.length rows)) positions) :
  deleteRows fails (groupConsecutiveRanges positions) rows
  = dropRows
      (fun i => existsb
                  (fun r => inRangeb i r && negb (fails (deleteRequest r)))
                  (groupConsecutiveRanges positions))
      1 rows.
Proof.
  assert (Hpos : Forall (fun p => 1 <= p) positions).
  { eapply Forall_impl; [| exact Hinside]. simpl. intros; lia. }
  rewrite (deleteRows_grouped fails rows Hdistinct Hpos).
  apply dropRows_ext. intros i _.
  induction (groupConsecutiveRanges positions) as [| r l IH]; [reflexivity |].
  cbn [filter existsb]. destruct (fails (deleteRequest r)); cbn [negb existsb].
  - rewrite andb_false_r. exact IH.
  - rewrite andb_true_r, IH. reflexivity.
Qed.

End DeleteMarkedRows.

(** X2 on ten rows with positions 5, 6, 2 and 9 marked. *)
Lemma deleteRows_removes_marked_rows_witness :
  (NoDup [5; 6; 2; 9]%Z
   /\ Forall (fun p => 1 <= p <= Z.of_nat (List.length [1; 2; 3; 4; 5; 6; 7; 8; 9; 10]%Z))%Z
             [5; 6; 2; 9]%Z)
  /\ Service.deleteRows (fun _ => false)
       (Mapper.groupConsecutiveRanges [5; 6; 2; 9]%Z)
       [1; 2; 3; 4; 5; 6; 7; 8; 9; 10]%Z
     = [1; 3; 4; 7; 8; 10]%Z.
Proof.
  assert (Hnd : NoDup [5; 6; 2; 9]%Z) by (repeat constructor; simpl; lia).
  assert (Hin : Forall (fun p => 1 <= p
                                 <= Z.of_nat (List.length [1; 2; 3; 4; 5; 6; 7; 8; 9; 10]%Z))%Z
                       [5; 6; 2; 9]%Z)
    by (repeat constructor; simpl; lia).
  split; [split; assumption |].
  exact (proj1 (@deleteRows_removes_marked_rows Z [5; 6; 2; 9]%Z
                  [1; 2; 3; 4; 5; 6; 7; 8; 9; 10]%Z Hnd Hin)).
Defined.

(** X3 on the same sheet, the request for rows 5 to 6 failing. *)
Lemma deleteRows_partial_failure_witness :
  (NoDup [5; 6; 2; 9]%Z
   /\ Forall (fun p => 1 <= p <= Z.of_nat (List.length [1; 2; 3; 4; 5; 6; 7; 8; 9; 10]%Z))%Z
             [5; 6; 2; 9]%Z)
  /\ Service.deleteRows (fun request => (Service.startIndex request =? 4)%Z)
       (Mapper.groupConsecutiveRanges [5; 6; 2; 9]%Z)
       [1; 2; 3; 4; 5; 6; 7; 8; 9; 10]%Z
     = [1; 3; 4; 5; 6; 7; 8; 10]%Z.
Proof.
  assert (Hnd : NoDup [5; 6; 2; 9]%Z) by (repeat constructor; simpl; lia).
  assert (Hin : Forall (fun p => 1 <= p
                                 <= Z.of_nat (List.length [1; 2; 3; 4; 5; 6; 7; 8; 9; 10]%Z))%Z
                       [5; 6; 2; 9]%Z)
    by (repeat constructor; simpl; lia).
  split; [split; assumption |].
  exact (@deleteRows_partial_failure Z
           (fun request => (Service.startIndex request =? 4)%Z)
           [5; 6; 2; 9]%Z [1; 2; 3; 4; 5; 6; 7; 8; 9; 10]%Z Hnd Hin).
Defined.

(** ** The retry executor: every run *)

Section RetryRuns.

Import Retry.

Variable T : Type.
Variable env : Env T.
Variable config : RetryConfig.

(** The jitter is floored: no delay is shorter than the base. *)
Lemma calculateRetryDelay_floor (attempt : nat) (r : Q) :
  (baseDelay config <= calculateRetryDelay attempt config r)%Q.
Proof. unfold calculateRetryDelay. apply Q.le_max_l. Qed.

(** What holds of a run of the loop entered at attempt [a] with [a - 1]
    delays slept so far. *)
Lemma retryLoop_run (remaining : nat) :
  forall a slept lastError,
    (remaining + a = maxRetries config + 1)%nat -> (0 < remaining)%nat ->
    List.length slept = pred a ->
    Forall (fun d => (baseDelay config <= d)%Q) slept ->
    let out := retryLoop config env remaining a slept lastError in
    (a < invocations out <= maxRetries config + 1)%nat
    /\ S (List.length (sleeps out)) = invocations out
    /\ Forall (fun d => (baseDelay config <= d)%Q) (sleeps out)
    /\ result out
       = match operation env (pred (invocations out)) with
         | inr value => inr value
         | inl e => inl (failure config (Some e))
         end
    /\ (forall i e, (a <= i < pred (invocations out))%nat ->
          operation env i = inl e -> shouldRetry e = true).
Proof.
  induction remaining as [| remaining IH]; intros a slept lastError Hsum Hpos Hlen Hfloor;
    [lia |].
  cbn [retryLoop].
  set (slept' := if (0 <? a)%nat then slept ++ [_] else slept).
  assert (Hlen' : List.length slept' = a).
  { unfold slept'. destruct a as [| a]; simpl; [assumption |].
    rewrite length_app. simpl in *. lia. }
  assert (Hfloor' : Forall (fun d => (baseDelay config <= d)%Q) slept').
  { unfold slept'. destruct (0 <? a)%nat; [| assumption].
    apply Forall_app. split; [assumption |].
    constructor; [apply calculateRetryDelay_floor | constructor]. }
  clearbody slept'.
  destruct (operation env a) as [e | value] eqn:Hop.
  - destruct (negb (shouldRetry e) || (maxRetries config <=? a)%nat) eqn:Hstop.
    + cbn [invocations sleeps result].
      replace (pred (a + 1)) with a by lia. rewrite Hop.
      split; [lia |]. split; [lia |]. split; [assumption |]. split; [reflexivity |].
      intros i e' Hi. lia.
    + apply orb_false_iff in Hstop. destruct Hstop as [Hretry Hle].
      apply negb_false_iff in Hretry. apply Nat.leb_gt in Hle.
      destruct (IH (a + 1)%nat slept' (Some e)) as (H1 & H2 & H3 & H4 & H5);
        [lia | lia | rewrite Hlen'; lia | assumption |].
      split; [lia |]. split; [assumption |]. split; [assumption |].
      split; [assumption |].
      intros i e' Hi Hopi.
      destruct (Nat.eq_dec i a) as [-> | Hne].
      * rewrite Hop in Hopi. injection Hopi as <-. assumption.
      * apply (H5 i e'); [lia | assumption].
  - cbn [invocations sleeps result].
    replace (pred (a + 1)) with a by lia. rewrite Hop.
    split; [lia |]. split; [lia |]. split; [assumption |]. split; [reflexivity |].
    intros i e' Hi. lia.
Qed.

(** X4: whatever the operation does, [retryOperation] calls it at least
    once and at most [maxRetries + 1] times, sleeps exactly once between
    two calls and never less than [baseDelay], goes on only after errors
    that [shouldRetry] accepts, and ends with the outcome of the last call:
    its value, or the error built from its rejection. *)
Theorem retryOperation_run :
  (1 <= invocations (retryOperation env config) <= maxRetries config + 1)%nat
  /\ S (List.length (sleeps (retryOperation env config)))
     = invocations (retryOperation env config)
  /\ Forall (fun d => (baseDelay config <= d)%Q) (sleeps (retryOperation env config))
  /\ result (retryOperation env config)
     = match operation env (pred (invocations (retryOperation env config))) with
       | inr value => inr value
       | inl e => inl (failure config (Some e))
       end
  /\ (forall i e, (i < pred (invocations (retryOperation env config)))%nat ->
        operation env i = inl e -> shouldRetry e = true).
Proof.
  unfold retryOperation.
  destruct (@retryLoop_run (maxRetries config + 1) 0%nat [] None)
    as (H1 & H2 & H3 & H4 & H5); [lia | lia | reflexivity | constructor |].
  split; [lia |]. split; [assumption |]. split; [assumption |].
  split; [assumption |].
  intros i e Hi. apply H5. lia.
Qed.

(** From attempt [a] on, the loop reaches the attempt [k] that resolves. *)
Lemma retryLoop_succeeds_at (k : nat) (value : T) :
  (k <= maxRetries config)%nat ->
  retriedBefore env k ->
  operation env k = inr value ->
  forall d a slept lastError, (a + d = k)%nat -> List.length slept = pred a ->
    let out := retryLoop config env (maxRetries config + 1 - a) a slept lastError in
    result out = inr value /\ invocations out = (k + 1)%nat
    /\ List.length (sleeps out) = k.
Proof.
  intros Hk Hbefore Hop.
  induction d as [| d IH]; intros a slept lastError Had Hlen.
  - assert (a = k) by lia. subst a.
    replace (maxRetries config + 1 - k)%nat with (S (maxRetries config - k)) by lia.
    cbn [retryLoop]. rewrite Hop. cbn [result invocations sleeps].
    split; [reflexivity |]. split; [reflexivity |].
    destruct k as [| k]; simpl; [assumption |].
    rewrite length_app. simpl in *. lia.
  - assert (Ha : (a < k)%nat) by lia.
    destruct (Hbefore a Ha) as (ea & Hopa & Hretry).
    replace (maxRetries config + 1 - a)%nat
      with (S (maxRetries config + 1 - (a + 1))) by lia.
    cbn [retryLoop]. rewrite Hopa, Hretry.
    assert (Hle : (maxRetries config <=? a)%nat = false) by (apply Nat.leb_gt; lia).
    rewrite Hle. cbn [negb orb]. apply IH; [lia |].
    destruct a as [| a]; simpl in *; [lia |].
    rewrite length_app. simpl. lia.
Qed.

(** X5: if attempt [k] (within the budget) resolves, the earlier attempts
    having rejected with errors that are retried, [retryOperation] returns
    that value after [k + 1] calls and [k] delays. *)
Theorem retryOperation_succeeds (k : nat) (value : T)
    (Hbudget : (k <= maxRetries config)%nat)
    (Hbefore : retriedBefore env k)
    (Hresolves : operation env k = inr value) :
  result (retryOperation env config) = inr value
  /\ invocations (retryOperation env config) = (k + 1)%nat
  /\ List.length (sleeps (retryOperation env config)) = k.
Proof.
  unfold retryOperation.
  replace (maxRetries config + 1)%nat with (maxRetries config + 1 - 0)%nat by lia.
  apply (@retryLoop_succeeds_at k value Hbudget Hbefore Hresolves k 0%nat [] None);
    reflexivity.
Qed.

(** X6: a rejection whose [code] is a string (a network code such as
    [ECONNRESET]), whose [status] is no retryable HTTP code and whose
    non-empty message names none of the retryable errors is not retried:
    the operation is called once and the failure is thrown.  The network
    codes are looked at only when the error has no message. *)
Theorem network_error_with_message_not_retried (e : JsError)
    (networkCode m : string)
    (Hcode : code e = Some (SStr networkCode))
    (Hstatus : isRetryableHttpCode (status e) = false)
    (Hmessage : message e = Some m)
    (Hnonempty : m <> ""%string)
    (Hwords : existsb (fun retryable => containsSubstring retryable (toUpperCase m))
                      retryableErrors = false)
    (Hrejects : operation env 0 = inl e) :
  shouldRetry e = false
  /\ invocations (retryOperation env config) = 1%nat
  /\ result (retryOperation env config) = inl (failure config (Some e)).
Proof.
  assert (Hno : shouldRetry e = false).
  { unfold shouldRetry. rewrite Hcode, Hstatus, Hmessage. cbn [isRetryableHttpCode].
    destruct m as [| c m']; [contradiction | exact Hwords]. }
  split; [exact Hno |].
  assert (Hbefore : retriedBefore env 0).
  { intros i Hi. exfalso. exact (Nat.nlt_0_r i Hi). }
  destruct (@retryLoop_fails_at T env config 0%nat e (Nat.le_0_l _) Hbefore Hrejects
              (or_introl Hno) 0%nat 0%nat [] None eq_refl) as [Hres Hinv].
  unfold retryOperation.
  replace (maxRetries config + 1)%nat with (maxRetries config + 1 - 0)%nat by lia.
  split; assumption.
Qed.

End RetryRuns.

(** X5 on two 503s followed by a success. *)
Lemma retryOperation_succeeds_witness :
  ((2 <= Retry.maxRetries Retry.DEFAULT_RETRY_CONFIG)%nat
   /\ Retry.retriedBefore (Retry.rejectsThenResolves 2 Retry.unavailable) 2
   /\ Retry.operation (Retry.rejectsThenResolves 2 Retry.unavailable) 2 = inr tt)
  /\ Retry.result
       (Retry.retryOperation (Retry.rejectsThenResolves 2 Retry.unavailable)
          Retry.DEFAULT_RETRY_CONFIG) = inr tt
  /\ Retry.invocations
       (Retry.retryOperation (Retry.rejectsThenResolves 2 Retry.unavailable)
          Retry.DEFAULT_RETRY_CONFIG) = 3%nat
  /\ List.length
       (Retry.sleeps
          (Retry.retryOperation (Retry.rejectsThenResolves 2 Retry.unavailable)
             Retry.DEFAULT_RETRY_CONFIG)) = 2%nat.
Proof.
  assert (Hbudget : (2 <= Retry.maxRetries Retry.DEFAULT_RETRY_CONFIG)%nat)
    by (simpl; repeat constructor).
  assert (Hbefore : Retry.retriedBefore (Retry.rejectsThenResolves 2 Retry.unavailable) 2).
  { intros i Hi. exists Retry.unavailable. split; [| reflexivity].
    destruct i as [| [| i]]; [reflexivity | reflexivity |].
    exfalso. apply Nat.succ_lt_mono, Nat.succ_lt_mono in Hi. exact (Nat.nlt_0_r i Hi). }
  split; [repeat split; assumption |].
  exact (@retryOperation_succeeds unit (Retry.rejectsThenResolves 2 Retry.unavailable)
           Retry.DEFAULT_RETRY_CONFIG 2%nat tt Hbudget Hbefore eq_refl).
Defined.

(** X6 on a socket reset. *)
Lemma network_error_with_message_not_retried_witness :
  (code Retry.connectionReset = Some (SStr "ECONNRESET")
   /\ Retry.isNetworkCode (code Retry.connectionReset) = true
   /\ Retry.operation (Retry.alwaysRejects Retry.connectionReset) 0
      = inl Retry.connectionReset)
  /\ Retry.shouldRetry Retry.connectionReset = false
  /\ Retry.invocations
       (Retry.retryOperation (Retry.alwaysRejects Retry.connectionReset)
          Retry.DEFAULT_RETRY_CONFIG) = 1%nat.
Proof.
  split; [repeat split; reflexivity |].
  assert (Hne : "read ECONNRESET"%string <> ""%string) by discriminate.
  destruct (@network_error_with_message_not_retried unit
              (Retry.alwaysRejects Retry.connectionReset) Retry.DEFAULT_RETRY_CONFIG
              Retry.connectionReset "ECONNRESET" "read ECONNRESET"
              eq_refl eq_refl eq_refl Hne eq_refl eq_refl) as (Hno & Hinv & _).
  split; assumption.
Defined.

(** ** The writer: lock discipline *)

Section LockDiscipline.

Import Mapper Writer.

Context {rt : JsRuntime}.

Variable lockFilePath : string.
Variable sheetName : string.
Variable dateFields : list string.

Open Scope Z_scope.

(** A lock that was taken is a lock file stamped with the clock's reading. *)
Lemma acquireLock_stamps (w w1 : World) :
  acquireLock lockFilePath sheetName w = (w1, inr tt) ->
  exists lockData, lockFile w1 = Some {| mtime := now w; contents := lockData |}.
Proof.
  unfold acquireLock. simpl. destruct (lockFile w) as [file |].
  - destruct (_ >? _); intros H; [| discriminate H].
    injection H as <-. eexists. reflexivity.
  - intros H. injection H as <-. eexists. reflexivity.
Qed.

(** X7: once a writer holds the lock, a writer that finds this lock file
    within 30 minutes of its acquisition fails with the contention error,
    leaves the file as it is and calls nothing on the store. *)
Theorem lock_excludes_second_writer (w w1 w2 : World)
    (Hheld : acquireLock lockFilePath sheetName w = (w1, inr tt))
    (Hfound : lockFile w2 = lockFile w1)
    (Hrecent : now w2 - now w <= 30 * 60 * 1000) :
  exists w3,
    acquireLock lockFilePath sheetName w2
    = (w3, inl (contention lockFilePath (now w2 - now w)))
    /\ lockFile w3 = lockFile w1
    /\ storeCalls w3 = storeCalls w2.
Proof.
  destruct (@acquireLock_stamps w w1 Hheld) as [lockData Hlock].
  rewrite Hlock in Hfound.
  unfold acquireLock. simpl. rewrite Hfound. simpl.
  assert (Hle : (now w2 - now w >? 1800000) = false).
  { rewrite Z.gtb_ltb. apply Z.ltb_ge. lia. }
  rewrite Hle. eexists. split; [reflexivity |]. simpl.
  split; [congruence | reflexivity].
Qed.

(** X8: a real run that cannot take the lock stops there: the error is the
    one of the acquisition, the lock file of the other writer stays and
    the store is not called.  A real run that took the lock has unlinked
    it when it ends, whether it returns or throws, the unlink being the
    last thing it does. *)
Theorem writeData_lock_discipline (fullRefresh : bool) (w : World) :
  (forall w1 e,
     acquireLock lockFilePath sheetName w = (w1, inl e) ->
     writeData fullRefresh false lockFilePath sheetName dateFields w = (w1, inl e)
     /\ lockFile w1 = lockFile w
     /\ storeCalls w1 = storeCalls w)
  /\ (forall w1,
        acquireLock lockFilePath sheetName w = (w1, inr tt) ->
        lockFile (fst (writeData fullRefresh false lockFilePath sheetName dateFields w))
        = None
        /\ exists calls,
             fsCalls (fst (writeData fullRefresh false lockFilePath sheetName
                             dateFields w))
             = calls ++ [FsUnlink]).
Proof.
  split.
  - intros w1 e Hacq.
    split; [| split].
    + unfold writeData. simpl negb. unfold whenM at 1.
      unfold bind at 1. rewrite Hacq. reflexivity.
    + revert Hacq. unfold acquireLock. simpl. destruct (lockFile w) as [file |] eqn:Hl.
      * destruct (_ >? _); intros H; [discriminate H |].
        injection H as <- _. simpl. assumption.
      * intros H. discriminate H.
    + now apply (acquireLock_frame _ _ _ Hacq).
  - intros w1 Hacq.
    assert (Hend : exists w2 r,
               writeData fullRefresh false lockFilePath sheetName dateFields w
               = (withLockFile None (logFs FsUnlink w2), r)).
    { unfold writeData. simpl negb. unfold whenM.
      unfold bind at 1. rewrite Hacq. unfold tryFinally.
      destruct (bind loadData _ w1) as [w2 r]. unfold releaseLock.
      exists w2, r. reflexivity. }
    destruct Hend as (w2 & r & ->).
    split; [reflexivity |]. simpl. eexists. reflexivity.
Qed.

End LockDiscipline.

(** X7 on the example clock: a second writer five minutes later. *)
Lemma lock_excludes_second_writer_witness :
  exists w1 w2 w3,
    (Writer.acquireLock "lock" "Sheet1" (Writer.exampleWorld [] [] None) = (w1, inr tt)
     /\ Writer.lockFile w2 = Writer.lockFile w1
     /\ (Writer.now w2 - Writer.now (Writer.exampleWorld [] [] None)
         <= 30 * 60 * 1000)%Z)
    /\ Writer.acquireLock "lock" "Sheet1" w2
       = (w3, inl (newError "Another writer process is running (lock age: 300s). Please wait or remove lock"))
    /\ Writer.lockFile w3 = Writer.lockFile w1.
Proof.
  pose (w := Writer.exampleWorld [] [] None).
  pose (w1 := fst (Writer.acquireLock "lock" "Sheet1" w)).
  pose (w2 := Writer.mkWorld 1000300000 99 (Writer.lockFile w1) (inr []) (inr []) 0
                (fun _ => None) [] []).
  assert (Hheld : Writer.acquireLock "lock" "Sheet1" w = (w1, inr tt)) by reflexivity.
  assert (Hfound : Writer.lockFile w2 = Writer.lockFile w1) by reflexivity.
  assert (Hrecent : (Writer.now w2 - Writer.now w <= 30 * 60 * 1000)%Z)
    by (simpl; discriminate).
  destruct (@lock_excludes_second_writer "lock" "Sheet1" w w1 w2 Hheld Hfound Hrecent)
    as (w3 & Hrun & Hlock & _).
  exists w1, w2, w3. split; [split; [exact Hheld | split; assumption] |].
  split; [exact Hrun | exact Hlock].
Defined.

(** ** The mapper: fields and dates of a batch *)

Section BatchFields.

Import Mapper.

Lemma setAdd_NoDup (fields : list string) (x : string) :
  NoDup fields -> NoDup (setAdd fields x).
Proof.
  intros Hnd. unfold setAdd. destruct (includes fields x) eqn:Hinc; [assumption |].
  apply includes_not_In in Hinc. apply NoDup_append; [assumption | | ].
  - constructor; [simpl; tauto | constructor].
  - intros y Hy [<- | []]. contradiction.
Qed.

Lemma setAdd_In (fields : list string) (x f : string) :
  In f (setAdd fields x) <-> In f fields \/ f = x.
Proof.
  unfold setAdd. destruct (includes fields x) eqn:Hinc.
  - apply includes_In in Hinc. split; [tauto |]. intros [H | ->]; assumption.
  - rewrite in_app_iff. simpl. split; [intros [H | [H | []]]; auto | intros [H | H]; auto].
Qed.

(** The keys of one record, added one by one. *)
Lemma collectKeys_is_merge (keys fields : list string) :
  fold_left
    (fun fields key =>
       if negb (String.eqb key "__rowNumber") then setAdd fields key else fields)
    keys fields
  = mergeColumns fields
      (filter (fun key => negb (String.eqb key "__rowNumber")) keys).
Proof.
  unfold mergeColumns. revert fields.
  induction keys as [| key keys IH]; intros fields; [reflexivity |].
  cbn [fold_left filter].
  destruct (negb (String.eqb key "__rowNumber")); cbn [fold_left]; apply IH.
Qed.

Lemma collectAllFields_snoc (records : list JsRecord) (record : JsRecord) :
  collectAllFields (records ++ [record])
  = mergeColumns (collectAllFields records)
      (filter (fun key => negb (String.eqb key "__rowNumber")) (map fst record)).
Proof.
  unfold collectAllFields. rewrite fold_left_app. cbn [fold_left].
  apply collectKeys_is_merge.
Qed.

(** X9: the fields collected from a batch are pairwise distinct, they are
    exactly the keys of its records other than [__rowNumber], and a further
    record only appends, after the fields collected so far, those of its
    keys that are new (so columns come in order of first appearance). *)
Theorem collectAllFields_spec (records : list JsRecord) :
  NoDup (collectAllFields records)
  /\ (forall f, In f (collectAllFields records)
                <-> f <> "__rowNumber"%string
                    /\ exists record, In record records /\ In f (map fst record))
  /\ forall record,
       collectAllFields (records ++ [record])
       = mergeColumns (collectAllFields records)
           (filter (fun key => negb (String.eqb key "__rowNumber")) (map fst record)).
Proof.
  split; [| split; [| intros record; apply collectAllFields_snoc]].
  - induction records as [| record records IH] using rev_ind; [constructor |].
    rewrite collectAllFields_snoc.
    destruct (mergeColumns_appends
                (filter (fun key => negb (String.eqb key "__rowNumber")) (map fst record))
                (collectAllFields records)) as (app & -> & _ & Hnd & Hin).
    apply NoDup_append; [assumption | assumption |].
    intros x Hx Happ. apply Hin in Happ. tauto.
  - induction records as [| record records IH] using rev_ind; intros f.
    + simpl. split; [tauto | intros [_ (r & [] & _)]].
    + rewrite collectAllFields_snoc.
      destruct (mergeColumns_appends
                  (filter (fun key => negb (String.eqb key "__rowNumber")) (map fst record))
                  (collectAllFields records)) as (app & -> & _ & _ & Hin).
      rewrite in_app_iff, Hin, IH, filter_In, negb_true_iff, String.eqb_neq.
      split.
      * intros [[Hne (r & Hr & Hf)] | [[Hf Hne] _]].
        -- split; [assumption |]. exists r. split; [| assumption].
           apply in_or_app. now left.
        -- split; [assumption |]. exists record. split; [| assumption].
           apply in_or_app. right. now left.
      * intros [Hne (r & Hr & Hf)].
        apply in_app_or in Hr. destruct Hr as [Hr | [<- | []]].
        -- left. split; [assumption |]. now exists r.
        -- destruct (in_dec string_dec f (collectAllFields records)) as [Hold | Hnew].
           ++ left. now apply IH.
           ++ right. split; [tauto |]. intros H. apply Hnew. now apply IH.
Qed.

Context {rt : JsRuntime}.

Variable dateFields : list string.

(** *** The default sort of strings *)

Lemma insertString_perm (x : string) (l : list string) :
  Permutation (x :: l) (insertString x l).
Proof.
  induction l as [| y l IH]; simpl; [reflexivity |].
  destruct (String.leb x y); [reflexivity |].
  rewrite perm_swap. now constructor.
Qed.

Lemma sortStrings_perm (l : list string) : Permutation l (sortStrings l).
Proof.
  induction l as [| x l IH]; simpl; [constructor |].
  rewrite <- insertString_perm. now constructor.
Qed.

Lemma insertString_sorted (x : string) (l : list string) :
  Sorted (fun a b => String.leb a b = true) l ->
  Sorted (fun a b => String.leb a b = true) (insertString x l).
Proof.
  induction 1 as [| y l Hs IH Hhd]; simpl.
  - repeat constructor.
  - destruct (String.leb x y) eqn:Hxy.
    + constructor; [now constructor | now constructor].
    + assert (Hyx : String.leb y x = true)
        by (destruct (String.leb_total x y); congruence).
      constructor; [assumption |].
      destruct l as [| z l]; simpl.
      * now constructor.
      * destruct (String.leb x z); constructor; [assumption |].
        now inversion Hhd.
Qed.

Lemma sortStrings_sorted (l : list string) :
  Sorted (fun a b => String.leb a b = true) (sortStrings l).
Proof.
  induction l as [| x l IH]; simpl; [constructor | now apply insertString_sorted].
Qed.

(** *** The dates of a batch *)

Lemma normalizeDate_empty : normalizeDate "" = ""%string.
Proof. reflexivity. Qed.

(** X10: the dates extracted from a batch come in ascending order without
    repetition, none of them empty, and they are exactly the normalised
    dates of the records whose date normalises. *)
Theorem extractDatesFromRecords_spec (records : list JsRecord) :
  Sorted (fun a b => String.leb a b = true) (extractDatesFromRecords dateFields records)
  /\ NoDup (extractDatesFromRecords dateFields records)
  /\ forall d,
       In d (extractDatesFromRecords dateFields records)
       <-> d <> ""%string
           /\ exists record,
                In record records
                /\ normalizeDate (getRecordDate dateFields record) = d.
Proof.
  unfold extractDatesFromRecords.
  set (step := fun (dates : list string) (record : JsRecord) =>
                 let date := getRecordDate dateFields record in
                 if String.eqb date "" then dates
                 else
                   let normalizedDate := normalizeDate date in
                   if String.eqb normalizedDate "" then dates
                   else setAdd dates normalizedDate).
  assert (Hfold : forall recs acc,
             NoDup acc ->
             NoDup (fold_left step recs acc)
             /\ forall d, In d (fold_left step recs acc)
                          <-> In d acc
                              \/ (d <> ""%string
                                  /\ exists record,
                                       In record recs
                                       /\ normalizeDate (getRecordDate dateFields record)
                                          = d)).
  { induction recs as [| record recs IH]; intros acc Hacc; cbn [fold_left].
    - split; [assumption |]. intros d. split; [tauto |].
      intros [H | [_ (r & [] & _)]]. assumption.
    - assert (Hstep : NoDup (step acc record)
                      /\ forall d, In d (step acc record)
                                   <-> In d acc
                                       \/ (d <> ""%string
                                           /\ normalizeDate
                                                (getRecordDate dateFields record) = d)).
      { unfold step. cbv zeta.
        destruct (String.eqb (getRecordDate dateFields record) "") eqn:Hdate.
        - apply String.eqb_eq in Hdate. rewrite Hdate, normalizeDate_empty.
          split; [assumption |]. intros d. split; [tauto |].
          intros [H | [Hne Heq]]; [assumption | congruence].
        - destruct (String.eqb (normalizeDate (getRecordDate dateFields record)) "")
            eqn:Hnorm.
          + apply String.eqb_eq in Hnorm. rewrite Hnorm.
            split; [assumption |]. intros d. split; [tauto |].
            intros [H | [Hne Heq]]; [assumption | congruence].
          + apply String.eqb_neq in Hnorm.
            split; [now apply setAdd_NoDup |].
            intros d. rewrite setAdd_In. split.
            * intros [H | ->]; [now left | right; split; [assumption | reflexivity]].
            * intros [H | [_ Heq]]; [now left | right; now symmetry]. }
      destruct Hstep as [Hnd Hin].
      destruct (IH (step acc record) Hnd) as [Hnd' Hin'].
      split; [assumption |].
      intros d. rewrite Hin', Hin. split.
      + intros [[H | [Hne Heq]] | [Hne (r & Hr & Heq)]].
        * now left.
        * right. split; [assumption |]. exists record. split; [now left | assumption].
        * right. split; [assumption |]. exists r. split; [now right | assumption].
      + intros [H | [Hne (r & [<- | Hr] & Heq)]].
        * left. now left.
        * left. right. split; assumption.
        * right. split; [assumption |]. now exists r. }
  destruct (Hfold records [] (NoDup_nil _)) as [Hnd Hin].
  split; [apply sortStrings_sorted |].
  split; [apply (Permutation_NoDup (sortStrings_perm _) Hnd) |].
  intros d.
  assert (Hperm : In d (sortStrings (fold_left step records []))
                  <-> In d (fold_left step records [])).
  { split; apply Permutation_in;
      [apply Permutation_sym |]; apply sortStrings_perm. }
  rewrite Hperm, Hin. simpl. tauto.
Qed.

End BatchFields.

(** ** The mapper: reading the sheet back *)

Section StoredRows.

Import Mapper.

Open Scope Z_scope.

(** *** Objects as key lists *)

Lemma arrayIndex_canonical (key : string) (n : Z) :
  arrayIndex key = Some n -> key = string_of_Z n /\ 0 <= n <= 4294967294.
Proof.
  unfold arrayIndex.
  destruct (NilZero.uint_of_string key) as [d |]; [| discriminate].
  cbv zeta. destruct (_ && _) eqn:Hcheck; [| discriminate].
  intros H. injection H as <-.
  apply andb_true_iff in Hcheck. destruct Hcheck as [Hle Heq].
  apply Z.leb_le in Hle. apply String.eqb_eq in Heq.
  split; [now symmetry |]. split; [| exact Hle].
  unfold Z.of_uint. apply N2Z.is_nonneg.
Qed.

Lemma getField_app (front back : JsRecord) (key : string) :
  getField (front ++ back) key
  = match getField front key with
    | Some v => Some v
    | None => getField back key
    end.
Proof.
  induction front as [| [k old] front IH]; [reflexivity |].
  cbn [List.app getField]. destruct (String.eqb k key); [reflexivity | exact IH].
Qed.

Lemma getField_In (record : JsRecord) (key : string) :
  getField record key <> None <-> In key (map fst record).
Proof.
  induction record as [| [k old] record IH]; cbn [getField map fst In].
  - split; [congruence | tauto].
  - destruct (String.eqb k key) eqn:Hk.
    + apply String.eqb_eq in Hk. split; [now left | discriminate].
    + apply String.eqb_neq in Hk. rewrite IH. tauto.
Qed.

Lemma getField_replaceField_same (record : JsRecord) (key : string) (v : JsonValue) :
  getField record key <> None -> getField (replaceField record key v) key = Some v.
Proof.
  induction record as [| [k old] record IH]; cbn [getField replaceField];
    [congruence |].
  destruct (String.eqb k key) eqn:Hk; cbn [getField]; rewrite Hk;
    [reflexivity | exact IH].
Qed.

Lemma getField_replaceField_other (record : JsRecord) (key key' : string)
    (v : JsonValue) :
  key <> key' -> getField (replaceField record key v) key' = getField record key'.
Proof.
  intros Hne. induction record as [| [k old] record IH]; [reflexivity |].
  cbn [getField replaceField]. destruct (String.eqb k key) eqn:Hk; cbn [getField].
  - apply String.eqb_eq in Hk. subst k.
    apply String.eqb_neq in Hne. now rewrite Hne.
  - destruct (String.eqb k key'); [reflexivity | exact IH].
Qed.

Lemma replaceField_keys (record : JsRecord) (key : string) (v : JsonValue) :
  map fst (replaceField record key v) = map fst record.
Proof.
  induction record as [| [k old] record IH]; [reflexivity |].
  cbn [replaceField]. destruct (String.eqb k key); cbn [map fst]; [reflexivity |].
  now rewrite IH.
Qed.

Lemma getField_defineIndex_same (record : JsRecord) (n : Z) (key : string)
    (v : JsonValue) :
  getField record key = None -> getField (defineIndex record n key v) key = Some v.
Proof.
  induction record as [| [k old] record IH]; cbn [getField defineIndex]; intros Hnone.
  - now rewrite String.eqb_refl.
  - destruct (String.eqb k key) eqn:Hk; [discriminate |].
    destruct (arrayIndex k) as [m |]; [destruct (m <? n) |]; cbn [getField];
      rewrite ?Hk, ?String.eqb_refl; auto.
Qed.

Lemma getField_defineIndex_other (record : JsRecord) (n : Z) (key key' : string)
    (v : JsonValue) :
  key <> key' -> getField (defineIndex record n key v) key' = getField record key'.
Proof.
  intros Hne. apply String.eqb_neq in Hne.
  induction record as [| [k old] record IH]; cbn [getField defineIndex].
  - now rewrite Hne.
  - destruct (arrayIndex k) as [m |]; [destruct (m <? n) |]; cbn [getField];
      rewrite ?Hne; try reflexivity.
    destruct (String.eqb k key'); [reflexivity | exact IH].
Qed.

Lemma getField_setField_same (record : JsRecord) (key : string) (v : JsonValue) :
  key <> "__proto__"%string -> getField (setField record key v) key = Some v.
Proof.
  intros Hproto. apply String.eqb_neq in Hproto. unfold setField. rewrite Hproto.
  destruct (getField record key) as [old |] eqn:Hold.
  - apply getField_replaceField_same. congruence.
  - destruct (arrayIndex key) as [n |].
    + now apply getField_defineIndex_same.
    + rewrite getField_app, Hold. cbn [getField]. now rewrite String.eqb_refl.
Qed.

Lemma getField_setField_other (record : JsRecord) (key key' : string) (v : JsonValue) :
  key <> key' -> getField (setField record key v) key' = getField record key'.
Proof.
  intros Hne. unfold setField.
  destruct (String.eqb key "__proto__"); [reflexivity |].
  destruct (getField record key) as [old |].
  - now apply getField_replaceField_other.
  - destruct (arrayIndex key) as [n |].
    + now apply getField_defineIndex_other.
    + rewrite getField_app. cbn [getField].
      apply String.eqb_neq in Hne. rewrite Hne. now destruct (getField record key').
Qed.

(** A new array index among the keys: the indices stay in ascending
    order, in front of the other keys. *)
Lemma defineIndex_keys (others : list string) (n : Z) (key : string) (v : JsonValue)
    (Hkey : arrayIndex key = Some n)
    (Hothers : Forall (fun k => arrayIndex k = None) others)
    (indexKeys : list string) (indices : list Z) :
  Forall2 (fun k m => arrayIndex k = Some m) indexKeys indices ->
  StronglySorted Z.lt indices ->
  ~ In n indices ->
  forall record,
    map fst record = indexKeys ++ others ->
    exists indexKeys' indices',
      map fst (defineIndex record n key v) = indexKeys' ++ others
      /\ Forall2 (fun k m => arrayIndex k = Some m) indexKeys' indices'
      /\ StronglySorted Z.lt indices'
      /\ Permutation indexKeys' (key :: indexKeys)
      /\ Permutation indices' (n :: indices).
Proof.
  induction 1 as [| k m indexKeys indices Hk Hall IH]; intros Hsorted Hnew record Hkeys.
  - exists [key], [n].
    assert (Hfront : map fst (defineIndex record n key v) = [key] ++ others).
    { destruct record as [| [k old] record]; cbn [List.app] in *.
      - now rewrite <- Hkeys.
      - cbn [map fst] in Hkeys. cbn [defineIndex].
        assert (Hnone : arrayIndex k = None).
        { rewrite <- Hkeys in Hothers. now inversion Hothers. }
        rewrite Hnone. cbn [map fst]. now rewrite Hkeys. }
    split; [exact Hfront |]. split; [now repeat constructor |].
    split; [repeat constructor |]. split; reflexivity.
  - destruct record as [| [k' old] record]; [discriminate Hkeys |].
    cbn [map fst List.app] in Hkeys. injection Hkeys as -> Hrest.
    cbn [defineIndex]. rewrite Hk.
    apply StronglySorted_inv in Hsorted. destruct Hsorted as [Hsorted Hbelow].
    rewrite Forall_forall in Hbelow.
    destruct (m <? n) eqn:Hmn.
    + apply Z.ltb_lt in Hmn.
      destruct (IH Hsorted (fun Hin => Hnew (or_intror Hin)) record Hrest)
        as (indexKeys' & indices' & Hkeys' & Hall' & Hsorted' & Hperm & Hperm').
      exists (k :: indexKeys'), (m :: indices').
      split; [cbn [map fst List.app]; now rewrite Hkeys' |].
      split; [now constructor |]. split.
      * constructor; [assumption |]. apply Forall_forall. intros x Hx.
        apply (Permutation_in _ Hperm') in Hx. destruct Hx as [<- | Hx]; auto.
      * split.
        -- rewrite Hperm. apply perm_swap.
        -- rewrite Hperm'. apply perm_swap.
    + apply Z.ltb_ge in Hmn.
      assert (Hlt : n < m) by (cbn [In] in Hnew; lia).
      exists (key :: k :: indexKeys), (n :: m :: indices).
      split; [cbn [map fst List.app]; now rewrite Hrest |].
      split; [now repeat constructor |]. split; [| split; reflexivity].
      constructor.
      * constructor; [assumption |]. now apply Forall_forall.
      * constructor; [assumption |]. apply Forall_forall. intros x Hx.
        specialize (Hbelow x Hx). lia.
Qed.

(** *** The [headers.forEach] loop *)

Lemma rowToRecord_fold (row : list string) (headers : list string) :
  forall (record : JsRecord) (index : nat),
    snd (fold_left
           (fun (acc : JsRecord * nat) header =>
              let (record, index) := acc in
              (setField record header (JString (readCell row index)), S index))
           headers (record, index))
    = (index + List.length headers)%nat.
Proof.
  induction headers as [| header headers IH]; intros record index; cbn [fold_left].
  - cbn. lia.
  - rewrite IH. cbn [List.length]. lia.
Qed.

Lemma rowToRecord_snoc (row : list string) (headers : list string) (header : string) :
  rowToRecord row (headers ++ [header])
  = setField (rowToRecord row headers) header
      (JString (readCell row (List.length headers))).
Proof.
  unfold rowToRecord. rewrite fold_left_app. cbn [fold_left].
  set (loop := fold_left _ headers _).
  assert (Hindex : snd loop = List.length headers)
    by apply (rowToRecord_fold row headers [] 0%nat).
  destruct loop as [record index]. cbn [fst snd] in *. now subst index.
Qed.

Lemma arrayIndex_proto : arrayIndex "__proto__" = None.
Proof. reflexivity. Qed.

(** What the loop has built after the headers [headers]. *)
Lemma rowToRecord_loop (row : list string) (headers : list string) :
  NoDup headers ->
  (exists indexKeys indices,
     map fst (rowToRecord row headers)
     = indexKeys
       ++ filter (fun h => negb (isArrayIndex h) && negb (String.eqb h "__proto__"))
                 headers
     /\ Forall2 (fun k m => arrayIndex k = Some m) indexKeys indices
     /\ StronglySorted Z.lt indices
     /\ Permutation indexKeys (filter isArrayIndex headers))
  /\ (forall i h,
        nth_error headers i = Some h -> h <> "__proto__"%string ->
        getField (rowToRecord row headers) h = Some (JString (readCell row i)))
  /\ (forall k, ~ In k headers -> getField (rowToRecord row headers) k = None).
Proof.
  induction headers as [| header headers IH] using rev_ind; intros Hnd.
  - split; [| split].
    + exists [], []. cbn. split; [reflexivity |]. split; [constructor |].
      split; constructor.
    + intros [| i] h Hi; discriminate Hi.
    + reflexivity.
  - assert (Hnd' : NoDup headers /\ ~ In header headers).
    { apply NoDup_remove with (l' := []) in Hnd. rewrite app_nil_r in Hnd.
      destruct Hnd as [Hnd Hnew]. split; [assumption |].
      intros Hin. apply Hnew. assumption. }
    destruct Hnd' as [Hnd' Hnew].
    destruct (IH Hnd') as ((indexKeys & indices & Hkeys & Hall & Hsorted & Hperm)
                           & Hget & Hfresh).
    rewrite rowToRecord_snoc.
    set (v := JString (readCell row (List.length headers))).
    split; [| split].
    + rewrite !filter_app. cbn [filter]. unfold setField.
      destruct (String.eqb header "__proto__") eqn:Hproto.
      * apply String.eqb_eq in Hproto. subst header.
        replace (isArrayIndex "__proto__") with false by reflexivity.
        cbn [negb andb]. rewrite !app_nil_r. now exists indexKeys, indices.
      * rewrite (Hfresh header Hnew).
        destruct (arrayIndex header) as [n |] eqn:Hindex.
        -- replace (isArrayIndex header) with true
             by (unfold isArrayIndex; now rewrite Hindex).
           cbn [negb andb]. rewrite !app_nil_r.
           assert (Hothers : Forall (fun k => arrayIndex k = None)
                     (filter (fun h => negb (isArrayIndex h)
                                       && negb (String.eqb h "__proto__")) headers)).
           { apply Forall_forall. intros k Hk. apply filter_In in Hk.
             destruct Hk as [_ Hk]. apply andb_true_iff in Hk. destruct Hk as [Hk _].
             unfold isArrayIndex in Hk. now destruct (arrayIndex k). }
           assert (Hnot : ~ In n indices).
           { intros Hin.
             assert (Hhas : exists k, In k indexKeys /\ arrayIndex k = Some n).
             { clear - Hall Hin. induction Hall as [| k m ks ms Hk Hall IH].
               - destruct Hin.
               - destruct Hin as [-> | Hin].
                 + exists k. split; [now left | assumption].
                 + destruct (IH Hin) as (k' & Hk' & Hn). exists k'.
                   split; [now right | assumption]. }
             destruct Hhas as (k & Hk & Hn).
             apply arrayIndex_canonical in Hn. apply arrayIndex_canonical in Hindex.
             destruct Hn as [-> _]. destruct Hindex as [Hheader _].
             apply Hnew. rewrite Hheader.
             apply (Permutation_in _ Hperm) in Hk. now apply filter_In in Hk. }
           destruct (@defineIndex_keys _ n header v Hindex Hothers indexKeys indices
                       Hall Hsorted Hnot (rowToRecord row headers) Hkeys)
             as (indexKeys' & indices' & Hkeys' & Hall' & Hsorted' & Hperm' & _).
           exists indexKeys', indices'. split; [exact Hkeys' |].
           split; [exact Hall' |]. split; [exact Hsorted' |].
           rewrite Hperm', Hperm. apply Permutation_cons_append.
        -- replace (isArrayIndex header) with false
             by (unfold isArrayIndex; now rewrite Hindex).
           cbn [negb andb].
           exists indexKeys, indices. rewrite map_app, Hkeys, <- app_assoc.
           split; [reflexivity |]. split; [exact Hall |]. split; [exact Hsorted |].
           now rewrite app_nil_r.
    + intros i h Hi Hproto.
      destruct (Nat.lt_ge_cases i (List.length headers)) as [Hlt | Hge].
      * rewrite nth_error_app1 in Hi by assumption.
        rewrite getField_setField_other.
        -- now apply Hget.
        -- intros ->. apply Hnew. eapply nth_error_In. exact Hi.
      * rewrite nth_error_app2 in Hi by assumption.
        destruct (i - List.length headers)%nat as [| d] eqn:Hd;
          [| destruct d; discriminate Hi].
        injection Hi as <-. rewrite getField_setField_same by assumption.
        unfold v. do 3 f_equal. lia.
    + intros k Hk. rewrite in_app_iff in Hk.
      rewrite getField_setField_other.
      * apply Hfresh. tauto.
      * intros ->. apply Hk. right. now left.
Qed.

(** X11: with pairwise distinct headers, the record read from a row has
    as its keys the headers other than [__proto__]: first those that are
    array indices, in ascending numeric order, then the others in the
    order of the header (so all of them in that order when no header is an
    array index); under each header other than [__proto__] it holds the
    cell of the same column, a leading apostrophe removed, and a row
    shorter than the header gives empty strings for the missing cells. *)
Theorem rowToRecord_lookup (row headers : list string)
    (Hheaders : NoDup headers) :
  (exists indices,
     map fst (rowToRecord row headers)
     = map string_of_Z indices
       ++ filter (fun h => negb (isArrayIndex h) && negb (String.eqb h "__proto__"))
                 headers
     /\ StronglySorted Z.lt indices
     /\ Forall (fun n => 0 <= n <= 4294967294) indices
     /\ Permutation (map string_of_Z indices) (filter isArrayIndex headers))
  /\ ((forall h, In h headers -> isArrayIndex h = false) ->
      map fst (rowToRecord row headers)
      = filter (fun h => negb (String.eqb h "__proto__")) headers)
  /\ forall i h,
       nth_error headers i = Some h -> h <> "__proto__"%string ->
       getField (rowToRecord row headers) h = Some (JString (readCell row i))
       /\ ((List.length row <= i)%nat -> readCell row i = ""%string).
Proof.
  destruct (@rowToRecord_loop row headers Hheaders)
    as ((indexKeys & indices & Hkeys & Hall & Hsorted & Hperm) & Hget & _).
  assert (Hcanonical : indexKeys = map string_of_Z indices
                       /\ Forall (fun n => 0 <= n <= 4294967294) indices).
  { clear - Hall. induction Hall as [| k m ks ms Hk Hall [IH1 IH2]].
    - split; [reflexivity | constructor].
    - apply arrayIndex_canonical in Hk. destruct Hk as [-> Hrange].
      cbn [map]. split; [now rewrite IH1 | now constructor]. }
  destruct Hcanonical as [-> Hrange].
  split; [| split].
  - exists indices. repeat split; assumption.
  - intros Hplain.
    assert (Hnone : filter isArrayIndex headers = []).
    { clear - Hplain. induction headers as [| h headers IH]; [reflexivity |].
      cbn [filter]. rewrite (Hplain h) by now left.
      apply IH. intros k Hk. apply Hplain. now right. }
    rewrite Hnone in Hperm. apply Permutation_sym, Permutation_nil in Hperm.
    rewrite Hkeys, Hperm. cbn [List.app].
    apply filter_ext_in. intros h Hh. now rewrite (Hplain h Hh).
  - intros i h Hi Hproto. split; [exact (Hget i h Hi Hproto) |].
    intros Hshort. unfold readCell. now rewrite nth_overflow.
Qed.

(** *** Row numbers *)

Lemma rowsLoop_spec (headers : list string) (rest : list (list string)) :
  forall i,
    exists positions,
      map rowNumber (rowsLoop rest i headers) = map Some positions
      /\ StronglySorted Z.lt positions
      /\ (forall p, In p positions
                    <-> i + 1 <= p
                        /\ exists row,
                             nth_error rest (Z.to_nat (p - i - 1)) = Some row
                             /\ isBlankRow row = false)
      /\ map data (rowsLoop rest i headers)
         = map (fun p => rowToRecord (nth (Z.to_nat (p - i - 1)) rest []) headers)
               positions.
Proof.
  induction rest as [| row rest IH]; intros i.
  - exists []. split; [reflexivity |]. split; [constructor |].
    split; [| reflexivity].
    intros p. split; [intros [] |].
    intros [_ (row & Hrow & _)]. destruct (Z.to_nat (p - i - 1)); discriminate Hrow.
  - destruct (IH (i + 1)) as (positions & Hnum & Hsorted & Hin & Hdata).
    assert (Hshift : forall p, i + 2 <= p ->
               Z.to_nat (p - i - 1) = S (Z.to_nat (p - (i + 1) - 1))) by (intros; lia).
    assert (Hlow : Forall (fun p => i + 2 <= p) positions).
    { apply Forall_forall. intros p Hp. apply Hin in Hp. lia. }
    assert (Hdata' : map data (rowsLoop rest (i + 1) headers)
                     = map (fun p => rowToRecord
                                       (nth (Z.to_nat (p - i - 1)) (row :: rest) [])
                                       headers) positions).
    { rewrite Hdata. apply map_ext_in. intros p Hp.
      rewrite Forall_forall in Hlow. rewrite (Hshift p (Hlow p Hp)). reflexivity. }
    assert (Hin' : forall p, In p positions
                             <-> i + 2 <= p
                                 /\ exists r,
                                      nth_error (row :: rest) (Z.to_nat (p - i - 1))
                                      = Some r
                                      /\ isBlankRow r = false).
    { intros p. rewrite Hin. split.
      - intros [Hp (r & Hr & Hb)]. split; [lia |]. exists r.
        rewrite (Hshift p) by lia. split; assumption.
      - intros [Hp (r & Hr & Hb)]. split; [lia |]. exists r.
        rewrite (Hshift p) in Hr by lia. split; assumption. }
    cbn [rowsLoop]. destruct (isBlankRow row) eqn:Hblank.
    + exists positions. split; [assumption |]. split; [assumption |].
      split; [| assumption].
      intros p. rewrite Hin'. split.
      * intros [Hp Hex]. split; [lia | assumption].
      * intros [Hp (r & Hr & Hb)].
        destruct (Z.eq_dec p (i + 1)) as [-> | Hne].
        -- replace (Z.to_nat (i + 1 - i - 1)) with 0%nat in Hr by lia.
           simpl in Hr. injection Hr as <-. congruence.
        -- split; [lia |]. now exists r.
    + exists ((i + 1) :: positions). cbn [map rowNumber data].
      split; [now rewrite Hnum |]. split.
      { constructor; [assumption |].
        eapply Forall_impl; [| exact Hlow]. simpl. intros; lia. }
      split.
      * intros p. cbn [In]. rewrite Hin'. split.
        -- intros [<- | [Hp Hex]].
           ++ split; [lia |]. exists row.
              replace (Z.to_nat (i + 1 - i - 1)) with 0%nat by lia. now split.
           ++ split; [lia | assumption].
        -- intros [Hp (r & Hr & Hb)].
           destruct (Z.eq_dec p (i + 1)) as [-> | Hne]; [now left |].
           right. split; [lia |]. now exists r.
      * rewrite Hdata'. f_equal.
        replace (Z.to_nat (i + 1 - i - 1)) with 0%nat by lia. reflexivity.
Qed.

Lemma rowsToRecords_positions (rows : list (list string)) (headers : list string) :
  exists positions,
    map rowNumber (rowsToRecords rows headers) = map Some positions
    /\ StronglySorted Z.lt positions
    /\ (forall p, In p positions
                  <-> 2 <= p
                      /\ exists row,
                           nth_error rows (Z.to_nat (p - 1)) = Some row
                           /\ isBlankRow row = false)
    /\ map data (rowsToRecords rows headers)
       = map (fun p => rowToRecord (nth (Z.to_nat (p - 1)) rows []) headers) positions.
Proof.
  unfold rowsToRecords.
  destruct (rowsLoop_spec headers (skipn 1 rows) 1)
    as (positions & Hnum & Hsorted & Hin & Hdata).
  assert (Hnth : forall p, 2 <= p ->
             nth_error (skipn 1 rows) (Z.to_nat (p - 1 - 1))
             = nth_error rows (Z.to_nat (p - 1))).
  { intros p Hp. rewrite nth_error_skipn. f_equal. lia. }
  exists positions. split; [assumption |]. split; [assumption |]. split.
  - intros p. rewrite Hin. split.
    + intros [Hp (row & Hrow & Hb)]. split; [lia |]. exists row.
      rewrite <- Hnth by lia. now split.
    + intros [Hp (row & Hrow & Hb)]. split; [lia |]. exists row.
      rewrite Hnth by lia. now split.
  - rewrite Hdata. apply map_ext_in. intros p Hp. apply Hin in Hp.
    destruct Hp as [Hp _]. f_equal.
    replace (Z.to_nat (p - 1)) with (S (Z.to_nat (p - 1 - 1))) by lia.
    destruct rows as [| header rows]; [| reflexivity].
    simpl. now destruct (Z.to_nat (p - 1 - 1)).
Qed.

(** X12: the stored rows read from a grid carry strictly increasing row
    numbers, which are exactly the 1-based positions, from 2 up to the
    grid's height, of the rows that are not blank (so never the header's),
    and each holds the record of the row at its position. *)
Theorem rowsToRecords_spec (rows : list (list string)) (headers : list string) :
  exists positions,
    map rowNumber (rowsToRecords rows headers) = map Some positions
    /\ StronglySorted Z.lt positions
    /\ Forall (fun p => 2 <= p <= Z.of_nat (List.length rows)) positions
    /\ (forall p, In p positions
                  <-> 2 <= p
                      /\ exists row,
                           nth_error rows (Z.to_nat (p - 1)) = Some row
                           /\ isBlankRow row = false)
    /\ map data (rowsToRecords rows headers)
       = map (fun p => rowToRecord (nth (Z.to_nat (p - 1)) rows []) headers) positions.
Proof.
  destruct (rowsToRecords_positions rows headers)
    as (positions & Hnum & Hsorted & Hin & Hdata).
  exists positions. split; [assumption |]. split; [assumption |].
  split; [| split; assumption].
  apply Forall_forall. intros p Hp. apply Hin in Hp.
  destruct Hp as [Hp (row & Hrow & _)]. split; [assumption |].
  assert (Hlt : (Z.to_nat (p - 1) < List.length rows)%nat).
  { apply nth_error_Some. congruence. }
  lia.
Qed.

End StoredRows.

(** X11 on a row with an apostrophe and a missing cell, under a header
    with two year columns. *)
Lemma rowToRecord_lookup_witness :
  NoDup ["date"; "2024"; "note"; "7"]%string
  /\ map fst (Mapper.rowToRecord ["'2024-01-01"; "4"]%string
                ["date"; "2024"; "note"; "7"]%string)
     = ["7"; "2024"; "date"; "note"]%string
  /\ Mapper.getField
       (Mapper.rowToRecord ["'2024-01-01"; "4"]%string
          ["date"; "2024"; "note"; "7"]%string)
       "date"
     = Some (Mapper.JString "2024-01-01")
  /\ Mapper.getField
       (Mapper.rowToRecord ["'2024-01-01"; "4"]%string
          ["date"; "2024"; "note"; "7"]%string)
       "2024"
     = Some (Mapper.JString "4")
  /\ Mapper.getField
       (Mapper.rowToRecord ["'2024-01-01"; "4"]%string
          ["date"; "2024"; "note"; "7"]%string)
       "7"
     = Some (Mapper.JString "").
Proof.
  assert (Hnd : NoDup ["date"; "2024"; "note"; "7"]%string).
  { repeat constructor; simpl; intuition discriminate. }
  split; [exact Hnd |]. split; [reflexivity |].
  destruct (@rowToRecord_lookup ["'2024-01-01"; "4"]%string
              ["date"; "2024"; "note"; "7"]%string Hnd) as (_ & _ & Hget).
  split; [| split].
  - refine (proj1 (Hget 0%nat "date"%string eq_refl _)). discriminate.
  - refine (proj1 (Hget 1%nat "2024"%string eq_refl _)). discriminate.
  - refine (proj1 (Hget 3%nat "7"%string eq_refl _)). discriminate.
Defined.
(** ** The writer: what an incremental update deletes *)

Section StaleRows.

Import Mapper Service Writer.

Context {rt : JsRuntime}.

Variable dateFields : list string.

Open Scope Z_scope.

Lemma StronglySorted_lt_NoDup (l : list Z) : StronglySorted Z.lt l -> NoDup l.
Proof.
  induction 1 as [| x l Hs IH Hall]; constructor; [| assumption].
  intros Hin. rewrite Forall_forall in Hall. specialize (Hall x Hin). lia.
Qed.

(** The stored rows, rebuilt from their positions. *)
Lemma records_of_positions (records : list ProcessedRecord) (positions : list Z)
    (recordAt : Z -> JsRecord) :
  map rowNumber records = map Some positions ->
  map data records = map recordAt positions ->
  records = map (fun p => {| data := recordAt p; rowNumber := Some p |}) positions.
Proof.
  revert positions. induction records as [| [d n] records IH];
    intros [| p positions] Hnum Hdata; try discriminate; [reflexivity |].
  cbn [map] in *. injection Hnum as Hn Hnum. injection Hdata as Hd Hdata.
  cbn [rowNumber data] in *. subst. f_equal. now apply IH.
Qed.

Lemma findRowsToDelete_filter (grid : list (list string)) (headers dates : list string) :
  exists positions,
    StronglySorted Z.lt positions
    /\ (forall p, In p positions
                  <-> 2 <= p
                      /\ exists row,
                           nth_error grid (Z.to_nat (p - 1)) = Some row
                           /\ isBlankRow row = false)
    /\ Permutation (filter (staleAt dateFields grid headers dates) positions)
                   (findRowsToDelete dateFields (rowsToRecords grid headers) dates).
Proof.
  destruct (rowsToRecords_positions grid headers)
    as (positions & Hnum & Hsorted & Hin & Hdata).
  exists positions. split; [assumption |]. split; [assumption |].
  unfold findRowsToDelete. rewrite <- sort_desc_perm.
  rewrite (records_of_positions _ _ _ Hnum Hdata).
  clear. induction positions as [| p positions IH]; [constructor |].
  cbn [map flat_map filter rowNumber data]. unfold staleAt at 1.
  destruct (_ && _); [now constructor | assumption].
Qed.

(** X13: the rows an incremental update marks for deletion are, in
    strictly descending order, exactly the positions (from 2 up to the
    grid's height, so never the header's) of the rows that are not blank
    and whose normalised date is one of the batch's dates. *)
Theorem findRowsToDelete_spec (grid : list (list string)) (headers dates : list string) :
  StronglySorted Z.gt (findRowsToDelete dateFields (rowsToRecords grid headers) dates)
  /\ Forall (fun p => 2 <= p <= Z.of_nat (List.length grid))
            (findRowsToDelete dateFields (rowsToRecords grid headers) dates)
  /\ forall p,
       In p (findRowsToDelete dateFields (rowsToRecords grid headers) dates)
       <-> 2 <= p
           /\ exists row,
                nth_error grid (Z.to_nat (p - 1)) = Some row
                /\ isBlankRow row = false
                /\ includes dates
                     (normalizeDate (getRecordDate dateFields (rowToRecord row headers)))
                   = true.
Proof.
  destruct (findRowsToDelete_filter grid headers dates)
    as (positions & Hsorted & Hin & Hperm).
  assert (Hmem : forall p,
             In p (findRowsToDelete dateFields (rowsToRecords grid headers) dates)
             <-> 2 <= p
                 /\ exists row,
                      nth_error grid (Z.to_nat (p - 1)) = Some row
                      /\ isBlankRow row = false
                      /\ includes dates
                           (normalizeDate
                              (getRecordDate dateFields (rowToRecord row headers)))
                         = true).
  { intros p. split.
    - intros Hp. apply (Permutation_in _ (Permutation_sym Hperm)) in Hp.
      apply filter_In in Hp. destruct Hp as [Hp Hstale].
      apply Hin in Hp. destruct Hp as [Hp2 (row & Hrow & Hblank)].
      split; [assumption |]. exists row. split; [assumption |]. split; [assumption |].
      unfold staleAt in Hstale. apply andb_true_iff in Hstale.
      destruct Hstale as [Hstale _].
      now rewrite (nth_error_nth _ _ _ Hrow) in Hstale.
    - intros [Hp2 (row & Hrow & Hblank & Hstale)].
      apply (Permutation_in _ Hperm). apply filter_In. split.
      + apply Hin. split; [assumption |]. now exists row.
      + unfold staleAt. rewrite (nth_error_nth _ _ _ Hrow), Hstale.
        replace (p =? 0) with false by (symmetry; apply Z.eqb_neq; lia).
        reflexivity. }
  split; [| split; [| exact Hmem]].
  - unfold findRowsToDelete at 1.
    apply descending_NoDup_strict; [apply sort_desc_sorted |].
    fold (findRowsToDelete dateFields (rowsToRecords grid headers) dates).
    apply (Permutation_NoDup Hperm). apply NoDup_filter.
    now apply StronglySorted_lt_NoDup.
  - apply Forall_forall. intros p Hp. apply Hmem in Hp.
    destruct Hp as [Hp2 (row & Hrow & _)]. split; [assumption |].
    assert (Hlt : (Z.to_nat (p - 1) < List.length grid)%nat).
    { apply nth_error_Some. congruence. }
    lia.
Qed.

(** X14: deleting these rows through [groupConsecutiveRanges] and
    [deleteRows], every request going through, leaves the grid without
    exactly the marked rows: the header row stays first, and the height
    drops by the number of marked rows. *)
Theorem stale_rows_deleted (grid : list (list string)) (headers dates : list string) :
  deleteRows (fun _ => false)
    (groupConsecutiveRanges
       (findRowsToDelete dateFields (rowsToRecords grid headers) dates))
    grid
  = rowsWithout (findRowsToDelete dateFields (rowsToRecords grid headers) dates) grid
  /\ hd_error
       (deleteRows (fun _ => false)
          (groupConsecutiveRanges
             (findRowsToDelete dateFields (rowsToRecords grid headers) dates))
          grid)
     = hd_error grid
  /\ (List.length
        (deleteRows (fun _ => false)
           (groupConsecutiveRanges
              (findRowsToDelete dateFields (rowsToRecords grid headers) dates))
           grid)
      + List.length (findRowsToDelete dateFields (rowsToRecords grid headers) dates))%nat
     = List.length grid.
Proof.
  destruct (findRowsToDelete_filter grid headers dates)
    as (positions & Hsorted & Hin & Hperm).
  set (marked := findRowsToDelete dateFields (rowsToRecords grid headers) dates) in *.
  assert (Hmarked : forall p, In p marked ->
             2 <= p <= Z.of_nat (List.length grid)).
  { intros p Hp. apply (Permutation_in _ (Permutation_sym Hperm)) in Hp.
    apply filter_In in Hp. destruct Hp as [Hp _]. apply Hin in Hp.
    destruct Hp as [Hp2 (row & Hrow & _)]. split; [assumption |].
    assert (Hlt : (Z.to_nat (p - 1) < List.length grid)%nat).
    { apply nth_error_Some. congruence. }
    lia. }
  assert (Hdistinct : NoDup marked).
  { apply (Permutation_NoDup Hperm). apply NoDup_filter.
    now apply StronglySorted_lt_NoDup. }
  assert (Hpos : Forall (fun p => 1 <= p) marked).
  { apply Forall_forall. intros p Hp. specialize (Hmarked p Hp). lia. }
  rewrite (deleteRows_all_succeed grid Hdistinct Hpos).
  split; [reflexivity |]. split.
  - unfold rowsWithout. destruct grid as [| header rest]; [reflexivity |].
    cbn [dropRows].
    replace (existsb (Z.eqb 1) marked) with false; [reflexivity |].
    symmetry. apply not_true_iff_false. intros Hex.
    apply existsb_exists in Hex. destruct Hex as (p & Hp & Heq).
    apply Z.eqb_eq in Heq. subst p. specialize (Hmarked 1 Hp). lia.
  - apply rowsWithout_length; [assumption |].
    apply Forall_forall. intros p Hp. specialize (Hmarked p Hp). lia.
Qed.

End StaleRows.

(** ** The writer: statistics and the order of store calls *)

Section WriterPlans.

Import Mapper Writer.

Context {rt : JsRuntime}.

Variable dateFields : list string.

Lemma flat_map_at_most_one {X Y : Type} (f : X -> list Y) (l : list X) :
  (forall x, List.length (f x) <= 1)%nat ->
  (List.length (flat_map f l) <= List.length l)%nat.
Proof.
  intros Hf. induction l as [| x l IH]; simpl; [constructor |].
  rewrite length_app. specialize (Hf x). lia.
Qed.

Lemma findRowsToDelete_length (existingRecords : list ProcessedRecord)
    (dates : list string) :
  (List.length (findRowsToDelete dateFields existingRecords dates)
   <= List.length existingRecords)%nat.
Proof.
  unfold findRowsToDelete.
  rewrite <- (Permutation_length (sort_desc_perm _)).
  apply flat_map_at_most_one. intros record.
  destruct (rowNumber record) as [n |]; [| simpl; lia].
  destruct (_ && _); simpl; lia.
Qed.

(** The columns to add are the part of the merged columns that follows
    the existing header. *)
Lemma mergeColumns_new_columns (existingHeaders newFields : list string) :
  mergeColumns existingHeaders newFields
  = existingHeaders
    ++ filter (fun col => negb (includes existingHeaders col))
              (mergeColumns existingHeaders newFields).
Proof.
  destruct (mergeColumns_appends newFields existingHeaders)
    as (added & Heq & _ & _ & Hin).
  rewrite Heq at 1. f_equal. rewrite Heq, filter_app.
  assert (Hold : filter (fun col => negb (includes existingHeaders col)) existingHeaders
                 = []).
  { clear. set (all := existingHeaders) at 1.
    assert (Hsub : forall x, In x existingHeaders -> In x all) by (intros; assumption).
    clearbody all. induction existingHeaders as [| x l IH]; [reflexivity |].
    cbn [filter]. replace (includes all x) with true
      by (symmetry; apply includes_In; apply Hsub; now left).
    cbn [negb]. apply IH. intros y Hy. apply Hsub. now right. }
  rewrite Hold. cbn [List.app]. symmetry.
  assert (Hnew : forall x, In x added -> ~ In x existingHeaders)
    by (intros x Hx; apply Hin in Hx; tauto).
  clear - Hnew. induction added as [| x l IH]; [reflexivity |].
  cbn [filter]. replace (includes existingHeaders x) with false
    by (symmetry; apply includes_not_In; apply Hnew; now left).
  cbn [negb]. f_equal. apply IH. intros y Hy. apply Hnew. now right.
Qed.

(** X15: the statistics an incremental update of a non-empty sheet
    returns, in a dry run as in a real one: no record is ever counted as
    updated, the new records are the batch, the deleted ones the marked
    rows (no more than the stored rows), the total is what is left of the
    stored rows plus the batch, and the new columns are what extends the
    existing header to the merged columns. *)
Theorem performIncrementalUpdate_stats (dryRun : bool) (records : list JsRecord)
    (w : World) (grid : list (list string)) (stats : WriteStats)
    (Hsnapshot : snapshot w = inr grid)
    (Hgrid : grid <> [])
    (Hreturns : returns (performIncrementalUpdate dryRun dateFields records) w stats) :
  updatedRecords stats = 0%Z
  /\ newRecords stats = Z.of_nat (List.length records)
  /\ deletedRecords stats
     = Z.of_nat
         (List.length
            (findRowsToDelete dateFields (rowsToRecords grid (nth 0%nat grid []))
               (extractDatesFromRecords dateFields records)))
  /\ (0 <= deletedRecords stats
      <= Z.of_nat (List.length (rowsToRecords grid (nth 0%nat grid []))))%Z
  /\ totalRecords stats
     = (Z.of_nat (List.length (rowsToRecords grid (nth 0%nat grid [])))
        - deletedRecords stats + newRecords stats)%Z
  /\ mergeColumns (nth 0%nat grid []) (collectAllFields records)
     = nth 0%nat grid [] ++ newColumns stats.
Proof.
  unfold performIncrementalUpdate in Hreturns. apply returns_bind in Hreturns.
  destruct Hreturns as (existingData & w1 & Hread & Hrun).
  unfold getAllData in Hread. injection Hread as _ Hdata.
  rewrite Hsnapshot in Hdata. injection Hdata as <-.
  destruct grid as [| header rest]; [contradiction |].
  cbn [List.length Nat.eqb] in Hrun. cbv zeta in Hrun.
  do 4 (apply returns_then in Hrun; destruct Hrun as [? Hrun]).
  apply returns_ret in Hrun. subst stats.
  cbn [updatedRecords newRecords deletedRecords totalRecords newColumns].
  pose proof (findRowsToDelete_length
                (rowsToRecords (header :: rest) (nth 0%nat (header :: rest) []))
                (extractDatesFromRecords dateFields records)) as Hle.
  split; [reflexivity |]. split; [reflexivity |]. split; [reflexivity |].
  split; [lia |]. split; [lia |].
  apply mergeColumns_new_columns.
Qed.

(** X16: a real full refresh first replaces the whole sheet with a
    rectangular grid: the header of all collected fields, then one row per
    record, every row as wide as the header, the width being the column
    count it passes; after that it calls at most the date formatting. *)
Theorem performFullRefresh_grid (records : list JsRecord) (w : World) :
  exists rows rest,
    storeCalls (fst (performFullRefresh false dateFields records w))
    = storeCalls w
      ++ ReplaceAllData (map CText (collectAllFields records) :: rows)
           (List.length (collectAllFields records))
         :: rest
    /\ List.length rows = List.length records
    /\ Forall (fun row => List.length row = List.length (collectAllFields records))
              (map CText (collectAllFields records) :: rows)
    /\ Subseq rest
         [FormatDateColumns (findDateColumnIndices dateFields (collectAllFields records))].
Proof.
  exists (recordsToRows dateFields records (collectAllFields records)).
  unfold performFullRefresh. cbv zeta. unfold whenM at 1. cbn [negb].
  unfold bind at 1, bind at 1, call.
  set (columns := collectAllFields records).
  set (data := map CText columns :: recordsToRows dateFields records columns).
  assert (Hshape : List.length (recordsToRows dateFields records columns)
                   = List.length records
                   /\ Forall (fun row => List.length row = List.length columns) data).
  { unfold data, recordsToRows. split; [apply length_map |].
    constructor; [apply length_map |].
    apply Forall_forall. intros row Hrow. apply in_map_iff in Hrow.
    destruct Hrow as (record & <- & _). apply length_map. }
  destruct Hshape as [Hrows Hwide].
  destruct (rejects w (ReplaceAllData data (List.length columns))) as [e |].
  - exists []. cbn [fst storeCalls logStore].
    split; [reflexivity |]. split; [assumption |]. split; [assumption |].
    apply Subseq_skip, Subseq_nil.
  - unfold whenM, callQuiet, ret.
    destruct (0 <? List.length (findDateColumnIndices dateFields columns))%nat.
    + exists [FormatDateColumns (findDateColumnIndices dateFields columns)].
      cbn [fst storeCalls logStore]. rewrite <- app_assoc.
      split; [reflexivity |]. split; [assumption |]. split; [assumption |].
      apply Subseq_take, Subseq_nil.
    + exists []. cbn [fst storeCalls logStore].
      split; [reflexivity |]. split; [assumption |]. split; [assumption |].
      apply Subseq_skip, Subseq_nil.
Qed.

Lemma length_zero_nil {X : Type} (l : list X) :
  (0 <? List.length l)%nat = false -> l = [].
Proof. destruct l; [reflexivity | discriminate]. Qed.

(** X17: a real incremental update of a non-empty sheet reads the
    snapshot first and then makes its calls in one fixed order, each at
    most once: delete the stale rows, add the new columns, read the row
    count, grow the sheet by 5000 rows, append the batch in USER_ENTERED
    mode, format the date columns.  When it returns on a non-empty batch,
    the batch has been appended. *)
Theorem incremental_update_call_order (records : list JsRecord) (w : World)
    (grid : list (list string))
    (Hsnapshot : snapshot w = inr grid)
    (Hgrid : grid <> []) :
  exists calls,
    storeCalls (fst (performIncrementalUpdate false dateFields records w))
    = storeCalls w ++ GetAllData :: calls
    /\ Subseq calls (incrementalPlan dateFields records grid)
    /\ (forall stats,
          snd (performIncrementalUpdate false dateFields records w) = inr stats ->
          records <> [] ->
          In (AppendRows
                (recordsToRows dateFields records
                   (mergeColumns (nth 0%nat grid []) (collectAllFields records)))
                USER_ENTERED)
             calls).
Proof.
  unfold performIncrementalUpdate, incrementalPlan.
  unfold bind, getAllData. cbv beta. rewrite Hsnapshot.
  destruct grid as [| header rest]; [contradiction |].
  cbn [List.length Nat.eqb]. cbv zeta. cbn [negb].
  set (existingHeaders := nth 0%nat (header :: rest) []).
  set (rowsToDelete := findRowsToDelete _ _ _).
  set (finalColumns := mergeColumns _ _).
  set (newCols := filter _ finalColumns).
  set (dataRows := recordsToRows _ _ _).
  set (dateColumns := findDateColumnIndices _ _).
  set (total := (_ + Z.of_nat (List.length records) + 1)%Z).
  clearbody rowsToDelete finalColumns newCols dataRows dateColumns total.
  unfold whenM, call, callQuiet, getAvailableRows, ret.
  rewrite !andb_true_r.
  repeat (cbn [rejects logStore rowCount];
          match goal with
          | |- context [if ?b then _ else _] => destruct b eqn:?
          | |- context [rejects w ?c] => destruct (rejects w c)
          end).
  all: cbn [fst snd storeCalls logStore rejects rowCount].
  all: repeat rewrite <- app_assoc; cbn [List.app].
  all: eexists; split; [reflexivity |]; split;
    [repeat first [apply Subseq_nil | apply Subseq_take | apply Subseq_skip] |].
  all: intros stats Hstats Hne; try discriminate Hstats.
  all: try (match goal with
            | H : (0 <? List.length ?l)%nat = false |- _ =>
                apply length_zero_nil in H; contradiction
            end).
  all: cbn [In]; tauto.
Qed.

End WriterPlans.

(** X15 on the example sheet. *)
Lemma performIncrementalUpdate_stats_witness :
  (Writer.snapshot (Writer.exampleWorld [Writer.exampleRecord] Writer.exampleGrid None)
   = inr Writer.exampleGrid
   /\ Writer.exampleGrid <> []
   /\ Writer.returns
        (@Writer.performIncrementalUpdate Mapper.isoRuntime false ["date"%string]
           [Writer.exampleRecord])
        (Writer.exampleWorld [Writer.exampleRecord] Writer.exampleGrid None)
        (Writer.mkStats 3 1 0 2 []))
  /\ Writer.deletedRecords (Writer.mkStats 3 1 0 2 [])
     = Z.of_nat
         (List.length
            (@Writer.findRowsToDelete Mapper.isoRuntime ["date"%string]
               (Mapper.rowsToRecords Writer.exampleGrid (nth 0%nat Writer.exampleGrid []))
               (@Mapper.extractDatesFromRecords Mapper.isoRuntime ["date"%string]
                  [Writer.exampleRecord])))
  /\ Mapper.mergeColumns (nth 0%nat Writer.exampleGrid [])
       (Mapper.collectAllFields [Writer.exampleRecord])
     = nth 0%nat Writer.exampleGrid [] ++ Writer.newColumns (Writer.mkStats 3 1 0 2 []).
Proof.
  assert (Hgrid : Writer.exampleGrid <> []) by discriminate.
  assert (Hreturns : Writer.returns
            (@Writer.performIncrementalUpdate Mapper.isoRuntime false ["date"%string]
               [Writer.exampleRecord])
            (Writer.exampleWorld [Writer.exampleRecord] Writer.exampleGrid None)
            (Writer.mkStats 3 1 0 2 [])).
  { exists (fst (@Writer.performIncrementalUpdate Mapper.isoRuntime false
                   ["date"%string] [Writer.exampleRecord]
                   (Writer.exampleWorld [Writer.exampleRecord] Writer.exampleGrid None))).
    reflexivity. }
  split; [split; [reflexivity | split; assumption] |].
  destruct (@performIncrementalUpdate_stats Mapper.isoRuntime ["date"%string] false
              [Writer.exampleRecord]
              (Writer.exampleWorld [Writer.exampleRecord] Writer.exampleGrid None)
              Writer.exampleGrid (Writer.mkStats 3 1 0 2 []) eq_refl Hgrid Hreturns)
    as (_ & _ & Hdeleted & _ & _ & Hcolumns).
  split; assumption.
Defined.

(** X17 on the example sheet. *)
Lemma incremental_update_call_order_witness :
  (Writer.snapshot (Writer.exampleWorld [Writer.exampleRecord] Writer.exampleGrid None)
   = inr Writer.exampleGrid
   /\ Writer.exampleGrid <> [])
  /\ exists calls,
       Writer.storeCalls
         (fst (@Writer.performIncrementalUpdate Mapper.isoRuntime false ["date"%string]
                 [Writer.exampleRecord]
                 (Writer.exampleWorld [Writer.exampleRecord] Writer.exampleGrid None)))
       = [] ++ Writer.GetAllData :: calls
       /\ Subseq calls
            (@Writer.incrementalPlan Mapper.isoRuntime ["date"%string]
               [Writer.exampleRecord] Writer.exampleGrid).
Proof.
  assert (Hgrid : Writer.exampleGrid <> []) by discriminate.
  split; [split; [reflexivity | assumption] |].
  destruct (@incremental_update_call_order Mapper.isoRuntime ["date"%string]
              [Writer.exampleRecord]
              (Writer.exampleWorld [Writer.exampleRecord] Writer.exampleGrid None)
              Writer.exampleGrid eq_refl Hgrid) as (calls & Hcalls & Hsub & _).
  exists calls. split; assumption.
Defined.

(** ** The mapper: white space and letter case *)

Section TrimAndCase.

Import Mapper.

Lemma trimEnd_idempotent (s : string) : trimEnd (trimEnd s) = trimEnd s.
Proof.
  induction s as [| c s IH]; [reflexivity |].
  cbn [trimEnd].
  destruct (isWhiteSpace c && String.eqb (trimEnd s) "") eqn:Hcond; [reflexivity |].
  cbn [trimEnd]. rewrite IH, Hcond. reflexivity.
Qed.

(** What [trimStart] returns is empty or starts with a character that is
    not white space. *)
Lemma trimStart_head (s : string) :
  trimStart s = ""%string
  \/ exists c rest, trimStart s = String c rest /\ isWhiteSpace c = false.
Proof.
  induction s as [| c s IH]; [now left |].
  cbn [trimStart]. destruct (isWhiteSpace c) eqn:Hc; [exact IH |].
  right. now exists c, s.
Qed.

Lemma trim_idempotent (s : string) : trim (trim s) = trim s.
Proof.
  unfold trim at 2 3. destruct (trimStart_head s) as [-> | (c & rest & -> & Hc)].
  - reflexivity.
  - unfold trim.
    assert (Hhead : trimEnd (String c rest) = String c (trimEnd rest)).
    { cbn [trimEnd]. now rewrite Hc. }
    rewrite Hhead. cbn [trimStart]. rewrite Hc.
    rewrite <- Hhead. apply trimEnd_idempotent.
Qed.

Context {rt : JsRuntime}.

(** X18: white space around a date does not matter: a string with
    something other than white space in it normalises to what its trimmed
    form normalises to. *)
Theorem normalizeDate_ignores_whitespace (dateString : string)
    (Hcontent : trim dateString <> ""%string) :
  normalizeDate dateString = normalizeDate (trim dateString).
Proof.
  unfold normalizeDate. rewrite trim_idempotent.
  assert (Hne : String.eqb dateString "" = false).
  { apply String.eqb_neq. intros ->. now apply Hcontent. }
  assert (Hne' : String.eqb (trim dateString) "" = false)
    by now apply String.eqb_neq.
  now rewrite Hne, Hne'.
Qed.

Variable dateFields : list string.

Lemma lowerChar_not_upper (c : ascii) :
  ((65 <=? N_of_ascii (lowerChar c)) && (N_of_ascii (lowerChar c) <=? 90))%N = false.
Proof.
  unfold lowerChar.
  destruct ((65 <=? N_of_ascii c) && (N_of_ascii c <=? 90))%N eqn:Hupper.
  - apply andb_true_iff in Hupper. destruct Hupper as [H1 H2].
    apply N.leb_le in H1, H2.
    rewrite N_ascii_embedding by lia.
    apply andb_false_iff. right. apply N.leb_gt. lia.
  - exact Hupper.
Qed.

Lemma toLowerCase_no_upper (s : string) : hasUpperCase (toLowerCase s) = false.
Proof.
  induction s as [| c s IH]; [reflexivity |].
  cbn [toLowerCase mapString hasUpperCase]. fold (toLowerCase s).
  now rewrite lowerChar_not_upper, IH.
Qed.

(** X19: a column is a date column exactly when its lower-cased name is
    one of the date fields, so a configured date field that has a capital
    letter in it is matched by no column, however the column is spelled;
    the indices [findDateColumnIndices] returns are, in ascending order,
    exactly the positions of the date columns. *)
Theorem isDateField_spec (columns : list string) :
  (forall columnName,
     isDateField dateFields columnName = true
     <-> In (toLowerCase columnName) dateFields)
  /\ (forall field columnName,
        hasUpperCase field = true -> toLowerCase columnName <> field)
  /\ StronglySorted lt (findDateColumnIndices dateFields columns)
  /\ forall i,
       In i (findDateColumnIndices dateFields columns)
       <-> exists columnName,
             nth_error columns i = Some columnName
             /\ isDateField dateFields columnName = true.
Proof.
  split; [| split].
  - intros columnName. unfold isDateField. apply includes_In.
  - intros field columnName Hupper Heq.
    rewrite <- Heq, toLowerCase_no_upper in Hupper. discriminate.
  - unfold findDateColumnIndices.
    assert (Hgen : forall start,
               StronglySorted lt
                 (map fst (filter (fun p => isDateField dateFields (snd p))
                                  (combine (seq start (List.length columns)) columns)))
               /\ forall i,
                    In i (map fst (filter (fun p => isDateField dateFields (snd p))
                                          (combine (seq start (List.length columns))
                                                   columns)))
                    <-> (start <= i)%nat
                        /\ exists columnName,
                             nth_error columns (i - start) = Some columnName
                             /\ isDateField dateFields columnName = true).
    { induction columns as [| column rest IH]; intros start.
      - split; [constructor |]. intros i. split; [intros [] |].
        intros [_ (c & Hc & _)]. destruct (i - start)%nat; discriminate Hc.
      - destruct (IH (S start)) as [Hsorted Hin].
        assert (Hrest : forall i,
                   In i (map fst (filter (fun p => isDateField dateFields (snd p))
                                         (combine (seq (S start) (List.length rest))
                                                  rest)))
                   <-> (S start <= i)%nat
                       /\ exists columnName,
                            nth_error (column :: rest) (i - start) = Some columnName
                            /\ isDateField dateFields columnName = true).
        { intros i. rewrite Hin. split; intros [Hi (c & Hc & Hd)];
            (split; [assumption |]); exists c; (split; [| assumption]).
          - replace (i - start)%nat with (S (i - S start)) by lia. exact Hc.
          - replace (i - start)%nat with (S (i - S start)) in Hc by lia. exact Hc. }
        cbn [List.length seq combine filter snd].
        destruct (isDateField dateFields column) eqn:Hdate; cbn [map fst].
        + split.
          * constructor; [assumption |]. apply Forall_forall. intros i Hi.
            apply Hrest in Hi. lia.
          * intros i. cbn [In]. rewrite Hrest. split.
            -- intros [<- | [Hi Hex]].
               ++ split; [lia |]. exists column. rewrite Nat.sub_diag. now split.
               ++ split; [lia | assumption].
            -- intros [Hi (c & Hc & Hd)].
               destruct (Nat.eq_dec i start) as [-> | Hne]; [now left |].
               right. split; [lia |]. now exists c.
        + split; [assumption |].
          intros i. rewrite Hrest. split.
          * intros [Hi Hex]. split; [lia | assumption].
          * intros [Hi (c & Hc & Hd)].
            destruct (Nat.eq_dec i start) as [-> | Hne].
            -- rewrite Nat.sub_diag in Hc. simpl in Hc. injection Hc as <-. congruence.
            -- split; [lia |]. now exists c. }
    destruct (Hgen 0%nat) as [Hsorted Hin]. split; [assumption |].
    intros i. rewrite Hin, Nat.sub_0_r. split; [tauto |].
    intros Hex. split; [lia | assumption].
Qed.

End TrimAndCase.

(** X18 on a padded date. *)
Lemma normalizeDate_ignores_whitespace_witness :
  Mapper.trim "  2024-02-29 " <> ""%string
  /\ @Mapper.normalizeDate Mapper.isoRuntime "  2024-02-29 " = "2024-02-29"%string
  /\ @Mapper.normalizeDate Mapper.isoRuntime "  2024-02-29 "
     = @Mapper.normalizeDate Mapper.isoRuntime (Mapper.trim "  2024-02-29 ").
Proof.
  assert (Hcontent : Mapper.trim "  2024-02-29 " <> ""%string) by discriminate.
  split; [exact Hcontent |]. split; [reflexivity |].
  exact (@normalizeDate_ignores_whitespace Mapper.isoRuntime "  2024-02-29 " Hcontent).
Defined.

(** ** The writer: a batch without dates *)

Section UndatedBatch.

Import Mapper Writer.

Context {rt : JsRuntime}.

Variable dateFields : list string.

Lemma extractDatesFromRecords_undated (records : list JsRecord) :
  (forall record,
     In record records -> normalizeDate (getRecordDate dateFields record) = ""%string) ->
  extractDatesFromRecords dateFields records = [].
Proof.
  intros Hundated. unfold extractDatesFromRecords.
  induction records as [| record records IH]; [reflexivity |].
  cbn [fold_left].
  rewrite (Hundated record) by now left.
  rewrite String.eqb_refl.
  destruct (String.eqb (getRecordDate dateFields record) "");
    apply IH; intros r Hr; apply Hundated; now right.
Qed.

Lemma findRowsToDelete_no_dates (existingRecords : list ProcessedRecord) :
  findRowsToDelete dateFields existingRecords [] = [].
Proof.
  unfold findRowsToDelete.
  assert (Hnone : forall l,
             flat_map
               (fun record =>
                  match rowNumber record with
                  | Some n =>
                      if includes []
                           (normalizeDate (getRecordDate dateFields (data record)))
                         && negb (n =? 0)%Z
                      then [n] else []
                  | None => []
                  end) l = []).
  { induction l as [| record l IH]; [reflexivity |].
    cbn [flat_map]. rewrite IH. destruct (rowNumber record); reflexivity. }
  cbv zeta. rewrite Hnone. reflexivity.
Qed.

(** X20: when no record of the batch has a date that normalises, the
    incremental update finds no date to replace and deletes nothing: it
    makes no [deleteRows] call, counts no deleted record, and its total is
    all the stored records plus the batch. *)
Theorem undated_batch_deletes_nothing (dryRun : bool) (records : list JsRecord)
    (w : World) (grid : list (list string))
    (Hsnapshot : snapshot w = inr grid)
    (Hundated : forall record,
        In record records ->
        normalizeDate (getRecordDate dateFields record) = ""%string) :
  extractDatesFromRecords dateFields records = []
  /\ (forall ranges,
        In (DeleteRows ranges)
           (storeCalls (fst (performIncrementalUpdate dryRun dateFields records w))) ->
        In (DeleteRows ranges) (storeCalls w))
  /\ forall stats,
       returns (performIncrementalUpdate dryRun dateFields records) w stats ->
       deletedRecords stats = 0%Z
       /\ totalRecords stats
          = (Z.of_nat (List.length (rowsToRecords grid (nth 0%nat grid [])))
             + Z.of_nat (List.length records))%Z.
Proof.
  pose proof (extractDatesFromRecords_undated records Hundated) as Hdates.
  split; [exact Hdates |].
  assert (Hrun : exists w' result,
             performIncrementalUpdate dryRun dateFields records w = (w', result)
             /\ (forall ranges,
                   In (DeleteRows ranges) (storeCalls w') ->
                   In (DeleteRows ranges) (storeCalls w))
             /\ forall stats,
                  result = inr stats ->
                  deletedRecords stats = 0%Z
                  /\ totalRecords stats
                     = (Z.of_nat (List.length (rowsToRecords grid (nth 0%nat grid [])))
                        + Z.of_nat (List.length records))%Z).
  { unfold performIncrementalUpdate.
    unfold bind at 1, getAllData. cbv beta. rewrite Hsnapshot.
    destruct grid as [| header rest].
    - cbn [List.length Nat.eqb]. unfold performFullRefresh. cbv zeta.
      unfold bind, whenM, call, callQuiet, ret.
      repeat (cbn [rejects logStore];
              match goal with
              | |- context [if ?b then _ else _] => destruct b eqn:?
              | |- context [rejects w ?c] => destruct (rejects w c)
              end).
      all: eexists; eexists; split; [reflexivity |].
      all: cbn [fst storeCalls logStore]; split;
        [intros ranges; rewrite ?in_app_iff; cbn [In]; intuition discriminate |].
      all: intros stats Hstats; try discriminate Hstats.
      all: injection Hstats as <-; cbn [deletedRecords totalRecords]; split;
        [reflexivity | cbn; lia].
    - cbn [List.length Nat.eqb]. cbv zeta. rewrite Hdates.
      rewrite findRowsToDelete_no_dates. cbn [List.length Nat.ltb Nat.leb andb].
      set (existingHeaders := nth 0%nat (header :: rest) []).
      set (existing := List.length (rowsToRecords (header :: rest) existingHeaders)).
      set (finalColumns := mergeColumns _ _).
      set (newCols := filter _ finalColumns).
      set (dataRows := recordsToRows _ _ _).
      set (dateColumns := findDateColumnIndices _ _).
      clearbody finalColumns newCols dataRows dateColumns existing.
      unfold bind, whenM, call, callQuiet, getAvailableRows, ret.
      repeat (cbn [rejects logStore rowCount];
              match goal with
              | |- context [if ?b then _ else _] => destruct b eqn:?
              | |- context [rejects w ?c] => destruct (rejects w c)
              end).
      all: eexists; eexists; split; [reflexivity |].
      all: cbn [fst storeCalls logStore]; split;
        [intros ranges; rewrite ?in_app_iff; cbn [In]; intuition discriminate |].
      all: intros stats Hstats; try discriminate Hstats.
      all: injection Hstats as <-; cbn [deletedRecords totalRecords]; split;
        [reflexivity | cbn; lia]. }
  destruct Hrun as (w' & result & Hrun & Hcalls & Hstats).
  rewrite Hrun. cbn [fst]. split; [exact Hcalls |].
  intros stats [w'' Hreturns]. rewrite Hrun in Hreturns.
  injection Hreturns as _ ->. now apply Hstats.
Qed.

End UndatedBatch.

(** X20 on a batch of one record without a date, against the example
    sheet. *)
Lemma undated_batch_deletes_nothing_witness :
  (forall record,
     In record [[("clicks"%string, Mapper.JNumber 7)]] ->
     @Mapper.normalizeDate Mapper.isoRuntime
       (@Mapper.getRecordDate Mapper.isoRuntime ["date"%string] record) = ""%string)
  /\ @Mapper.extractDatesFromRecords Mapper.isoRuntime ["date"%string]
       [[("clicks"%string, Mapper.JNumber 7)]] = []
  /\ forall ranges,
       ~ In (Writer.DeleteRows ranges)
            (Writer.storeCalls
               (fst (@Writer.performIncrementalUpdate Mapper.isoRuntime false
                       ["date"%string] [[("clicks"%string, Mapper.JNumber 7)]]
                       (Writer.exampleWorld [[("clicks"%string, Mapper.JNumber 7)]]
                          Writer.exampleGrid None)))).
Proof.
  assert (Hundated : forall record,
             In record [[("clicks"%string, Mapper.JNumber 7)]] ->
             @Mapper.normalizeDate Mapper.isoRuntime
               (@Mapper.getRecordDate Mapper.isoRuntime ["date"%string] record)
             = ""%string).
  { intros record [<- | []]. reflexivity. }
  split; [exact Hundated |].
  destruct (@undated_batch_deletes_nothing Mapper.isoRuntime ["date"%string] false
              [[("clicks"%string, Mapper.JNumber 7)]]
              (Writer.exampleWorld [[("clicks"%string, Mapper.JNumber 7)]]
                 Writer.exampleGrid None)
              Writer.exampleGrid eq_refl Hundated) as (Hdates & Hcalls & _).
  split; [exact Hdates |].
  intros ranges Hin. exact (Hcalls ranges Hin).
Defined.

(** ** The first version of the writer *)

Section LegacyScript.

Import Mapper Legacy.

Context {rt : JsRuntime}.

Variable sheetName : string.
Variable today : string.
Variable fails : ApiCall -> bool.

Lemma clearLoop_spec (dateCol : nat) (rows : list (list string)) (i : nat) :
  StronglySorted lt (clearLoop today dateCol i rows)
  /\ forall p,
       In p (clearLoop today dateCol i rows)
       <-> (i + 1 <= p <= i + List.length rows)%nat
           /\ isToday today dateCol (nth (p - (i + 1)) rows []) = true.
Proof.
  revert i. induction rows as [| row rest IH]; intros i.
  - split; [constructor |]. intros p. cbn. split; [intros [] | lia].
  - destruct (IH (S i)) as [Hsorted Hin].
    assert (Hrest : forall p,
               In p (clearLoop today dateCol (S i) rest)
               <-> (i + 2 <= p <= i + 1 + List.length rest)%nat
                   /\ isToday today dateCol (nth (p - (i + 1)) (row :: rest) []) = true).
    { intros p. rewrite Hin. split; intros [Hp Hcell].
      - split; [lia |].
        replace (p - (i + 1))%nat with (S (p - (S i + 1))) by lia. exact Hcell.
      - split; [lia |].
        replace (p - (i + 1))%nat with (S (p - (S i + 1))) in Hcell by lia.
        exact Hcell. }
    cbn [clearLoop List.length].
    destruct (isToday today dateCol row) eqn:Hrow; cbn [List.app].
    + split.
      * constructor; [assumption |]. apply Forall_forall. intros p Hp.
        apply Hrest in Hp. lia.
      * intros p. cbn [In]. rewrite Hrest. split.
        -- intros [<- | [Hp Hcell]].
           ++ split; [lia |]. rewrite Nat.sub_diag. exact Hrow.
           ++ split; [lia | assumption].
        -- intros [Hp Hcell].
           destruct (Nat.eq_dec p (i + 1)) as [-> | Hne]; [now left |].
           right. split; [lia | assumption].
    + split; [assumption |].
      intros p. rewrite Hrest. split.
      * intros [Hp Hcell]. split; [lia | assumption].
      * intros [Hp Hcell].
        destruct (Nat.eq_dec p (i + 1)) as [-> | Hne].
        -- rewrite Nat.sub_diag in Hcell. cbn [nth] in Hcell. congruence.
        -- split; [lia | assumption].
Qed.

(** X21: an incremental run of the first writer on a non-empty batch
    reads the sheet, then clears (never deletes) exactly the rows below
    the header whose cell in the batch's date column is today's date, in
    ascending order, and appends the batch in RAW mode last, only when the
    read and every clear went through.  The date column is looked up in
    the keys of the batch's first record, not in the sheet's header. *)
Theorem legacy_incremental_run (records : list JsRecord)
    (existing : list (list string))
    (Hrecords : records <> []) :
  exists rowNumbers tail,
    main sheetName false today fails records existing
    = ValuesGet sheetName
      :: (if fails (ValuesGet sheetName) then []
          else map (fun rowNumber => ValuesClear (rowRange sheetName rowNumber))
                   rowNumbers
               ++ tail)
    /\ StronglySorted lt rowNumbers
    /\ (forall p,
          In p rowNumbers
          <-> (2 <= p <= List.length existing)%nat
              /\ nth_error (nth (p - 1) existing [])
                           (dateColumn (headersOf records))
                 = Some today)
    /\ tail
       = (if existsb fails
               (map (fun rowNumber => ValuesClear (rowRange sheetName rowNumber))
                    rowNumbers)
          then []
          else [ValuesAppend sheetName Writer.RAW (valuesOf records)]).
Proof.
  exists (clearLoop today (dateColumn (headersOf records)) 1 (skipn 1 existing)).
  eexists. split; [| split; [| split; [| reflexivity]]].
  - unfold main, await. destruct records as [| record rest]; [contradiction |].
    reflexivity.
  - apply clearLoop_spec.
  - intros p.
    destruct (clearLoop_spec (dateColumn (headersOf records)) (skipn 1 existing) 1)
      as [_ Hin].
    rewrite Hin. clear Hin.
    assert (Hnth : forall k, nth k (skipn 1 existing) [] = nth (S k) existing []).
    { intros k. destruct existing as [| header rows]; [now destruct k | reflexivity]. }
    assert (Hlen : List.length (skipn 1 existing) = (List.length existing - 1)%nat).
    { destruct existing; cbn; lia. }
    rewrite Hnth, Hlen. unfold isToday.
    split; intros [Hp Hcell].
    + split; [lia |].
      replace (p - 1)%nat with (S (p - (1 + 1))) by lia.
      destruct (nth_error _ _) as [cell |]; [| discriminate].
      apply String.eqb_eq in Hcell. now subst.
    + split; [lia |].
      replace (p - 1)%nat with (S (p - (1 + 1))) in Hcell by lia.
      rewrite Hcell. apply String.eqb_refl.
Qed.

Lemma mergeColumns_fresh (existing newFields : list string) :
  NoDup (existing ++ newFields) ->
  mergeColumns existing newFields = existing ++ newFields.
Proof.
  unfold mergeColumns. revert existing.
  induction newFields as [| field rest IH]; intros existing Hnd; cbn [fold_left].
  - now rewrite app_nil_r.
  - unfold mergeStep at 2.
    replace (includes existing field) with false.
    + rewrite IH by (rewrite <- app_assoc; exact Hnd).
      now rewrite <- app_assoc.
    + symmetry. apply includes_not_In. intros Hin.
      apply NoDup_remove_2 in Hnd. apply Hnd. apply in_or_app. now left.
Qed.

Lemma filter_all {X : Type} (f : X -> bool) (l : list X) :
  (forall x, In x l -> f x = true) -> filter f l = l.
Proof.
  induction l as [| x l IH]; intros Hall; [reflexivity |].
  cbn [filter]. rewrite (Hall x) by now left.
  f_equal. apply IH. intros y Hy. apply Hall. now right.
Qed.

(** The fields collected from [records] on top of [fields]. *)
Lemma collectLoop_appends (records : list JsRecord) (fields : list string) :
  exists added,
    fold_left
      (fun fields record =>
         fold_left
           (fun fields key =>
              if negb (String.eqb key "__rowNumber") then setAdd fields key else fields)
           (map fst record) fields)
      records fields
    = fields ++ added
    /\ forall f,
         In f added
         <-> ~ In f fields
             /\ f <> "__rowNumber"%string
             /\ exists record, In record records /\ In f (map fst record).
Proof.
  revert fields. induction records as [| record records IH]; intros fields.
  - exists []. cbn [fold_left]. rewrite app_nil_r. split; [reflexivity |].
    intros f. split; [intros [] | intros (_ & _ & r & [] & _)].
  - cbn [fold_left]. rewrite collectKeys_is_merge.
    destruct (mergeColumns_appends
                (filter (fun key => negb (String.eqb key "__rowNumber")) (map fst record))
                fields) as (first & -> & _ & _ & Hfirst).
    destruct (IH (fields ++ first)) as (more & -> & Hmore).
    exists (first ++ more). rewrite <- app_assoc. split; [reflexivity |].
    intros f. rewrite in_app_iff, Hfirst, Hmore, filter_In, negb_true_iff,
      String.eqb_neq, in_app_iff, Hfirst, filter_In, negb_true_iff, String.eqb_neq.
    split.
    + intros [[[Hkey Hne] Hnew] | (Hnew & Hne & r & Hr & Hkey)].
      * split; [assumption |]. split; [assumption |]. exists record.
        split; [now left | assumption].
      * split; [tauto |]. split; [assumption |]. exists r.
        split; [now right | assumption].
    + intros (Hnew & Hne & r & [<- | Hr] & Hkey).
      * left. tauto.
      * destruct (in_dec string_dec f (map fst record)) as [Hfirst' | Hlater].
        -- left. tauto.
        -- right. split; [tauto |]. split; [assumption |]. now exists r.
Qed.

(** X22: a full refresh of the first writer on a non-empty batch clears
    columns A to Z and, only when that went through, writes at A1 in RAW
    mode a rectangular grid whose header is the keys of the first record.
    Set against the fields the current mapper collects from the same
    batch (the first record having no key [__rowNumber], which that
    mapper skips), that header is their front part, and what is missing
    is exactly the fields that only later records have: the first writer
    writes those for no record. *)
Theorem legacy_full_refresh_run (record : JsRecord) (rest : list JsRecord)
    (existing : list (list string))
    (Hkeys : NoDup (map fst record))
    (Hrow : ~ In "__rowNumber"%string (map fst record)) :
  main sheetName true today fails (record :: rest) existing
  = ValuesClear (sheetName +++ "!A:Z")
    :: (if fails (ValuesClear (sheetName +++ "!A:Z")) then []
        else [ValuesUpdate (sheetName +++ "!A1") Writer.RAW
                (map fst record :: valuesOf (record :: rest))])
  /\ List.length (valuesOf (record :: rest)) = S (List.length rest)
  /\ Forall (fun row => List.length row = List.length (map fst record))
            (valuesOf (record :: rest))
  /\ exists dropped,
       collectAllFields (record :: rest) = map fst record ++ dropped
       /\ forall f,
            In f dropped
            <-> ~ In f (map fst record)
                /\ f <> "__rowNumber"%string
                /\ exists later, In later rest /\ In f (map fst later).
Proof.
  split; [reflexivity | split; [| split]].
  - unfold valuesOf. now rewrite length_map.
  - apply Forall_forall. intros row Hrecord. unfold valuesOf in Hrecord.
    apply in_map_iff in Hrecord. destruct Hrecord as (r & <- & _).
    unfold headersOf. cbn [hd]. now rewrite !length_map.
  - unfold collectAllFields. cbn [fold_left]. rewrite collectKeys_is_merge.
    rewrite filter_all.
    + rewrite mergeColumns_fresh by exact Hkeys. cbn [List.app].
      apply collectLoop_appends.
    + intros key Hkey. apply negb_true_iff, String.eqb_neq. intros ->.
      contradiction.
Qed.

End LegacyScript.

(** X21 on a sheet with two rows dated today, one of them the header. *)
Lemma legacy_incremental_run_witness :
  [Writer.exampleRecord] <> []
  /\ @Legacy.main Mapper.isoRuntime "Sheet1" false "2024-01-01" (fun _ => false)
       [Writer.exampleRecord]
       [["2024-01-01"; "clicks"]; ["2024-01-01"; "3"]; []; ["2024-01-02"; "5"]]%string
     = [Legacy.ValuesGet "Sheet1"; Legacy.ValuesClear "Sheet1!A2:Z2";
        Legacy.ValuesAppend "Sheet1" Writer.RAW
          (@Legacy.valuesOf Mapper.isoRuntime [Writer.exampleRecord])]
  /\ exists rowNumbers tail,
       @Legacy.main Mapper.isoRuntime "Sheet1" false "2024-01-01" (fun _ => false)
         [Writer.exampleRecord]
         [["2024-01-01"; "clicks"]; ["2024-01-01"; "3"]; []; ["2024-01-02"; "5"]]%string
       = Legacy.ValuesGet "Sheet1"
         :: map (fun rowNumber => Legacy.ValuesClear (Legacy.rowRange "Sheet1" rowNumber))
                rowNumbers
            ++ tail
       /\ ~ In 1%nat rowNumbers.
Proof.
  assert (Hrecords : [Writer.exampleRecord] <> []) by discriminate.
  split; [exact Hrecords |]. split; [reflexivity |].
  destruct (@legacy_incremental_run Mapper.isoRuntime "Sheet1" "2024-01-01"
              (fun _ => false) [Writer.exampleRecord]
              [["2024-01-01"; "clicks"]; ["2024-01-01"; "3"]; [];
               ["2024-01-02"; "5"]]%string Hrecords)
    as (rowNumbers & tail & Hmain & _ & Hin & _).
  exists rowNumbers, tail. split; [exact Hmain |].
  intros Hone. apply Hin in Hone. destruct Hone as [Hle _]. lia.
Defined.

(** X22 on a batch whose second record has a field of its own. *)
Lemma legacy_full_refresh_run_witness :
  (NoDup (map fst Writer.exampleRecord)
   /\ ~ In "__rowNumber"%string (map fst Writer.exampleRecord))
  /\ @Legacy.main Mapper.isoRuntime "Sheet1" true "2024-01-01" (fun _ => false)
       [Writer.exampleRecord; [("cost"%string, Mapper.JString "1.5")]] []
     = [Legacy.ValuesClear "Sheet1!A:Z";
        Legacy.ValuesUpdate "Sheet1!A1" Writer.RAW
          [["date"; "clicks"]; ["2024-01-01"; "7"]; [""; ""]]%string]
  /\ exists dropped,
       Mapper.collectAllFields
         [Writer.exampleRecord; [("cost"%string, Mapper.JString "1.5")]]
       = map fst Writer.exampleRecord ++ dropped
       /\ In "cost"%string dropped.
Proof.
  assert (Hkeys : NoDup (map fst Writer.exampleRecord)).
  { repeat constructor; cbn; intuition discriminate. }
  assert (Hrow : ~ In "__rowNumber"%string (map fst Writer.exampleRecord)).
  { cbn. intuition discriminate. }
  split; [split; assumption |]. split; [reflexivity |].
  destruct (@legacy_full_refresh_run Mapper.isoRuntime "Sheet1" "2024-01-01"
              (fun _ => false) Writer.exampleRecord
              [[("cost"%string, Mapper.JString "1.5")]] [] Hkeys Hrow)
    as (_ & _ & _ & dropped & Hfields & Hdropped).
  exists dropped. split; [exact Hfields |].
  apply Hdropped. split; [cbn; intuition discriminate |].
  split; [discriminate |].
  exists [("cost"%string, Mapper.JString "1.5")]. split; [now left | now left].
Defined.

